(** * assembly-tanks: the turn-resolution engine (BattleManager)

    A shallow embedding of [src/simulation/BattleManager.js].  The class is
    a mutable JavaScript object; here every method is a function from the
    engine state to the new engine state.  Methods that can raise a
    [TypeError] on an ill-formed state ([DIRS[facing]] undefined, a [null]
    CPU) return [option] and [None] stands for the exception; on the states
    the public methods can reach they always return.

    The modules the class imports but that are not part of the reviewed
    sources are handled as follows: the virtual machine ([../vm/CPU.js],
    [Tokenizer.js], [Parser.js]), the numbers of [constants.js] and the ray
    query of [Grid.js] are interfaces ([Class]es) over which the whole
    development is generic; the grid itself (dimensions, wall set,
    [isValid], [addWall]) is modelled from the spec.  [getState] is about
    object identity and has a model of its own, with a store of bullet and
    event objects. *)

From stdpp Require Import base decidable option list gmap sets strings pretty.
From Stdlib Require Import ZArith Lia.

Open Scope Z_scope.

(** ** Identifiers and small enumerations *)

(** [TANK_IDS = { P1: 'P1', P2: 'P2' }]. *)
Inductive TankId := P1 | P2.

#[global] Instance TankId_eq_dec : EqDecision TankId.
Proof. solve_decision. Defined.

Definition tankId_name (t : TankId) : string :=
  match t with P1 => "P1" | P2 => "P2" end.

(** [tankId === 'P1' ? 'P2' : 'P1'] *)
Definition enemyOf (t : TankId) : TankId :=
  match t with P1 => P2 | P2 => P1 end.

(** The tagged results of [cpu.step()]; the constructor is the [type] field
    and the arguments are the variant's other fields. *)
Inductive Result :=
| CPU_OP (opcode : string)
| MOVE (dir : string)
| ROTATE (dir : string)
| FIRE
| SCAN (destDist destType : string)
| PING (destX destY : string)
| WAIT (reason : string)
| HALT
| DEAD.

Definition result_type (r : Result) : string :=
  match r with
  | CPU_OP _ => "CPU_OP" | MOVE _ => "MOVE" | ROTATE _ => "ROTATE"
  | FIRE => "FIRE" | SCAN _ _ => "SCAN" | PING _ _ => "PING"
  | WAIT _ => "WAIT" | HALT => "HALT" | DEAD => "DEAD"
  end.

(** [DIRS]: 0 = East, 1 = South, 2 = West, 3 = North, as the revision of the
    class with its constants inlined defines the table and as the JSDoc of
    [Tank.facing] numbers the directions; any other index is [undefined]
    in JavaScript. *)
Definition DIRS (facing : Z) : option (Z * Z) :=
  if facing =? 0 then Some (1, 0)
  else if facing =? 1 then Some (0, 1)
  else if facing =? 2 then Some (-1, 0)
  else if facing =? 3 then Some (0, -1)
  else None.

(** ** Constants ([constants.js]) *)

(** An entry [{ x, y, facing }] of [START_POSITIONS]. *)
Record StartPosition := { sp_x : Z; sp_y : Z; sp_facing : Z }.

(** The values the class imports from [constants.js].  That file is not
    among the reviewed sources: the development is generic in them. *)
Class Constants := {
  GRID_WIDTH : Z;
  GRID_HEIGHT : Z;
  INITIAL_HP : Z;
  MAX_OPS_PER_TURN : Z;
  BULLET_MAX_RANGE : Z;
  BULLET_SPEED : Z;
  MAX_TURNS : Z;
  START_POSITIONS : TankId → StartPosition
}.

(** ** Grid *)

(** Modelled from the spec: [Grid.js] is not among the reviewed sources.
    The spec gives the grid as [{width, height, walls: set of (x,y)}], set
    once per arena level. *)
Record Grid := { width : Z; height : Z; walls : gset (Z * Z) }.

(** Modelled from the spec: [new Grid(width, height)], a grid without
    walls. *)
Definition new_Grid (w h : Z) : Grid :=
  {| width := w; height := h; walls := ∅ |}.

(** Membership of [(x, y)] in the wall set. *)
Definition isWall (g : Grid) (x y : Z) : bool :=
  bool_decide ((x, y) ∈ walls g).

(** [0 ≤ x < width] and [0 ≤ y < height] *)
Definition inBounds (g : Grid) (x y : Z) : bool :=
  (0 <=? x) && (x <? width g) && (0 <=? y) && (y <? height g).

(** Modelled from the spec: [isValid(x, y)] is true iff [0 ≤ x < width],
    [0 ≤ y < height] and [(x, y)] is not a wall cell. *)
Definition isValid (g : Grid) (x y : Z) : bool :=
  inBounds g x y && negb (isWall g x y).

(** Modelled from the spec: [addWall(x, y)] puts the cell into the wall
    set. *)
Definition addWall (x y : Z) (g : Grid) : Grid :=
  {| width := width g; height := height g; walls := walls g ∪ {[ (x, y) ]} |}.

(** [this.grid.walls.clear()] *)
Definition clearWalls (g : Grid) : Grid :=
  {| width := width g; height := height g; walls := ∅ |}.

(** The answer of [grid.raycast]: a step count and a type code. *)
Record RayResult := { distance : Z; type : Z }.

(** [grid.raycast(x, y, dx, dy, selfId, enemyId, entityMap)].  The engine
    only writes its answer into registers and the log, so the ray query is
    left abstract. *)
Class Raycast := {
  raycast : Grid → Z → Z → Z → Z → TankId → TankId → gmap (Z * Z) TankId → RayResult
}.

(** ** The virtual machine interface ([../vm]) *)

(** An instruction as [stepCPU] reads it for the debug view. *)
Record Instr := { opcode : string; args : list string }.

(** The object [{ program, labels, error }] returned by [parser.parse]. *)
Record ParseResult (Program Labels : Type) := {
  pr_program : Program;
  pr_labels : Labels;
  pr_error : option string
}.
Arguments pr_program {_ _} _.
Arguments pr_labels {_ _} _.
Arguments pr_error {_ _} _.

(** A call either returns or throws an [Error] with a message. *)
Inductive completion (A : Type) :=
| Normal (a : A)
| Throw (message : string).
Arguments Normal {_} _.
Arguments Throw {_} _.

(** What the class uses of [Tokenizer], [Parser] and [CPU]: the methods it
    calls and the fields it reads.  A CPU is a mutable object; each method
    returns the CPU it leaves behind. *)
Class Vm := {
  Tokens : Type;
  Program : Type;
  Labels : Type;
  Registers : Type;
  CPU : Type;
  tokenize : string → completion Tokens;
  parse : Tokens → completion (ParseResult Program Labels);
  new_CPU : Program → Labels → CPU;
  updateTankState : Z → Z → Z → Z → Z → CPU → CPU;
  (** [None] is a falsy result ([null] / [undefined]) *)
  step : CPU → option Result * CPU;
  setRegister : string → Z → CPU → CPU;
  registers : CPU → Registers;
  PC : Registers → nat;
  program : CPU → list Instr
}.

(** ** Tanks, bullets, events *)

Module Tank.
Record t {C R : Type} := mk {
    x : Z;
    y : Z;
    facing : Z;
    hp : Z;
    cpu : option C;
    lastAction : option string;
    lastFeedback : option string;
    debugPC : nat;
    debugIR : option string;
    (** [None] is the initial empty object [{}] *)
    debugRegisters : option R;
    turnOps : Z;
    totalOps : Z
  }.
Arguments t : clear implicits.
Arguments mk {_ _}.

Section Setters.
Context {C R : Type}.
Implicit Type tk : t C R.

Definition set_pos (nx ny : Z) tk : t C R :=
      mk nx ny (facing tk) (hp tk) (cpu tk) (lastAction tk) (lastFeedback tk)
         (debugPC tk) (debugIR tk) (debugRegisters tk) (turnOps tk) (totalOps tk).
Definition set_x (nx : Z) tk : t C R := set_pos nx (y tk) tk.
Definition set_y (ny : Z) tk : t C R := set_pos (x tk) ny tk.
Definition set_facing (f : Z) tk : t C R :=
      mk (x tk) (y tk) f (hp tk) (cpu tk) (lastAction tk) (lastFeedback tk)
         (debugPC tk) (debugIR tk) (debugRegisters tk) (turnOps tk) (totalOps tk).
Definition set_hp (h : Z) tk : t C R :=
      mk (x tk) (y tk) (facing tk) h (cpu tk) (lastAction tk) (lastFeedback tk)
         (debugPC tk) (debugIR tk) (debugRegisters tk) (turnOps tk) (totalOps tk).
Definition set_cpu (c : option C) tk : t C R :=
      mk (x tk) (y tk) (facing tk) (hp tk) c (lastAction tk) (lastFeedback tk)
         (debugPC tk) (debugIR tk) (debugRegisters tk) (turnOps tk) (totalOps tk).
Definition set_lastAction (a : option string) tk : t C R :=
      mk (x tk) (y tk) (facing tk) (hp tk) (cpu tk) a (lastFeedback tk)
         (debugPC tk) (debugIR tk) (debugRegisters tk) (turnOps tk) (totalOps tk).
Definition set_lastFeedback (f : option string) tk : t C R :=
      mk (x tk) (y tk) (facing tk) (hp tk) (cpu tk) (lastAction tk) f
         (debugPC tk) (debugIR tk) (debugRegisters tk) (turnOps tk) (totalOps tk).
Definition set_debug (pc : nat) (ir : option string) tk : t C R :=
      mk (x tk) (y tk) (facing tk) (hp tk) (cpu tk) (lastAction tk) (lastFeedback tk)
         pc ir (debugRegisters tk) (turnOps tk) (totalOps tk).
Definition set_debugRegisters (r : option R) tk : t C R :=
      mk (x tk) (y tk) (facing tk) (hp tk) (cpu tk) (lastAction tk) (lastFeedback tk)
         (debugPC tk) (debugIR tk) r (turnOps tk) (totalOps tk).
Definition set_totalOps (n : Z) tk : t C R :=
      mk (x tk) (y tk) (facing tk) (hp tk) (cpu tk) (lastAction tk) (lastFeedback tk)
         (debugPC tk) (debugIR tk) (debugRegisters tk) (turnOps tk) n.
End Setters.
End Tank.

Module Bullet.
Record t := mk {
    id : Z;
    x : Z;
    y : Z;
    dx : Z;
    dy : Z;
    owner : TankId;
    dist : Z
  }.
End Bullet.

(** [{ id, type, ...data }] with the two payload shapes the class emits. *)
Inductive Event :=
| EXPLOSION (id x y : Z) (owner : TankId) (hitTank : option TankId)
| PING_EVENT (id : Z) (tankId : TankId) (x y enemyX enemyY : Z).

(** A movement intent [{ targetX, targetY }]. *)
Record Intent := { targetX : Z; targetY : Z }.

(** The local object [intents = {}] of [resolveTurn]. *)
Record Intents := { intent_P1 : option Intent; intent_P2 : option Intent }.

Definition no_intents : Intents := {| intent_P1 := None; intent_P2 := None |}.

Definition set_intent (t : TankId) (i : option Intent) (its : Intents) : Intents :=
  match t with
  | P1 => {| intent_P1 := i; intent_P2 := intent_P2 its |}
  | P2 => {| intent_P1 := intent_P1 its; intent_P2 := i |}
  end.

(** ** String helpers *)

Definition lower_ascii (c : Ascii.ascii) : Ascii.ascii :=
  let n := Ascii.nat_of_ascii c in
  if ((65 <=? n) && (n <=? 90))%nat then Ascii.ascii_of_nat (n + 32) else c.

(** [String.prototype.toLowerCase] on ASCII text *)
Fixpoint toLowerCase (s : string) : string :=
  match s with
  | EmptyString => EmptyString
  | String c r => String (lower_ascii c) (toLowerCase r)
  end.

(** [s.padStart(3, '0')] *)
Definition padStart3 (s : string) : string :=
  match String.length s with
  | O => "000" +:+ s
  | 1%nat => "00" +:+ s
  | 2%nat => "0" +:+ s
  | _ => s
  end.

(** [arr.join(', ')] *)
Fixpoint join_comma (l : list string) : string :=
  match l with
  | [] => ""
  | [a] => a
  | a :: r => a +:+ ", " +:+ join_comma r
  end.

(** ** The engine state and its methods *)

Section Engine.
Context {consts : Constants} {vm : Vm} {ray : Raycast}.

Abbreviation Tank := (Tank.t CPU Registers).

(** The fields of a [BattleManager] instance.  [this.tanks],
    [this.pendingActions] and [this.turnOps] are objects keyed by
    ['P1'] / ['P2']; each is kept as a pair of fields read through
    [tanks], [pendingActions] and [turnOps]. *)
Record BattleManager := {
  grid : Grid;
  tanks_P1 : Tank;
  tanks_P2 : Tank;
  bullets : list Bullet.t;
  log : list string;
  events : list Event;
  isGameOver : bool;
  winner : option string;
  pendingActions_P1 : option Result;
  pendingActions_P2 : option Result;
  turnOps_P1 : Z;
  turnOps_P2 : Z;
  turnCount : Z;
  MAX_OPS : Z;
  eventIdCounter : Z
}.

Implicit Type s : BattleManager.

Definition tanks s (t : TankId) : Tank :=
  match t with P1 => tanks_P1 s | P2 => tanks_P2 s end.

Definition pendingActions s (t : TankId) : option Result :=
  match t with P1 => pendingActions_P1 s | P2 => pendingActions_P2 s end.

Definition turnOps s (t : TankId) : Z :=
  match t with P1 => turnOps_P1 s | P2 => turnOps_P2 s end.

Definition set_grid (g : Grid) s : BattleManager :=
  {| grid := g; tanks_P1 := tanks_P1 s; tanks_P2 := tanks_P2 s;
     bullets := bullets s; log := log s; events := events s;
     isGameOver := isGameOver s; winner := winner s;
     pendingActions_P1 := pendingActions_P1 s; pendingActions_P2 := pendingActions_P2 s;
     turnOps_P1 := turnOps_P1 s; turnOps_P2 := turnOps_P2 s;
     turnCount := turnCount s; MAX_OPS := MAX_OPS s;
     eventIdCounter := eventIdCounter s |}.

Definition set_tanks (a b : Tank) s : BattleManager :=
  {| grid := grid s; tanks_P1 := a; tanks_P2 := b;
     bullets := bullets s; log := log s; events := events s;
     isGameOver := isGameOver s; winner := winner s;
     pendingActions_P1 := pendingActions_P1 s; pendingActions_P2 := pendingActions_P2 s;
     turnOps_P1 := turnOps_P1 s; turnOps_P2 := turnOps_P2 s;
     turnCount := turnCount s; MAX_OPS := MAX_OPS s;
     eventIdCounter := eventIdCounter s |}.

Definition set_tank (t : TankId) (tk : Tank) s : BattleManager :=
  match t with
  | P1 => set_tanks tk (tanks_P2 s) s
  | P2 => set_tanks (tanks_P1 s) tk s
  end.

(** In-place mutation of [this.tanks[t]]. *)
Definition upd_tank (t : TankId) (f : Tank → Tank) s : BattleManager :=
  set_tank t (f (tanks s t)) s.

Definition set_bullets (bs : list Bullet.t) s : BattleManager :=
  {| grid := grid s; tanks_P1 := tanks_P1 s; tanks_P2 := tanks_P2 s;
     bullets := bs; log := log s; events := events s;
     isGameOver := isGameOver s; winner := winner s;
     pendingActions_P1 := pendingActions_P1 s; pendingActions_P2 := pendingActions_P2 s;
     turnOps_P1 := turnOps_P1 s; turnOps_P2 := turnOps_P2 s;
     turnCount := turnCount s; MAX_OPS := MAX_OPS s;
     eventIdCounter := eventIdCounter s |}.

Definition set_log (l : list string) s : BattleManager :=
  {| grid := grid s; tanks_P1 := tanks_P1 s; tanks_P2 := tanks_P2 s;
     bullets := bullets s; log := l; events := events s;
     isGameOver := isGameOver s; winner := winner s;
     pendingActions_P1 := pendingActions_P1 s; pendingActions_P2 := pendingActions_P2 s;
     turnOps_P1 := turnOps_P1 s; turnOps_P2 := turnOps_P2 s;
     turnCount := turnCount s; MAX_OPS := MAX_OPS s;
     eventIdCounter := eventIdCounter s |}.

(** [this.log.push(msg)] *)
Definition log_push (msg : string) s : BattleManager :=
  set_log (log s ++ [msg]) s.

Definition set_events (es : list Event) (counter : Z) s : BattleManager :=
  {| grid := grid s; tanks_P1 := tanks_P1 s; tanks_P2 := tanks_P2 s;
     bullets := bullets s; log := log s; events := es;
     isGameOver := isGameOver s; winner := winner s;
     pendingActions_P1 := pendingActions_P1 s; pendingActions_P2 := pendingActions_P2 s;
     turnOps_P1 := turnOps_P1 s; turnOps_P2 := turnOps_P2 s;
     turnCount := turnCount s; MAX_OPS := MAX_OPS s;
     eventIdCounter := counter |}.

(** [this.isGameOver = b; this.winner = w] *)
Definition set_outcome (b : bool) (w : option string) s : BattleManager :=
  {| grid := grid s; tanks_P1 := tanks_P1 s; tanks_P2 := tanks_P2 s;
     bullets := bullets s; log := log s; events := events s;
     isGameOver := b; winner := w;
     pendingActions_P1 := pendingActions_P1 s; pendingActions_P2 := pendingActions_P2 s;
     turnOps_P1 := turnOps_P1 s; turnOps_P2 := turnOps_P2 s;
     turnCount := turnCount s; MAX_OPS := MAX_OPS s;
     eventIdCounter := eventIdCounter s |}.

Definition set_pendingActions (a b : option Result) s : BattleManager :=
  {| grid := grid s; tanks_P1 := tanks_P1 s; tanks_P2 := tanks_P2 s;
     bullets := bullets s; log := log s; events := events s;
     isGameOver := isGameOver s; winner := winner s;
     pendingActions_P1 := a; pendingActions_P2 := b;
     turnOps_P1 := turnOps_P1 s; turnOps_P2 := turnOps_P2 s;
     turnCount := turnCount s; MAX_OPS := MAX_OPS s;
     eventIdCounter := eventIdCounter s |}.

Definition set_pending (t : TankId) (a : option Result) s : BattleManager :=
  match t with
  | P1 => set_pendingActions a (pendingActions_P2 s) s
  | P2 => set_pendingActions (pendingActions_P1 s) a s
  end.

Definition set_turnOps (a b : Z) s : BattleManager :=
  {| grid := grid s; tanks_P1 := tanks_P1 s; tanks_P2 := tanks_P2 s;
     bullets := bullets s; log := log s; events := events s;
     isGameOver := isGameOver s; winner := winner s;
     pendingActions_P1 := pendingActions_P1 s; pendingActions_P2 := pendingActions_P2 s;
     turnOps_P1 := a; turnOps_P2 := b;
     turnCount := turnCount s; MAX_OPS := MAX_OPS s;
     eventIdCounter := eventIdCounter s |}.

Definition incr_turnOps (t : TankId) s : BattleManager :=
  match t with
  | P1 => set_turnOps (turnOps_P1 s + 1) (turnOps_P2 s) s
  | P2 => set_turnOps (turnOps_P1 s) (turnOps_P2 s + 1) s
  end.

Definition set_turnCount (n : Z) s : BattleManager :=
  {| grid := grid s; tanks_P1 := tanks_P1 s; tanks_P2 := tanks_P2 s;
     bullets := bullets s; log := log s; events := events s;
     isGameOver := isGameOver s; winner := winner s;
     pendingActions_P1 := pendingActions_P1 s; pendingActions_P2 := pendingActions_P2 s;
     turnOps_P1 := turnOps_P1 s; turnOps_P2 := turnOps_P2 s;
     turnCount := n; MAX_OPS := MAX_OPS s;
     eventIdCounter := eventIdCounter s |}.

(** [this._logTick(tankId, msg)] *)
Definition _logTick (tankId : TankId) (msg : string) s : BattleManager :=
  let cpu := match tankId with P1 => "CPU_1" | P2 => "CPU_2" end in
  log_push ("[" +:+ cpu +:+ " T" +:+ padStart3 (pretty (turnCount s)) +:+ "] " +:+ msg) s.

(** [addEvent(type, data)]: [mk] builds [{ id, type, ...data }] from the id *)
Definition addEvent (mk : Z → Event) s : BattleManager :=
  set_events (events s ++ [mk (eventIdCounter s)]) (eventIdCounter s + 1) s.

(** [this.eventIdCounter++] *)
Definition next_id s : BattleManager :=
  set_events (events s) (eventIdCounter s + 1) s.

(** [this.bullets.some(b => b.owner === tankId)] *)
Definition hasActiveBullet s (tankId : TankId) : bool :=
  existsb (λ b, bool_decide (Bullet.owner b = tankId)) (bullets s).

(** *** setupArena *)

Definition obstacles : list (Z * Z) :=
  [(4, 2); (4, 7); (12, 2); (12, 7); (8, 1); (8, 8)].

Definition setupArena (level : Z) s : BattleManager :=
  let g := clearWalls (grid s) in
  let g :=
    if level =? 2 then
      addWall 8 5 (addWall 8 4 (addWall 7 5 (addWall 7 4 g)))
    else if level =? 3 then
      foldl (λ g pos, addWall pos.1 pos.2 g) g obstacles
    else g in
  set_grid g s.

(** *** constructor *)

Definition initial_tank (t : TankId) : Tank :=
  let sp := START_POSITIONS t in
  Tank.mk (sp_x sp) (sp_y sp) (sp_facing sp) INITIAL_HP
          None None None 0%nat None None 0 0.

Definition constructor : BattleManager :=
  setupArena 1
    {| grid := new_Grid GRID_WIDTH GRID_HEIGHT;
       tanks_P1 := initial_tank P1; tanks_P2 := initial_tank P2;
       bullets := []; log := []; events := [];
       isGameOver := false; winner := None;
       pendingActions_P1 := None; pendingActions_P2 := None;
       turnOps_P1 := 0; turnOps_P2 := 0;
       turnCount := 0; MAX_OPS := MAX_OPS_PER_TURN;
       eventIdCounter := 0 |}.

(** *** resetTurnState *)

Definition reset_tank (t : TankId) (tk : Tank) : Tank :=
  let sp := START_POSITIONS t in
  Tank.set_totalOps 0
    (Tank.set_hp INITIAL_HP
       (Tank.set_facing (sp_facing sp)
          (Tank.set_y (sp_y sp) (Tank.set_x (sp_x sp) tk)))).

Definition resetTurnState s : BattleManager :=
  {| grid := grid s;
     tanks_P1 := reset_tank P1 (tanks_P1 s);
     tanks_P2 := reset_tank P2 (tanks_P2 s);
     bullets := [];
     log := ["Turn reset."];
     events := [];
     isGameOver := false;
     winner := None;
     pendingActions_P1 := None; pendingActions_P2 := None;
     turnOps_P1 := 0; turnOps_P2 := 0;
     turnCount := 0;
     MAX_OPS := MAX_OPS s;
     eventIdCounter := eventIdCounter s |}.

(** *** loadCode *)

Inductive LoadResult :=
| LoadOk (p1Program p2Program : Program)
| LoadFail (error : string).

(** The truthiness test [if (p.error)]: [null], [undefined] and the empty
    string are falsy. *)
Definition error_of (p : ParseResult Program Labels) : option string :=
  match pr_error p with
  | Some "" => None
  | e => e
  end.

(** [tokenize] then [parse] then [if (p.error) throw new Error(...)] *)
Definition compile (who code : string) : completion (ParseResult Program Labels) :=
  match tokenize code with
  | Throw m => Throw m
  | Normal ts =>
      match parse ts with
      | Throw m => Throw m
      | Normal p =>
          match error_of p with
          | Some e => Throw (who +:+ " Error: " +:+ e)
          | None => Normal p
          end
      end
  end.

Definition install (t : TankId) (p : ParseResult Program Labels) s : BattleManager :=
  upd_tank t (Tank.set_cpu (Some (new_CPU (pr_program p) (pr_labels p)))) s.

(** The [try] block runs top to bottom on the live object; the [catch]
    turns a throw into [{ success: false, error }] and leaves whatever was
    assigned before the throw in place. *)
Definition loadCode (p1Code p2Code : string) s : BattleManager * LoadResult :=
  match compile "P1" p1Code with
  | Throw m => (s, LoadFail m)
  | Normal p1 =>
      let s := install P1 p1 s in
      match compile "P2" p2Code with
      | Throw m => (s, LoadFail m)
      | Normal p2 =>
          let s := install P2 p2 s in
          let s := log_push "Simulation Started." s in
          let s := resetTurnState s in
          (s, LoadOk (pr_program p1) (pr_program p2))
      end
  end.

(** *** stepCPU *)

Definition render_instr (i : Instr) : string :=
  opcode i +:+ " " +:+ join_comma (args i).

Definition stepCPU (tankId : TankId) s : BattleManager * option Result :=
  let tank := tanks s tankId in
  match Tank.cpu tank with
  | None => (s, None)
  | Some c =>
      if Tank.hp tank <=? 0 then (s, None)
      else
        let tank := Tank.set_lastFeedback None tank in
        let c := updateTankState (Tank.x tank) (Tank.y tank) (Tank.facing tank)
                   (Tank.hp tank) (if hasActiveBullet s tankId then 0 else 1) c in
        let pc := PC (registers c) in
        let ir := match program c !! pc with
                  | Some instr => render_instr instr
                  | None => "HALT"
                  end in
        let tank := Tank.set_debug pc (Some ir) tank in
        let '(result, c) := step c in
        let s := incr_turnOps tankId s in
        let tank := Tank.set_totalOps (Tank.totalOps tank + 1) tank in
        let tank := Tank.set_debugRegisters (Some (registers c)) tank in
        let tank := Tank.set_cpu (Some c) tank in
        match result with
        | Some (CPU_OP opcode) =>
            (set_tank tankId (Tank.set_lastAction (Some opcode) tank) s, result)
        | Some (WAIT reason) =>
            (set_pending tankId result
               (set_tank tankId (Tank.set_lastFeedback (Some reason) tank) s), result)
        | Some r =>
            (set_pending tankId result
               (set_tank tankId (Tank.set_lastAction (Some (result_type r)) tank) s), result)
        | None =>
            (set_pending tankId (Some HALT)
               (set_tank tankId (Tank.set_lastAction (Some "HALT") tank) s), result)
        end
  end.

(** *** updateBullets *)

(** [b.x += b.dx; b.y += b.dy; b.dist++] *)
Definition advance (b : Bullet.t) : Bullet.t :=
  Bullet.mk (Bullet.id b) (Bullet.x b + Bullet.dx b) (Bullet.y b + Bullet.dy b)
            (Bullet.dx b) (Bullet.dy b) (Bullet.owner b) (Bullet.dist b + 1).

(** [t.hp > 0 && t.x === px && t.y === py] *)
Definition alive_at (tk : Tank) (px py : Z) : bool :=
  (0 <? Tank.hp tk) && (Tank.x tk =? px) && (Tank.y tk =? py).

(** The body of [for (const tid of ['P1', 'P2'])] on the pair
    (engine, [active]). *)
Definition hit_check (b : Bullet.t) (acc : BattleManager * bool) (tid : TankId)
  : BattleManager * bool :=
  let '(s, active) := acc in
  if decide (tid = Bullet.owner b) then (s, active)
  else
    let t := tanks s tid in
    if alive_at t (Bullet.x b) (Bullet.y b) then
      let s := upd_tank tid (Tank.set_hp (Tank.hp t - 1)) s in
      let s := _logTick (Bullet.owner b)
                 (tankId_name (Bullet.owner b) +:+ " bullet hits " +:+ tankId_name tid
                  +:+ "! HP: " +:+ pretty (Tank.hp t - 1)) s in
      let s := addEvent (λ id, EXPLOSION id (Bullet.x b) (Bullet.y b)
                                 (Bullet.owner b) (Some tid)) s in
      (s, false)
    else (s, active).

(** One iteration of the inner [for (let i = 0; i < BULLET_SPEED; i++)]
    with [active] true on entry. *)
Definition bullet_substep s (b : Bullet.t) : BattleManager * Bullet.t * bool :=
  let b := advance b in
  if BULLET_MAX_RANGE <? Bullet.dist b then (s, b, false)
  else if negb (isValid (grid s) (Bullet.x b) (Bullet.y b)) then
    (addEvent (λ id, EXPLOSION id (Bullet.x b) (Bullet.y b) (Bullet.owner b) None) s,
     b, false)
  else
    let '(s, active) := foldl (hit_check b) (s, true) [P1; P2] in
    (s, b, active).

(** The inner loop with [n] iterations left. *)
Fixpoint bullet_loop (n : nat) s (b : Bullet.t) (active : bool)
  : BattleManager * Bullet.t * bool :=
  match n with
  | O => (s, b, active)
  | S n' =>
      if active then
        let '(s, b, active) := bullet_substep s b in
        bullet_loop n' s b active
      else (s, b, active)
  end.

(** The body of [for (let b of this.bullets)] on the pair
    (engine, [surviving]). *)
Definition bullet_turn (acc : BattleManager * list Bullet.t) (b : Bullet.t)
  : BattleManager * list Bullet.t :=
  let '(s, surviving) := acc in
  let '(s, b, active) := bullet_loop (Z.to_nat BULLET_SPEED) s b true in
  (s, if active then surviving ++ [b] else surviving).

Definition updateBullets s : BattleManager :=
  let '(s, surviving) := foldl bullet_turn (s, []) (bullets s) in
  set_bullets surviving s.

(** *** resolveScan and resolvePing *)

Definition typeName (ty : Z) : string :=
  if ty =? 1 then "WALL" else if ty =? 2 then "TANK" else "EMPTY".

Definition resolveScan (tankId : TankId) (destDist destType : string) s
  : option BattleManager :=
  let tank := tanks s tankId in
  dir ← DIRS (Tank.facing tank);
  let enemyId := enemyOf tankId in
  let enemy := tanks s enemyId in
  let entityMap : gmap (Z * Z) TankId :=
    if 0 <? Tank.hp enemy then {[ (Tank.x enemy, Tank.y enemy) := enemyId ]} else ∅ in
  let result := raycast (grid s) (Tank.x tank) (Tank.y tank) dir.1 dir.2
                  tankId enemyId entityMap in
  c ← Tank.cpu tank;
  let c := setRegister destType (type result) (setRegister destDist (distance result) c) in
  let s := upd_tank tankId (Tank.set_cpu (Some c)) s in
  Some (_logTick tankId
          (tankId_name tankId +:+ " scans: " +:+ typeName (type result)
           +:+ " at dist " +:+ pretty (distance result)) s).

Definition resolvePing (tankId : TankId) (destX destY : string) s
  : option BattleManager :=
  let tank := tanks s tankId in
  let enemy := tanks s (enemyOf tankId) in
  c ← Tank.cpu tank;
  if 0 <? Tank.hp enemy then
    let c := setRegister destY (Tank.y enemy) (setRegister destX (Tank.x enemy) c) in
    let s := upd_tank tankId (Tank.set_cpu (Some c)) s in
    let s := addEvent (λ id, PING_EVENT id tankId (Tank.x tank) (Tank.y tank)
                               (Tank.x enemy) (Tank.y enemy)) s in
    Some (_logTick tankId
            (tankId_name tankId +:+ " pings: enemy at (" +:+ pretty (Tank.x enemy)
             +:+ "," +:+ pretty (Tank.y enemy) +:+ ")") s)
  else
    let c := setRegister destY (-1) (setRegister destX (-1) c) in
    let s := upd_tank tankId (Tank.set_cpu (Some c)) s in
    let s := addEvent (λ id, PING_EVENT id tankId (Tank.x tank) (Tank.y tank) (-1) (-1)) s in
    Some (_logTick tankId (tankId_name tankId +:+ " pings: no enemy") s).

(** *** resolveAction *)

(** The [FIRE] branch. *)
Definition fire (tankId : TankId) s : option BattleManager :=
  let tank := tanks s tankId in
  if hasActiveBullet s tankId then
    let s := upd_tank tankId (Tank.set_lastFeedback (Some "RELOADING")) s in
    Some (_logTick tankId (tankId_name tankId +:+ " fires (reloading)") s)
  else
    dir ← DIRS (Tank.facing tank);
    let startX := Tank.x tank + dir.1 in
    let startY := Tank.y tank + dir.2 in
    if negb (isValid (grid s) startX startY) then
      let s := addEvent (λ id, EXPLOSION id startX startY tankId None) s in
      let s := upd_tank tankId (Tank.set_lastFeedback (Some "BLOCKED")) s in
      Some (_logTick tankId (tankId_name tankId +:+ " fires (blocked)") s)
    else
      let enemyId := enemyOf tankId in
      let enemy := tanks s enemyId in
      if alive_at enemy startX startY then
        let s := upd_tank enemyId (Tank.set_hp (Tank.hp enemy - 1)) s in
        let s := _logTick tankId
                   (tankId_name tankId +:+ " fires - direct hit! " +:+ tankId_name enemyId
                    +:+ " HP: " +:+ pretty (Tank.hp enemy - 1)) s in
        Some (addEvent (λ id, EXPLOSION id startX startY tankId (Some enemyId)) s)
      else
        let s := _logTick tankId (tankId_name tankId +:+ " fires") s in
        let b := Bullet.mk (eventIdCounter s) startX startY dir.1 dir.2 tankId 0 in
        Some (next_id (set_bullets (bullets s ++ [b]) s)).

(** [if (cond) tank.facing = (tank.facing + k) % 4] *)
Definition turn (cond : bool) (k : Z) (tk : Tank) : Tank :=
  if cond then Tank.set_facing (Z.rem (Tank.facing tk + k) 4) tk else tk.

Definition resolveAction (tankId : TankId) (action : option Result)
    (acc : BattleManager * Intents) : option (BattleManager * Intents) :=
  let '(s, intents) := acc in
  match action with
  | None | Some DEAD | Some HALT | Some (WAIT _) => Some (s, intents)
  | Some (ROTATE dir) =>
      let dirName := if bool_decide (dir = "LEFT") then "left" else "right" in
      let s := upd_tank tankId (turn (bool_decide (dir = "LEFT")) 3) s in
      let s := upd_tank tankId (turn (bool_decide (dir = "RIGHT")) 1) s in
      Some (_logTick tankId (tankId_name tankId +:+ " turns " +:+ dirName) s, intents)
  | Some (MOVE dir) =>
      let tank := tanks s tankId in
      let dirIdx := Tank.facing tank in
      let dirIdx := if bool_decide (dir = "BACKWARD") then Z.rem (dirIdx + 2) 4 else dirIdx in
      d ← DIRS dirIdx;
      Some (s, set_intent tankId
                 (Some {| targetX := Tank.x tank + d.1; targetY := Tank.y tank + d.2 |})
                 intents)
  | Some FIRE => s' ← fire tankId s; Some (s', intents)
  | Some (CPU_OP _) | Some (SCAN _ _) | Some (PING _ _) => Some (s, intents)
  end.

(** *** applyMovements *)

Definition intent_of (its : Intents) (t : TankId) : option Intent :=
  match t with P1 => intent_P1 its | P2 => intent_P2 its end.

(** [m.targetX === tk.x && m.targetY === tk.y] *)
Definition targets (m : Intent) (tk : Tank) : bool :=
  (targetX m =? Tank.x tk) && (targetY m =? Tank.y tk).

(** [this.tanks[t].lastFeedback = fb; delete intents[t]] *)
Definition reject (t : TankId) (fb : string) (acc : BattleManager * Intents)
  : BattleManager * Intents :=
  (upd_tank t (Tank.set_lastFeedback (Some fb)) acc.1, set_intent t None acc.2).

(** 1. Wall collision, for tank [t] *)
Definition wall_filter (t : TankId) (acc : BattleManager * Intents)
  : BattleManager * Intents :=
  match intent_of acc.2 t with
  | Some m =>
      if negb (isValid (grid acc.1) (targetX m) (targetY m))
      then reject t "WALL" acc else acc
  | None => acc
  end.

(** 2. Head-on collision (both tanks try to swap positions) *)
Definition head_on_filter (acc : BattleManager * Intents) : BattleManager * Intents :=
  match intent_P1 acc.2, intent_P2 acc.2 with
  | Some m1, Some m2 =>
      if targets m1 (tanks acc.1 P2) && targets m2 (tanks acc.1 P1)
      then reject P2 "COLLISION" (reject P1 "COLLISION" acc) else acc
  | _, _ => acc
  end.

(** 3. Same-target collision *)
Definition same_target_filter (acc : BattleManager * Intents) : BattleManager * Intents :=
  match intent_P1 acc.2, intent_P2 acc.2 with
  | Some m1, Some m2 =>
      if (targetX m1 =? targetX m2) && (targetY m1 =? targetY m2)
      then reject P2 "COLLISION" (reject P1 "COLLISION" acc) else acc
  | _, _ => acc
  end.

(** 4. Blocked by the other tank, for tank [t] *)
Definition blocked_filter (t : TankId) (acc : BattleManager * Intents)
  : BattleManager * Intents :=
  match intent_of acc.2 t with
  | Some m =>
      if targets m (tanks acc.1 (enemyOf t)) then reject t "BLOCKED" acc else acc
  | None => acc
  end.

(** The [if (p1Move) { ... }] block: [move] is the intent captured at entry,
    [its] the intents left by the filters.  [lastFeedback.toLowerCase()]
    throws on [null]. *)
Definition apply_move (t : TankId) (move : option Intent) (its : Intents) s
  : option BattleManager :=
  match move with
  | None => Some s
  | Some _ =>
      match intent_of its t with
      | Some m =>
          let s := upd_tank t (Tank.set_pos (targetX m) (targetY m)) s in
          Some (_logTick t
                  (tankId_name t +:+ " moves to (" +:+ pretty (targetX m) +:+ ","
                   +:+ pretty (targetY m) +:+ ")") s)
      | None =>
          fb ← Tank.lastFeedback (tanks s t);
          Some (_logTick t (tankId_name t +:+ " moves (" +:+ toLowerCase fb +:+ ")") s)
      end
  end.

(** [Math.max(0, Math.min(limit - 1, v))] *)
Definition clamp_to (limit v : Z) : Z := Z.max 0 (Z.min (limit - 1) v).

(** [t.x = clamp(t.x); t.y = clamp(t.y)] *)
Definition clamp_tank (w h : Z) (tk : Tank) : Tank :=
  Tank.set_y (clamp_to h (Tank.y tk)) (Tank.set_x (clamp_to w (Tank.x tk)) tk).

Definition clamp (t : TankId) s : BattleManager :=
  upd_tank t (clamp_tank (width (grid s)) (height (grid s))) s.

Definition movement_filters (intents : Intents) s : BattleManager * Intents :=
  let acc := wall_filter P2 (wall_filter P1 (s, intents)) in
  let acc := head_on_filter acc in
  let acc := same_target_filter acc in
  blocked_filter P2 (blocked_filter P1 acc).

Definition applyMovements (intents : Intents) s : option BattleManager :=
  let acc := movement_filters intents s in
  s ← apply_move P1 (intent_P1 intents) acc.2 acc.1;
  s ← apply_move P2 (intent_P2 intents) acc.2 s;
  Some (clamp P2 (clamp P1 s)).

(** *** resolveTurn *)

(** [this.pendingActions[t]?.type === 'HALT'] *)
Definition is_HALT (a : option Result) : bool :=
  match a with Some HALT => true | _ => false end.

Definition destroyed_check s : BattleManager :=
  if (Tank.hp (tanks s P1) <=? 0) && (Tank.hp (tanks s P2) <=? 0) then
    let s := _logTick P1 "P1 destroyed!" s in
    let s := _logTick P2 "P2 destroyed!" s in
    log_push "=== DRAW - MUTUAL DESTRUCTION ===" (set_outcome true (Some "DRAW") s)
  else if Tank.hp (tanks s P1) <=? 0 then
    let s := _logTick P1 "P1 destroyed!" s in
    log_push "=== P2 WINS! ===" (set_outcome true (Some "P2") s)
  else if Tank.hp (tanks s P2) <=? 0 then
    let s := _logTick P2 "P2 destroyed!" s in
    log_push "=== P1 WINS! ===" (set_outcome true (Some "P1") s)
  else s.

Definition stalemate_check s : BattleManager :=
  if negb (isGameOver s) && is_HALT (pendingActions s P1) && is_HALT (pendingActions s P2)
  then log_push "=== DRAW - STALEMATE ===" (set_outcome true (Some "DRAW (STALEMATE)") s)
  else s.

Definition turn_limit_check s : BattleManager :=
  if negb (isGameOver s) && (MAX_TURNS <=? turnCount s)
  then log_push "=== DRAW - TURN LIMIT ===" (set_outcome true (Some "DRAW (TURN LIMIT)") s)
  else s.

Definition game_over_checks s : BattleManager :=
  turn_limit_check (stalemate_check (destroyed_check s)).

Definition resolve_sensor_scan (t : TankId) (a : option Result) s : option BattleManager :=
  match a with
  | Some (SCAN destDist destType) => resolveScan t destDist destType s
  | _ => Some s
  end.

Definition resolve_sensor_ping (t : TankId) (a : option Result) s : option BattleManager :=
  match a with
  | Some (PING destX destY) => resolvePing t destX destY s
  | _ => Some s
  end.

Definition begin_turn s : BattleManager :=
  let s := set_turnCount (turnCount s + 1) s in
  let s := set_turnOps 0 0 s in
  let s := upd_tank P1 (Tank.set_lastFeedback None) s in
  upd_tank P2 (Tank.set_lastFeedback None) s.

(** Steps 1 to 4 of [resolveTurn]: bullets, sensors, actions, movements. *)
Definition resolve_world s : option BattleManager :=
  let p1Action := pendingActions s P1 in
  let p2Action := pendingActions s P2 in
  let s := updateBullets s in
  s ← resolve_sensor_scan P1 p1Action s;
  s ← resolve_sensor_scan P2 p2Action s;
  s ← resolve_sensor_ping P1 p1Action s;
  s ← resolve_sensor_ping P2 p2Action s;
  acc ← resolveAction P1 p1Action (s, no_intents);
  acc ← resolveAction P2 p2Action acc;
  applyMovements acc.2 acc.1.

Definition resolveTurn s : option BattleManager :=
  s ← resolve_world (begin_turn s);
  let s := game_over_checks s in
  Some (set_pendingActions None None s).

(** ** Reachable engine states

    The states a client obtains from [new BattleManager()] by calling the
    public methods in any order. *)
Inductive reachable : BattleManager → Prop :=
| reach_constructor : reachable constructor
| reach_setupArena level s : reachable s → reachable (setupArena level s)
| reach_loadCode p1Code p2Code s : reachable s → reachable (loadCode p1Code p2Code s).1
| reach_resetTurnState s : reachable s → reachable (resetTurnState s)
| reach_stepCPU t s : reachable s → reachable (stepCPU t s).1
| reach_resolveTurn s s' : reachable s → resolveTurn s = Some s' → reachable s'.

(** ** Vocabulary for the properties *)

(** The fields that only [resolveTurn] itself, [resetTurnState],
    [setupArena] and [stepCPU] assign. *)
Definition control s :=
  (grid s, isGameOver s, winner s, pendingActions_P1 s, pendingActions_P2 s,
   turnCount s, MAX_OPS s, turnOps_P1 s, turnOps_P2 s).

(** The assignments to a tank's fields made while a turn is resolved. *)
Inductive tank_update : (Tank → Tank) → Prop :=
| tu_hp h : tank_update (Tank.set_hp h)
| tu_lastFeedback f : tank_update (Tank.set_lastFeedback f)
| tu_cpu c : tank_update (Tank.set_cpu (Some c))
| tu_pos x y : tank_update (Tank.set_pos x y)
| tu_clamp w h : tank_update (clamp_tank w h)
| tu_turn cond k : 0 ≤ k → tank_update (turn cond k).

(** A property of the engine that these assignments, and changes of the
    log, the events and the event counter, do not disturb. *)
Record quiet (P : BattleManager → Prop) : Prop := {
  quiet_tank : ∀ t f s, tank_update f → P s → P (upd_tank t f s);
  quiet_log : ∀ l s, P s → P (set_log l s);
  quiet_events : ∀ es n s, P s → P (set_events es n s)
}.

(** ... nor the bullets. *)
Definition bullet_blind (P : BattleManager → Prop) : Prop :=
  ∀ bs s, P s → P (set_bullets bs s).

(** How many bullets of [bs] belong to [t]. *)
Definition owner_count (t : TankId) (bs : list Bullet.t) : nat :=
  length (filter (λ b, Bullet.owner b = t) bs).

(** [k] applications of [advance] *)
Fixpoint advance_n (k : nat) (b : Bullet.t) : Bullet.t :=
  match k with
  | O => b
  | S k' => advance (advance_n k' b)
  end.

(** The wall layout of a level: the centre block for level 2, the six
    scattered obstacles for level 3, nothing for any other level. *)
Definition arena_layout (level : Z) : gset (Z * Z) :=
  if level =? 2 then {[ (7, 4); (7, 5); (8, 4); (8, 5) ]}
  else if level =? 3 then {[ (4, 2); (4, 7); (12, 2); (12, 7); (8, 1); (8, 8) ]}
  else ∅.

(** [winner] is set exactly when the game is over. *)
Definition outcome_consistent s : Prop :=
  winner s ≠ None ↔ isGameOver s = true.

(** At most one live bullet per owner. *)
Definition one_bullet_each s : Prop :=
  ∀ t, (owner_count t (bullets s) ≤ 1)%nat.

(** *** Movement outcomes, in the words of the priority list *)

Inductive MoveOutcome := Wall | Collision | Blocked | Moved.

(** The outcome of tank [t]'s intent [m] in state [s] when the intents of
    the turn are [its]: the first rule that applies, in the order wall,
    head-on swap, same target, blocked; [Moved] if none does.  The two
    collision rules need both intents to have passed the wall rule. *)
Definition move_outcome s (its : Intents) (t : TankId) (m : Intent) : MoveOutcome :=
  let other := tanks s (enemyOf t) in
  if negb (isValid (grid s) (targetX m) (targetY m)) then Wall
  else
    let collides :=
      match intent_of its (enemyOf t) with
      | Some m' =>
          isValid (grid s) (targetX m') (targetY m')
          && ((targets m other && targets m' (tanks s t))
              || ((targetX m =? targetX m') && (targetY m =? targetY m')))
      | None => false
      end in
    if collides then Collision
    else if targets m other then Blocked
    else Moved.

Definition position (tk : Tank) : Z * Z := (Tank.x tk, Tank.y tk).

(** A tank's position after the final clamp. *)
Definition clamped s (tk : Tank) : Z * Z :=
  (clamp_to (width (grid s)) (Tank.x tk), clamp_to (height (grid s)) (Tank.y tk)).

(** What [applyMovements] leaves a tank with, given the outcome of its
    intent. *)
Definition moved_as s (o : option (Intent * MoveOutcome)) (before after : Tank) : Prop :=
  match o with
  | None =>
      position after = clamped s before
      ∧ Tank.lastFeedback after = Tank.lastFeedback before
  | Some (m, Wall) =>
      position after = clamped s before ∧ Tank.lastFeedback after = Some "WALL"
  | Some (m, Collision) =>
      position after = clamped s before ∧ Tank.lastFeedback after = Some "COLLISION"
  | Some (m, Blocked) =>
      position after = clamped s before ∧ Tank.lastFeedback after = Some "BLOCKED"
  | Some (m, Moved) =>
      position after = (targetX m, targetY m)
      ∧ Tank.lastFeedback after = Tank.lastFeedback before
  end.

(** The fields of a tank that movement does not touch. *)
Definition tank_rest (tk : Tank) :=
  (Tank.facing tk, Tank.hp tk, Tank.cpu tk, Tank.lastAction tk, Tank.debugPC tk,
   Tank.debugIR tk, Tank.debugRegisters tk, Tank.turnOps tk, Tank.totalOps tk).

(** The reading of "exactly one of wall, collision, blocked, both-succeed
    applies to a pair of intents" on the result [s'] of a turn that began
    with both feedback fields cleared. *)
Definition feedback_given s' (fb : string) : Prop :=
  Tank.lastFeedback (tanks s' P1) = Some fb ∨ Tank.lastFeedback (tanks s' P2) = Some fb.

Definition both_succeed (its : Intents) s' : Prop :=
  ∀ t m, intent_of its t = Some m → position (tanks s' t) = (targetX m, targetY m).

Definition exactly_one_of (A B C D : Prop) : Prop :=
  (A ∧ ¬ B ∧ ¬ C ∧ ¬ D) ∨ (¬ A ∧ B ∧ ¬ C ∧ ¬ D)
  ∨ (¬ A ∧ ¬ B ∧ C ∧ ¬ D) ∨ (¬ A ∧ ¬ B ∧ ¬ C ∧ D).

Definition pair_outcome_exclusive (its : Intents) s' : Prop :=
  exactly_one_of (feedback_given s' "WALL") (feedback_given s' "COLLISION")
                 (feedback_given s' "BLOCKED") (both_succeed its s').

(** *** The host loop

    The round that the Step button handler of [main.js] plays once the
    programs are loaded: each tank that is not yet turn-ready takes one
    micro-step, and the turn is resolved once both are ready.  The
    handler itself, which first compiles and loads the programs when P1
    has no CPU, is [btnStep]. *)
Definition turn_ready s (t : TankId) : bool :=
  bool_decide (is_Some (pendingActions s t)) || (Tank.hp (tanks s t) <=? 0).

Definition host_step s : option BattleManager :=
  let s := if turn_ready s P1 then s else (stepCPU P1 s).1 in
  let s := if turn_ready s P2 then s else (stepCPU P2 s).1 in
  if turn_ready s P1 && turn_ready s P2 then resolveTurn s else Some s.

Fixpoint host_steps (n : nat) s : option BattleManager :=
  match n with
  | O => Some s
  | S n' => s' ← host_step s; host_steps n' s'
  end.

(** The Step button handler of [main.js], as far as the engine goes.
    [sources] is what [compilePlayer] makes of the two editors when the
    handler asks: the two assembly texts, or [None] if one of them does
    not compile.  If P1 has no CPU the two programs are compiled and
    loaded first, and the handler returns at once if they do not compile;
    the result of [loadCode] is not looked at.  Then the round of
    [host_step] is played. *)
Definition btnStep (sources : option (string * string)) s : option BattleManager :=
  match Tank.cpu (tanks s P1) with
  | Some _ => host_step s
  | None =>
      match sources with
      | Some (p1, p2) => host_step (loadCode p1 p2 s).1
      | None => Some s
      end
  end.

(** Step pressed once for each element of [presses], which gives the
    state of the editors at that press. *)
Fixpoint btnSteps (presses : list (option (string * string))) s : option BattleManager :=
  match presses with
  | [] => Some s
  | sources :: rest => s' ← btnStep sources s; btnSteps rest s'
  end.

(** A fresh engine with two programs loaded. *)
Definition game (p1Code p2Code : string) : BattleManager :=
  (loadCode p1Code p2Code constructor).1.

(** The engine after [n] rounds of the host loop; the engine is returned
    as it is if a round throws. *)
Definition after_rounds (n : nat) s : BattleManager :=
  default s (host_steps n s).

(** *** Bullet flight, in the words of the bullet-advance rule *)

(** A bullet that has just moved to its cell keeps flying iff it has not
    exceeded the maximum range, the cell is inside the grid and not a wall,
    and no living tank other than its owner stands there. *)
Definition flies_on s (b : Bullet.t) : bool :=
  (Bullet.dist b <=? BULLET_MAX_RANGE)
  && isValid (grid s) (Bullet.x b) (Bullet.y b)
  && negb (alive_at (tanks s (enemyOf (Bullet.owner b))) (Bullet.x b) (Bullet.y b)).




(** What the checks read, besides the game-over flag itself. *)
Definition verdict_inputs s :=
  (tanks_P1 s, tanks_P2 s, pendingActions_P1 s, pendingActions_P2 s, turnCount s).

(** *** States on which a turn raises no TypeError *)

(** The start facings are directions. *)
Definition valid_start : Prop :=
  ∀ t, 0 ≤ sp_facing (START_POSITIONS t) < 4.

(** A pending SCAN or PING, whose answer is written into the CPU. *)
Definition is_sensor (a : option Result) : bool :=
  match a with
  | Some (SCAN _ _) | Some (PING _ _) => true
  | _ => false
  end.

(** Every facing is a direction and the tanks in [K] have a CPU. *)
Definition shape (K : TankId → Prop) s : Prop :=
  ∀ t, 0 ≤ Tank.facing (tanks s t) < 4 ∧ (K t → is_Some (Tank.cpu (tanks s t))).

Definition well_formed s : Prop :=
  shape (λ t, is_sensor (pendingActions s t) = true) s.

(** ** The writes of a turn

    Every assignment that [stepCPU] and [resolveTurn] make to the engine,
    each with what the code has tested just before making it.  The flag
    tells whether the positions of the tanks may be written, which only
    [applyMovements] does. *)

(** The [id] field of an event. *)
Definition event_id (e : Event) : Z :=
  match e with
  | EXPLOSION id _ _ _ _ => id
  | PING_EVENT id _ _ _ _ _ => id
  end.

(** The fields of a tank that the simulation itself reads: the others
    ([cpu], [lastAction], [lastFeedback], the debug fields, the op
    counters) are for the CPU and the display. *)
Definition vitals (tk : Tank) : Z * Z * Z * Z :=
  (Tank.x tk, Tank.y tk, Tank.facing tk, Tank.hp tk).

(** The arena and what is in it, as opposed to the turn bookkeeping
    (pending actions, op and turn counters, game-over flag and winner). *)
Definition world s :=
  (grid s, tanks_P1 s, tanks_P2 s, bullets s, log s, events s, eventIdCounter s).

(** A bullet that passes the range and the cell test at each of the
    [BULLET_SPEED] steps of a turn. *)
Definition in_flight (g : Grid) (b : Bullet.t) : Prop :=
  ∀ k, (1 ≤ k ≤ Z.to_nat BULLET_SPEED)%nat →
    isValid g (Bullet.x (advance_n k b)) (Bullet.y (advance_n k b)) = true
    ∧ Bullet.dist (advance_n k b) ≤ BULLET_MAX_RANGE.

Inductive mutation (moving : bool) : BattleManager → BattleManager → Prop :=
| mu_control s s' :
    world s' = world s → mutation moving s s'
| mu_display t f s :
    vitals (f (tanks s t)) = vitals (tanks s t) → mutation moving s (upd_tank t f s)
| mu_damage t s :
    0 < Tank.hp (tanks s t) →
    mutation moving s (upd_tank t (Tank.set_hp (Tank.hp (tanks s t) - 1)) s)
| mu_turn t cond k s :
    0 ≤ k → mutation moving s (upd_tank t (turn cond k) s)
| mu_log msg s :
    mutation moving s (log_push msg s)
| mu_event e s :
    event_id e = eventIdCounter s →
    mutation moving s (set_events (events s ++ [e]) (eventIdCounter s + 1) s)
| mu_spawn b s :
    Bullet.id b = eventIdCounter s → Bullet.dist b = 0 →
    isValid (grid s) (Bullet.x b) (Bullet.y b) = true →
    (∃ f, DIRS f = Some (Bullet.dx b, Bullet.dy b)) →
    hasActiveBullet s (Bullet.owner b) = false →
    mutation moving s (next_id (set_bullets (bullets s ++ [b]) s))
| mu_prune l s :
    sublist l (bullets s) → Forall (in_flight (grid s)) l →
    mutation moving s (set_bullets (advance_n (Z.to_nat BULLET_SPEED) <$> l) s)
| mu_move t x y s :
    moving = true → mutation moving s (upd_tank t (Tank.set_pos x y) s)
| mu_clamp t s :
    moving = true → mutation moving s (clamp t s).

(** The target of a movement intent is one of the four cells next to the
    tank. *)
Definition next_to (m : Intent) (tk : Tank) : Prop :=
  Z.abs (targetX m - Tank.x tk) + Z.abs (targetY m - Tank.y tk) = 1.

(** The ids in use: those of the recorded events and of the live
    bullets, which are drawn from the same counter. *)
Definition ids s : list Z :=
  (event_id <$> events s) ++ (Bullet.id <$> bullets s).

(** The ids in use are pairwise distinct and below the counter. *)
Definition ids_fresh s : Prop :=
  0 ≤ eventIdCounter s
  ∧ NoDup (ids s) ∧ Forall (λ i, 0 ≤ i < eventIdCounter s) (ids s).

(** What the JSDoc of [Bullet] says of a live bullet, and its cell being
    on the board. *)
Definition bullet_ok s (b : Bullet.t) : Prop :=
  inBounds (grid s) (Bullet.x b) (Bullet.y b) = true
  ∧ 0 ≤ Bullet.dist b ≤ BULLET_MAX_RANGE
  ∧ ∃ f, DIRS f = Some (Bullet.dx b, Bullet.dy b).

(** The start cells are on the board. *)
Definition start_on_board : Prop :=
  ∀ t, 0 ≤ sp_x (START_POSITIONS t) < GRID_WIDTH
       ∧ 0 ≤ sp_y (START_POSITIONS t) < GRID_HEIGHT.

(** The two tanks start on different cells. *)
Definition start_apart : Prop :=
  (sp_x (START_POSITIONS P1), sp_y (START_POSITIONS P1))
  ≠ (sp_x (START_POSITIONS P2), sp_y (START_POSITIONS P2)).

(** The grid has the dimensions of [constants.js] and both tanks stand
    on it. *)
Definition on_board s : Prop :=
  width (grid s) = GRID_WIDTH ∧ height (grid s) = GRID_HEIGHT
  ∧ ∀ t, inBounds (grid s) (Tank.x (tanks s t)) (Tank.y (tanks s t)) = true.

(** The tanks stand on different cells. *)
Definition apart s : Prop :=
  position (tanks s P1) ≠ position (tanks s P2).

(** [this.pendingActions[t]?.type === 'FIRE'] *)
Definition is_FIRE (a : option Result) : bool :=
  match a with Some FIRE => true | _ => false end.

(** What can hurt tank [t] in the coming turn: the enemy's bullets in
    flight and the shot the enemy has pending. *)
Definition threat s (t : TankId) : Z :=
  Z.of_nat (owner_count (enemyOf t) (bullets s))
  + (if is_FIRE (pendingActions s (enemyOf t)) then 1 else 0).

(** The line [_logTick] writes: the message behind the CPU tag and the
    turn number padded to three digits. *)
Definition tick_line (tankId : TankId) (msg : string) s : string :=
  "[" +:+ match tankId with P1 => "CPU_1" | P2 => "CPU_2" end
  +:+ " T" +:+ padStart3 (pretty (turnCount s)) +:+ "] " +:+ msg.

(** The facing after a ROTATE with direction [dir] from facing [f]. *)
Definition turn_to (dir : string) (f : Z) : Z :=
  if bool_decide (dir = "LEFT") then Z.rem (f + 3) 4
  else if bool_decide (dir = "RIGHT") then Z.rem (f + 1) 4
  else f.

(** The CPU [c] with the answer of a PING written into it: the cell of
    the enemy if it is alive, (-1, -1) if not. *)
Definition ping_answer (destX destY : string) (enemy : Tank) (c : CPU) : CPU :=
  if 0 <? Tank.hp enemy
  then setRegister destY (Tank.y enemy) (setRegister destX (Tank.x enemy) c)
  else setRegister destY (-1) (setRegister destX (-1) c).

(** The CPU [c] with the answer of a SCAN written into it: distance and
    type of what the ray from the tank in direction [d] meets, a living
    enemy being the only entity on the board. *)
Definition scan_answer (destDist destType : string) (g : Grid) (t : TankId)
    (tank enemy : Tank) (d : Z * Z) (c : CPU) : CPU :=
  let entityMap : gmap (Z * Z) TankId :=
    if 0 <? Tank.hp enemy then {[ (Tank.x enemy, Tank.y enemy) := enemyOf t ]} else ∅ in
  let result := raycast g (Tank.x tank) (Tank.y tank) d.1 d.2 t (enemyOf t) entityMap in
  setRegister destType (type result) (setRegister destDist (distance result) c).

End Engine.

(** ** Object identity: what [getState] shares with its caller

    [this.bullets] and [this.events] are arrays of object references.  The
    state-passing model above keeps the objects themselves in the lists;
    to speak about a caller that writes through a snapshot, the objects
    live in a store and the arrays hold references into it. *)

Section Snapshot.
Context {vm : Vm}.

Abbreviation Tank := (Tank.t CPU Registers).

Record Objects := {
  bullet_objects : gmap nat Bullet.t;
  event_objects : gmap nat Event
}.

(** The engine with its arrays of references; [this_fields] carries every
    other field. *)
Record Engine := {
  objects : Objects;
  this_bullets : list nat;
  this_events : list nat;
  this_fields : BattleManager
}.

Definition deref {A} (m : gmap nat A) (refs : list nat) : list A :=
  omap (λ r, m !! r) refs.

(** The engine state the methods of [BattleManager] work on. *)
Definition contents (e : Engine) : BattleManager :=
  set_events (deref (event_objects (objects e)) (this_events e))
    (eventIdCounter (this_fields e))
    (set_bullets (deref (bullet_objects (objects e)) (this_bullets e)) (this_fields e)).

(** The object returned by [getState()]. *)
Record GameState := {
  state_tanks_P1 : Tank;
  state_tanks_P2 : Tank;
  state_bullets : list nat;
  state_log : list string;
  state_events : list nat;
  gameOver : bool;
  state_winner : option string;
  state_turnCount : Z
}.

(** [JSON.parse(JSON.stringify(this.tanks))] builds new tank objects, the
    spreads [[...this.bullets]], [[...this.log]], [[...this.events]] build
    new arrays with the same elements: for bullets and events, the same
    references. *)
Definition getState (e : Engine) : GameState :=
  {| state_tanks_P1 := tanks_P1 (this_fields e);
     state_tanks_P2 := tanks_P2 (this_fields e);
     state_bullets := this_bullets e;
     state_log := log (this_fields e);
     state_events := this_events e;
     gameOver := isGameOver (this_fields e);
     state_winner := winner (this_fields e);
     state_turnCount := turnCount (this_fields e) |}.

(** What a reader of the snapshot sees. *)
Definition seen_bullets (o : Objects) (g : GameState) : list Bullet.t :=
  deref (bullet_objects o) (state_bullets g).

Definition seen_events (o : Objects) (g : GameState) : list Event :=
  deref (event_objects o) (state_events g).

(** The assignments a caller can make on a snapshot [g]. *)
Inductive ClientWrite :=
| write_tank (t : TankId) (f : Tank → Tank)
| write_bullets_array (f : list nat → list nat)
| write_events_array (f : list nat → list nat)
| write_log_array (f : list string → list string)
| write_gameOver (b : bool)
| write_winner (w : option string)
| write_turnCount (n : Z)
| write_bullet_object (i : nat) (f : Bullet.t → Bullet.t)
| write_event_object (i : nat) (f : Event → Event).

(** [g.bullets[i].field = v]: a write to the object the array slot refers to *)
Definition write_through {A} (refs : list nat) (i : nat) (f : A → A) (m : gmap nat A)
  : gmap nat A :=
  match refs !! i with
  | Some r => alter f r m
  | None => m
  end.

Definition client_write (w : ClientWrite) (o : Objects) (g : GameState)
  : Objects * GameState :=
  match w with
  | write_tank P1 f =>
      (o, {| state_tanks_P1 := f (state_tanks_P1 g); state_tanks_P2 := state_tanks_P2 g;
             state_bullets := state_bullets g; state_log := state_log g;
             state_events := state_events g; gameOver := gameOver g;
             state_winner := state_winner g; state_turnCount := state_turnCount g |})
  | write_tank P2 f =>
      (o, {| state_tanks_P1 := state_tanks_P1 g; state_tanks_P2 := f (state_tanks_P2 g);
             state_bullets := state_bullets g; state_log := state_log g;
             state_events := state_events g; gameOver := gameOver g;
             state_winner := state_winner g; state_turnCount := state_turnCount g |})
  | write_bullets_array f =>
      (o, {| state_tanks_P1 := state_tanks_P1 g; state_tanks_P2 := state_tanks_P2 g;
             state_bullets := f (state_bullets g); state_log := state_log g;
             state_events := state_events g; gameOver := gameOver g;
             state_winner := state_winner g; state_turnCount := state_turnCount g |})
  | write_events_array f =>
      (o, {| state_tanks_P1 := state_tanks_P1 g; state_tanks_P2 := state_tanks_P2 g;
             state_bullets := state_bullets g; state_log := state_log g;
             state_events := f (state_events g); gameOver := gameOver g;
             state_winner := state_winner g; state_turnCount := state_turnCount g |})
  | write_log_array f =>
      (o, {| state_tanks_P1 := state_tanks_P1 g; state_tanks_P2 := state_tanks_P2 g;
             state_bullets := state_bullets g; state_log := f (state_log g);
             state_events := state_events g; gameOver := gameOver g;
             state_winner := state_winner g; state_turnCount := state_turnCount g |})
  | write_gameOver b =>
      (o, {| state_tanks_P1 := state_tanks_P1 g; state_tanks_P2 := state_tanks_P2 g;
             state_bullets := state_bullets g; state_log := state_log g;
             state_events := state_events g; gameOver := b;
             state_winner := state_winner g; state_turnCount := state_turnCount g |})
  | write_winner w =>
      (o, {| state_tanks_P1 := state_tanks_P1 g; state_tanks_P2 := state_tanks_P2 g;
             state_bullets := state_bullets g; state_log := state_log g;
             state_events := state_events g; gameOver := gameOver g;
             state_winner := w; state_turnCount := state_turnCount g |})
  | write_turnCount n =>
      (o, {| state_tanks_P1 := state_tanks_P1 g; state_tanks_P2 := state_tanks_P2 g;
             state_bullets := state_bullets g; state_log := state_log g;
             state_events := state_events g; gameOver := gameOver g;
             state_winner := state_winner g; state_turnCount := n |})
  | write_bullet_object i f =>
      ({| bullet_objects := write_through (state_bullets g) i f (bullet_objects o);
          event_objects := event_objects o |}, g)
  | write_event_object i f =>
      ({| bullet_objects := bullet_objects o;
          event_objects := write_through (state_events g) i f (event_objects o) |}, g)
  end.

(** The engine after its caller wrote on a snapshot: the caller has no
    handle on the engine itself, only on the objects they share. *)
Definition after_client_write (w : ClientWrite) (g : GameState) (e : Engine) : Engine :=
  {| objects := (client_write w (objects e) g).1;
     this_bullets := this_bullets e;
     this_events := this_events e;
     this_fields := this_fields e |}.

(** The writes that stay inside the snapshot's own arrays and copies. *)
Definition shallow (w : ClientWrite) : bool :=
  match w with
  | write_bullet_object _ _ | write_event_object _ _ => false
  | _ => true
  end.

End Snapshot.

(** ** The scene and the run loop

    What [view/scenes/BattleScene.js] keeps between two renderings and
    how [main.js] drives the engine and the scene.  Sprites, tweens and
    texts are left out except for what decides them: the set of bullet
    ids that have a sprite, the ids of the events already shown, the index
    up to which the log has been printed, and the game-over text.  The
    calls of [triggerExplosion] and [triggerPingVisual] are recorded in
    the order they are made, and so are the children of the [status-log]
    element that [log] maintains. *)

Section View.
Context {consts : Constants} {vm : Vm} {ray : Raycast}.

Record Scene := {
  (** the keys of [this.bulletSprites] *)
  bulletSprites : gset Z;
  processedEvents : gset Z;
  lastLogIndex : nat;
  uiGameOver : string;
  (** the events whose visual effect was triggered, oldest first *)
  triggered : list Event;
  (** the children of the [status-log] element, newest first *)
  statusLog : list string
}.

(** The bullet part of [updateVisuals]: a sprite is created for each
    bullet id that has none, then the sprites whose id is not among the
    current bullets are destroyed. *)
Definition updateVisuals (bs : list Bullet.t) (sc : Scene) : Scene :=
  let currentIds : gset Z := list_to_set (Bullet.id <$> bs) in
  let sprites := foldl (λ m b, m ∪ {[ Bullet.id b ]}) (bulletSprites sc) bs in
  {| bulletSprites := filter (λ i, i ∈ currentIds) sprites;
     processedEvents := processedEvents sc; lastLogIndex := lastLogIndex sc;
     uiGameOver := uiGameOver sc; triggered := triggered sc; statusLog := statusLog sc |}.

(** The body of [state.events.forEach]. *)
Definition show_event (sc : Scene) (e : Event) : Scene :=
  if decide (event_id e ∈ processedEvents sc) then sc
  else
    {| bulletSprites := bulletSprites sc;
       processedEvents := processedEvents sc ∪ {[ event_id e ]};
       lastLogIndex := lastLogIndex sc; uiGameOver := uiGameOver sc;
       triggered := triggered sc ++ [e]; statusLog := statusLog sc |}.

(** [log(msg)]: the entry is put in front and the last child is removed
    when there are more than 20. *)
Definition status_entry (dom : list string) (msg : string) : list string :=
  let dom := ("> " +:+ msg) :: dom in
  if (20 <? length dom)%nat then removelast dom else dom.

(** The log part of [renderState]. *)
Definition show_log (lg : list string) (sc : Scene) : Scene :=
  if (lastLogIndex sc <? length lg)%nat then
    {| bulletSprites := bulletSprites sc; processedEvents := processedEvents sc;
       lastLogIndex := length lg; uiGameOver := uiGameOver sc;
       triggered := triggered sc;
       statusLog := foldl status_entry (statusLog sc) (drop (lastLogIndex sc) lg) |}
  else sc.

(** [state.winner === 'DRAW' ? 'DRAW!' : `${state.winner} WINS!`] *)
Definition banner (w : option string) : string :=
  if bool_decide (w = Some "DRAW") then "DRAW!" else default "null" w +:+ " WINS!".

Definition show_game_over (over : bool) (w : option string) (sc : Scene) : Scene :=
  if over then
    {| bulletSprites := bulletSprites sc; processedEvents := processedEvents sc;
       lastLogIndex := lastLogIndex sc; uiGameOver := banner w;
       triggered := triggered sc; statusLog := statusLog sc |}
  else sc.

(** [renderState(state)] for the snapshot [state] that [getState()] takes
    of the engine [s]: its bullets, events, log, game-over flag and winner
    are those of [s]. *)
Definition renderState s (sc : Scene) : Scene :=
  let sc := updateVisuals (bullets s) sc in
  let sc := foldl show_event sc (events s) in
  let sc := show_log (log s) sc in
  show_game_over (isGameOver s) (winner s) sc.

(** [startSimulation(data)], and [resetSimulation(data)] which differs in
    a text only. *)
Definition startSimulation (sc : Scene) : Scene :=
  {| bulletSprites := ∅; processedEvents := ∅; lastLogIndex := 0;
     uiGameOver := ""; triggered := triggered sc; statusLog := statusLog sc |}.

(** The engine and the scene with the flags of [main.js]. *)
Record Host := {
  battleManager : BattleManager;
  scene : Scene;
  simulationRunning : bool;
  isFastForward : bool
}.

(** [executeLoopStep()]; the timer it sets calls it again. *)
Definition executeLoopStep (h : Host) : option Host :=
  if negb (simulationRunning h) || isGameOver (battleManager h) then
    Some {| battleManager := battleManager h; scene := scene h;
            simulationRunning := false; isFastForward := isFastForward h |}
  else
    let s := battleManager h in
    let s := if turn_ready s P1 then s else (stepCPU P1 s).1 in
    let s := if turn_ready s P2 then s else (stepCPU P2 s).1 in
    let sc := renderState s (scene h) in
    if turn_ready s P1 && turn_ready s P2 then
      s' ← resolveTurn s;
      Some {| battleManager := s'; scene := renderState s' sc;
              simulationRunning := true; isFastForward := isFastForward h |}
    else
      Some {| battleManager := s; scene := sc;
              simulationRunning := true; isFastForward := isFastForward h |}.

(** [n] firings of the timer. *)
Fixpoint timer (n : nat) (h : Host) : option Host :=
  match n with
  | O => Some h
  | S n' => h' ← executeLoopStep h; timer n' h'
  end.

(** The Run button, for two sources that [compilePlayer] accepted and
    turned into the assembly texts [p1] and [p2]. *)
Definition btnRun (p1 p2 : string) (h : Host) : option Host :=
  if simulationRunning h && negb (isFastForward h) then Some h
  else
    match loadCode p1 p2 (battleManager h) with
    | (s, LoadFail _) =>
        Some {| battleManager := s; scene := scene h;
                simulationRunning := simulationRunning h;
                isFastForward := isFastForward h |}
    | (s, LoadOk _ _) =>
        executeLoopStep {| battleManager := s; scene := startSimulation (scene h);
                           simulationRunning := true; isFastForward := false |}
    end.

(** The Reset button: the level is set up, the turn state reset and, if
    both sources compile, the programs are loaded again. *)
Definition btnReset (level : Z) (sources : option (string * string)) (h : Host) : Host :=
  let s := resetTurnState (setupArena level (battleManager h)) in
  let s := match sources with
           | Some (p1, p2) => (loadCode p1 p2 s).1
           | None => s
           end in
  {| battleManager := s; scene := startSimulation (renderState s (scene h));
     simulationRunning := false; isFastForward := isFastForward h |}.

(** A tank of the state [new] with the display fields it had in [old],
    among them the [turnOps] field of the tank, which no method writes. *)
Definition with_display (old new : Tank.t CPU Registers) : Tank.t CPU Registers :=
  Tank.mk (Tank.x new) (Tank.y new) (Tank.facing new) (Tank.hp new) (Tank.cpu new)
          (Tank.lastAction old) (Tank.lastFeedback old) (Tank.debugPC old)
          (Tank.debugIR old) (Tank.debugRegisters old) (Tank.turnOps old)
          (Tank.totalOps new).

(** The engine [new] with what a reset does not touch taken from [old]:
    the event counter and the display fields of the tanks. *)
Definition with_leftovers (old new : BattleManager) : BattleManager :=
  {| grid := grid new;
     tanks_P1 := with_display (tanks_P1 old) (tanks_P1 new);
     tanks_P2 := with_display (tanks_P2 old) (tanks_P2 new);
     bullets := bullets new; log := log new; events := events new;
     isGameOver := isGameOver new; winner := winner new;
     pendingActions_P1 := pendingActions_P1 new;
     pendingActions_P2 := pendingActions_P2 new;
     turnOps_P1 := turnOps_P1 new; turnOps_P2 := turnOps_P2 new;
     turnCount := turnCount new; MAX_OPS := MAX_OPS new;
     eventIdCounter := eventIdCounter old |}.

(** What the scene has shown of a log [lg] and an event list [es] since
    it was in state [sc0]. *)
Definition shown (sc0 sc : Scene) (lg : list string) (es : list Event) : Prop :=
  lastLogIndex sc = length lg
  ∧ statusLog sc = take 20 (reverse ((λ msg, "> " +:+ msg) <$> lg) ++ statusLog sc0)
  ∧ processedEvents sc = list_to_set (event_id <$> es)
  ∧ triggered sc = triggered sc0 ++ es.

(** The scene is up to date with the engine. *)
Definition up_to_date (sc0 : Scene) (h : Host) : Prop :=
  let s := battleManager h in
  shown sc0 (scene h) (log s) (events s)
  ∧ bulletSprites (scene h) = list_to_set (Bullet.id <$> bullets s)
  ∧ uiGameOver (scene h) = if isGameOver s then banner (winner s) else "".

End View.

(** ** A concrete arena and a small stand-in machine

    Used only to run the generic definitions on concrete inputs.  The
    numbers are the literals of the earlier revision of the class (the file
    with the constants inlined: a 16 x 10 grid, 3 HP, bullets moving 2 cells
    per turn for at most 40 cells, P1 at (0,4) facing east, P2 at (15,5)
    facing west); [MAX_TURNS] is not visible there and is taken as 100. *)

Definition arena_constants : Constants :=
  {| GRID_WIDTH := 16; GRID_HEIGHT := 10; INITIAL_HP := 3;
     MAX_OPS_PER_TURN := 50; BULLET_MAX_RANGE := 40; BULLET_SPEED := 2;
     MAX_TURNS := 100;
     START_POSITIONS := λ t,
       match t with
       | P1 => {| sp_x := 0; sp_y := 4; sp_facing := 0 |}
       | P2 => {| sp_x := 15; sp_y := 5; sp_facing := 2 |}
       end |}.

(** A machine whose instructions are the results they produce.  It records
    the last sensor values it was given, so that what [stepCPU] passes to
    [updateTankState] can be read back. *)
Record ToyCpu := {
  toy_program : list Result;
  toy_pc : nat;
  toy_sensors : option (Z * Z * Z * Z * Z);
  toy_registers : list (string * Z)
}.

Definition toy_update (x y facing hp ammoAvailable : Z) (c : ToyCpu) : ToyCpu :=
  {| toy_program := toy_program c; toy_pc := toy_pc c;
     toy_sensors := Some (x, y, facing, hp, ammoAvailable);
     toy_registers := toy_registers c |}.

Definition toy_step (c : ToyCpu) : option Result * ToyCpu :=
  match toy_program c !! toy_pc c with
  | Some r =>
      (Some r, {| toy_program := toy_program c; toy_pc := S (toy_pc c);
                  toy_sensors := toy_sensors c; toy_registers := toy_registers c |})
  | None => (Some HALT, c)
  end.

Definition toy_setRegister (name : string) (v : Z) (c : ToyCpu) : ToyCpu :=
  {| toy_program := toy_program c; toy_pc := toy_pc c;
     toy_sensors := toy_sensors c; toy_registers := (name, v) :: toy_registers c |}.

Definition is_space (c : Ascii.ascii) : bool :=
  bool_decide (c = Ascii.ascii_of_nat 32) || bool_decide (c = Ascii.ascii_of_nat 10).

Fixpoint toy_words (s cur : string) : list string :=
  match s with
  | EmptyString => if bool_decide (cur = "") then [] else [cur]
  | String c r =>
      if is_space c
      then (if bool_decide (cur = "") then toy_words r "" else cur :: toy_words r "")
      else toy_words r (cur +:+ String c "")
  end.

Definition toy_opcode (w : string) : option Result :=
  if bool_decide (w = "FIRE") then Some FIRE
  else if bool_decide (w = "HALT") then Some HALT
  else if bool_decide (w = "WAIT") then Some (WAIT "WAITING")
  else if bool_decide (w = "MOVE") then Some (MOVE "FORWARD")
  else if bool_decide (w = "BACK") then Some (MOVE "BACKWARD")
  else if bool_decide (w = "LEFT") then Some (ROTATE "LEFT")
  else if bool_decide (w = "RIGHT") then Some (ROTATE "RIGHT")
  else if bool_decide (w = "NOP") then Some (CPU_OP "NOP")
  else None.

Fixpoint toy_parse (ws : list string) : ParseResult (list Result) unit :=
  match ws with
  | [] => {| pr_program := []; pr_labels := tt; pr_error := None |}
  | w :: r =>
      match toy_opcode w with
      | None => {| pr_program := []; pr_labels := tt;
                   pr_error := Some ("Unknown opcode " +:+ w) |}
      | Some i =>
          let p := toy_parse r in
          {| pr_program := i :: pr_program p; pr_labels := tt; pr_error := pr_error p |}
      end
  end.

Definition toy_vm : Vm :=
  {| Tokens := list string;
     Program := list Result;
     Labels := unit;
     Registers := nat;
     CPU := ToyCpu;
     tokenize := λ src, Normal (toy_words src "");
     parse := λ ws, Normal (toy_parse ws);
     new_CPU := λ p _, {| toy_program := p; toy_pc := 0; toy_sensors := None;
                          toy_registers := [] |};
     updateTankState := toy_update;
     step := toy_step;
     setRegister := toy_setRegister;
     registers := toy_pc;
     PC := λ pc, pc;
     program := λ c, (λ r, {| opcode := result_type r; args := [] |}) <$> toy_program c |}.

(** A ray that walks until it leaves the grid (type 0), meets a wall
    (type 1) or a tracked occupant (type 2). *)
Fixpoint toy_ray (fuel : nat) (g : Grid) (x y dx dy : Z) (k : Z)
    (occupants : gmap (Z * Z) TankId) : RayResult :=
  match fuel with
  | O => {| distance := k; type := 0 |}
  | S fuel' =>
      let x := x + dx in
      let y := y + dy in
      if negb (inBounds g x y) then {| distance := k + 1; type := 0 |}
      else if isWall g x y then {| distance := k + 1; type := 1 |}
      else if bool_decide (is_Some (occupants !! (x, y))) then {| distance := k + 1; type := 2 |}
      else toy_ray fuel' g x y dx dy (k + 1) occupants
  end.

Definition toy_raycast : Raycast :=
  {| raycast := λ g x y dx dy _ _ occ,
       toy_ray (Z.to_nat (width g + height g)) g x y dx dy 0 occ |}.

(** ** Example games

    Played with the toy machine in the 16 x 10 arena, through the host
    loop. *)

Section ArenaExamples.
#[local] Existing Instance arena_constants.
#[local] Existing Instance toy_vm.
#[local] Existing Instance toy_raycast.

(** [n] copies of the word [w] *)
Fixpoint words (n : nat) (w : string) : string :=
  match n with
  | O => ""
  | S n' => w +:+ " " +:+ words n' w
  end.

(** P2 walks round to the cell in front of P1 (14 cells west, one north),
    turns west again and moves onto P1's cell in round 18. *)
Definition p2_approach : string :=
  words 14 "MOVE" +:+ "RIGHT MOVE LEFT MOVE".

(** Round 18 of this game: P1 backs into the west edge while P2 moves onto
    P1's cell. *)
Definition edge_game : BattleManager :=
  after_rounds 17 (game (words 17 "WAIT" +:+ "BACK") p2_approach).

Definition edge_intents : Intents :=
  {| intent_P1 := Some {| targetX := -1; targetY := 4 |};
     intent_P2 := Some {| targetX := 0; targetY := 4 |} |}.

(** P1 waits for P2 to arrive in front of it, destroys it with three
    direct hits (rounds 17 to 19) and is about to fire once more. *)
Definition wreck_game : BattleManager :=
  after_rounds 19 (game (words 16 "WAIT" +:+ words 4 "FIRE") p2_approach).

(** Both programs wait for 100 rounds and then run off their end. *)
Definition long_game : BattleManager :=
  after_rounds 100 (game (words 100 "WAIT") (words 100 "WAIT")).

(** P1 has fired in round 1; its bullet is in flight. *)
Definition shot_game : BattleManager :=
  after_rounds 1 (game "FIRE WAIT WAIT" "WAIT WAIT WAIT").

(** The engine of [shot_game] with its one bullet as an object at
    reference 0. *)
Definition shot_engine : Engine :=
  {| objects := {| bullet_objects := list_to_map (imap (λ i b, (i, b)) (bullets shot_game));
                   event_objects := ∅ |};
     this_bullets := seq 0 (length (bullets shot_game));
     this_events := [];
     this_fields := shot_game |}.

(** The bullet of [shot_game], as P1 spawned it. *)
Definition shot_bullet : Bullet.t := Bullet.mk 0 1 4 1 0 P1 0.

(** Round 17 of the game of [wreck_game]: P2 stands in front of P1, both
    at full HP. *)
Definition duel_game : BattleManager :=
  after_rounds 16 (game (words 16 "WAIT" +:+ words 4 "FIRE") p2_approach).

(** [b.x = 99] *)
Definition set_x_99 (b : Bullet.t) : Bullet.t :=
  Bullet.mk (Bullet.id b) 99 (Bullet.y b) (Bullet.dx b) (Bullet.dy b)
            (Bullet.owner b) (Bullet.dist b).

(** P1 waits for P2 to arrive in front of it and to turn towards it
    (round 17); in round 18 both fire. *)
Definition standoff_game : BattleManager :=
  after_rounds 17 (game (words 17 "WAIT" +:+ "FIRE")
                        (words 14 "MOVE" +:+ "RIGHT MOVE LEFT FIRE")).

(** Both micro-steps of round 18 of the stand-off taken, the turn not yet
    resolved. *)
Definition standoff_ready : BattleManager :=
  (stepCPU P2 (stepCPU P1 standoff_game).1).1.

(** Round 1 of a game in which P1 turns left and P2 moves, with both
    micro-steps taken. *)
Definition opening_ready : BattleManager :=
  (stepCPU P2 (stepCPU P1 (game "LEFT" "MOVE")).1).1.

(** The page as loaded: a new engine, an empty scene, nothing running. *)
Definition page : Host :=
  {| battleManager := constructor;
     scene := {| bulletSprites := ∅; processedEvents := ∅; lastLogIndex := 0;
                 uiGameOver := ""; triggered := []; statusLog := [] |};
     simulationRunning := false; isFastForward := false |}.

(** Run pressed on the page with two programs that fire into the walls,
    and the timer fired [n] times. *)
Definition run_of (n : nat) : option Host :=
  h ← btnRun "LEFT FIRE WAIT WAIT" "LEFT FIRE WAIT WAIT" page; timer n h.

(** A first turn about to be resolved with a PING pending for P1 and a
    SCAN for P2. *)
Definition sensing_ready : BattleManager :=
  set_pending P1 (Some (PING "R0" "R1"))
    (set_pending P2 (Some (SCAN "R2" "R3")) (game "WAIT" "WAIT")).

(** A fast-forward run in progress on the page, one round into the game
    of [shot_game]. *)
Definition fast_page : Host :=
  {| battleManager := shot_game; scene := scene page;
     simulationRunning := true; isFastForward := true |}.

(** The page after the wreck game was played on it. *)
Definition played_page : Host :=
  {| battleManager := wreck_game; scene := scene page;
     simulationRunning := false; isFastForward := false |}.



End ArenaExamples.

(** * Properties *)

Section Properties.
Context {consts : Constants} {vm : Vm} {ray : Raycast}.

Implicit Type s : BattleManager.

(** ** Frame facts *)

Lemma quiet_logTick P (HP : quiet P) t msg s : P s → P (_logTick t msg s).
Proof. apply (quiet_log P HP). Qed.

Lemma quiet_addEvent P (HP : quiet P) mk s : P s → P (addEvent mk s).
Proof. apply (quiet_events P HP). Qed.

Lemma quiet_next_id P (HP : quiet P) s : P s → P (next_id s).
Proof. apply (quiet_events P HP). Qed.

Ltac quiet_tac HP :=
  repeat first
    [ assumption
    | apply (quiet_tank _ HP); [by constructor|]
    | apply (quiet_log _ HP)
    | apply (quiet_events _ HP)
    | progress (unfold _logTick, log_push, addEvent, next_id, reject; cbn [fst]) ].

Lemma quiet_hit_check P (HP : quiet P) b acc tid :
  P acc.1 → P (hit_check b acc tid).1.
Proof.
  destruct acc as [s a]. unfold hit_check. cbn [fst]. intros Hs.
  destruct (decide _); [done|].
  destruct (alive_at _ _ _); cbn [fst]; quiet_tac HP.
Qed.

Lemma quiet_bullet_substep P (HP : quiet P) s b :
  P s → P (bullet_substep s b).1.1.
Proof.
  intros Hs. unfold bullet_substep.
  destruct (_ <? _); [done|].
  destruct (negb _); cbn [fst]; [quiet_tac HP|].
  cbn [foldl].
  destruct (hit_check _ (hit_check _ _ _) _) as [s2 a2] eqn:E2.
  cbn [fst]. change s2 with (s2, a2).1. rewrite <- E2.
  by do 2 apply (quiet_hit_check P HP).
Qed.

Lemma quiet_bullet_loop P (HP : quiet P) n s b a :
  P s → P (bullet_loop n s b a).1.1.
Proof.
  revert s b a. induction n as [|n IH]; intros s b a Hs; [done|].
  cbn [bullet_loop]. destruct a; [|done].
  destruct (bullet_substep s b) as [[s1 b1] a1] eqn:E.
  apply IH. change s1 with (s1, b1, a1).1.1. rewrite <- E.
  by apply (quiet_bullet_substep P HP).
Qed.

Lemma quiet_bullet_fold P (HP : quiet P) l s acc :
  P s → P (foldl bullet_turn (s, acc) l).1.
Proof.
  revert s acc. induction l as [|b l IH]; intros s acc Hs; [done|].
  cbn [foldl]. unfold bullet_turn at 2.
  destruct (bullet_loop _ s b true) as [[s1 b1] a1] eqn:E.
  apply IH. change s1 with (s1, b1, a1).1.1. rewrite <- E.
  by apply (quiet_bullet_loop P HP).
Qed.

Lemma quiet_updateBullets P (HP : quiet P) (HB : bullet_blind P) s :
  P s → P (updateBullets s).
Proof.
  intros Hs. unfold updateBullets.
  destruct (foldl _ _ _) as [s1 surv] eqn:E.
  apply HB. change s1 with (s1, surv).1. rewrite <- E.
  by apply (quiet_bullet_fold P HP).
Qed.

Lemma quiet_resolveScan P (HP : quiet P) t d ty s s' :
  resolveScan t d ty s = Some s' → P s → P s'.
Proof.
  unfold resolveScan. intros E Hs.
  destruct (DIRS _) as [dir|]; [|done]. cbn [mbind option_bind] in E.
  destruct (Tank.cpu _) as [c|]; [|done]. cbn [mbind option_bind] in E.
  injection E as <-. quiet_tac HP.
Qed.

Lemma quiet_resolvePing P (HP : quiet P) t dx dy s s' :
  resolvePing t dx dy s = Some s' → P s → P s'.
Proof.
  unfold resolvePing. intros E Hs.
  destruct (Tank.cpu _) as [c|]; [|done]. cbn [mbind option_bind] in E.
  destruct (_ <? _); injection E as <-; quiet_tac HP.
Qed.

Lemma quiet_fire P (HP : quiet P) (HB : bullet_blind P) t s s' :
  fire t s = Some s' → P s → P s'.
Proof.
  unfold fire. intros E Hs.
  destruct (hasActiveBullet _ _).
  { injection E as <-. quiet_tac HP. }
  destruct (DIRS _) as [dir|]; [|done]. cbn [mbind option_bind] in E.
  destruct (negb _).
  { injection E as <-. quiet_tac HP. }
  destruct (alive_at _ _ _); injection E as <-; quiet_tac HP.
  apply HB. quiet_tac HP.
Qed.

Lemma quiet_resolveAction P (HP : quiet P) (HB : bullet_blind P) t a acc acc' :
  resolveAction t a acc = Some acc' → P acc.1 → P acc'.1.
Proof.
  destruct acc as [s its]. unfold resolveAction. intros E Hs. cbn [fst] in Hs.
  destruct a as [[]|]; try (injection E as <-; cbn [fst]; quiet_tac HP; fail).
  - destruct (DIRS _); [|done]. cbn [mbind option_bind] in E. by injection E as <-.
  - destruct (fire t s) as [s1|] eqn:F; [|done]. cbn [mbind option_bind] in E. injection E as <-.
    cbn [fst]. by apply (quiet_fire P HP HB t s).
Qed.

Lemma quiet_reject P (HP : quiet P) t fb acc : P acc.1 → P (reject t fb acc).1.
Proof. intros Hs. unfold reject. cbn [fst]. quiet_tac HP. Qed.


Lemma quiet_movement_filters P (HP : quiet P) its s :
  P s → P (movement_filters its s).1.
Proof.
  intros Hs. unfold movement_filters.
  assert (Hw : ∀ t acc, P acc.1 → P (wall_filter t acc).1).
  { intros t acc Ha. unfold wall_filter.
    destruct (intent_of _ _); [|done]. destruct (negb _); quiet_tac HP. }
  assert (Hh : ∀ acc, P acc.1 → P (head_on_filter acc).1).
  { intros acc Ha. unfold head_on_filter.
    destruct (intent_P1 _); [|done]. destruct (intent_P2 _); [|done].
    destruct (_ && _); quiet_tac HP. }
  assert (Hst : ∀ acc, P acc.1 → P (same_target_filter acc).1).
  { intros acc Ha. unfold same_target_filter.
    destruct (intent_P1 _); [|done]. destruct (intent_P2 _); [|done].
    destruct (_ && _); quiet_tac HP. }
  assert (Hb : ∀ t acc, P acc.1 → P (blocked_filter t acc).1).
  { intros t acc Ha. unfold blocked_filter.
    destruct (intent_of _ _); [|done]. destruct (targets _ _); quiet_tac HP. }
  auto 10.
Qed.

Lemma quiet_apply_move P (HP : quiet P) t mv its s s' :
  apply_move t mv its s = Some s' → P s → P s'.
Proof.
  unfold apply_move. intros E Hs.
  destruct mv; [|by injection E as <-].
  destruct (intent_of _ _).
  - injection E as <-. quiet_tac HP.
  - destruct (Tank.lastFeedback _); [|done]. cbn [mbind option_bind] in E. injection E as <-.
    quiet_tac HP.
Qed.

Lemma quiet_applyMovements P (HP : quiet P) its s s' :
  applyMovements its s = Some s' → P s → P s'.
Proof.
  unfold applyMovements. intros E Hs.
  destruct (apply_move P1 _ _ _) as [s1|] eqn:E1; [|done]. cbn [mbind option_bind] in E.
  destruct (apply_move P2 _ _ _) as [s2|] eqn:E2; [|done]. cbn [mbind option_bind] in E.
  assert (s' = clamp P2 (clamp P1 s2)) as -> by congruence.
  unfold clamp. do 2 (apply (quiet_tank P HP); [by constructor|]).
  eapply (quiet_apply_move P HP); [done|].
  eapply (quiet_apply_move P HP); [done|].
  by apply (quiet_movement_filters P HP).
Qed.

Lemma quiet_resolve_world P (HP : quiet P) (HB : bullet_blind P) s s' :
  resolve_world s = Some s' → P s → P s'.
Proof.
  unfold resolve_world. intros E Hs.
  assert (Hscan : ∀ t a s1 s2, resolve_sensor_scan t a s1 = Some s2 → P s1 → P s2).
  { intros t [[]|] s1 s2 E'; cbn in E'; try (by injection E' as <-).
    by apply (quiet_resolveScan P HP _ _ _ _ _ E'). }
  assert (Hping : ∀ t a s1 s2, resolve_sensor_ping t a s1 = Some s2 → P s1 → P s2).
  { intros t [[]|] s1 s2 E'; cbn in E'; try (by injection E' as <-).
    by apply (quiet_resolvePing P HP _ _ _ _ _ E'). }
  destruct (resolve_sensor_scan P1 _ _) as [s1|] eqn:E1; [|done]. cbn [mbind option_bind] in E.
  destruct (resolve_sensor_scan P2 _ _) as [s2|] eqn:E2; [|done]. cbn [mbind option_bind] in E.
  destruct (resolve_sensor_ping P1 _ _) as [s3|] eqn:E3; [|done]. cbn [mbind option_bind] in E.
  destruct (resolve_sensor_ping P2 _ _) as [s4|] eqn:E4; [|done]. cbn [mbind option_bind] in E.
  destruct (resolveAction P1 _ _) as [a5|] eqn:E5; [|done]. cbn [mbind option_bind] in E.
  destruct (resolveAction P2 _ _) as [a6|] eqn:E6; [|done]. cbn [mbind option_bind] in E.
  apply (quiet_applyMovements P HP _ _ _ E).
  apply (quiet_resolveAction P HP HB _ _ _ _ E6).
  apply (quiet_resolveAction P HP HB _ _ _ _ E5). cbn [fst].
  apply (Hping _ _ _ _ E4), (Hping _ _ _ _ E3), (Hscan _ _ _ _ E2), (Hscan _ _ _ _ E1).
  by apply (quiet_updateBullets P HP HB).
Qed.

Lemma control_quiet (c : Grid * bool * option string * option Result * option Result
                         * Z * Z * Z * Z) :
  quiet (λ s, control s = c) ∧ bullet_blind (λ s, control s = c).
Proof.
  split; [split|].
  - by intros [] f s _.
  - done.
  - done.
  - by intros bs s.
Qed.

Lemma resolve_world_control s s' :
  resolve_world s = Some s' → control s' = control s.
Proof.
  intros E. destruct (control_quiet (control s)) as [HP HB].
  by apply (quiet_resolve_world _ HP HB s s' E).
Qed.

(** The decomposition of a turn: the world is resolved, then the game-over
    checks run on the result, then the pending actions are cleared. *)
Lemma resolveTurn_inv s s' :
  resolveTurn s = Some s' →
  ∃ w, resolve_world (begin_turn s) = Some w
       ∧ s' = set_pendingActions None None (game_over_checks w)
       ∧ control w = control (begin_turn s).
Proof.
  unfold resolveTurn. intros E.
  destruct (resolve_world _) as [w|] eqn:Ew; [|done].
  cbn [mbind option_bind] in E. exists w. split; [done|]. split; [congruence|].
  by apply resolve_world_control.
Qed.

(** ** setupArena *)

Lemma setupArena_walls level s :
  walls (grid (setupArena level s)) = arena_layout level.
Proof.
  unfold setupArena, arena_layout. cbn [grid set_grid].
  destruct (level =? 2); [|destruct (level =? 3)];
    cbn [walls addWall clearWalls foldl obstacles fst snd].
  - set_solver.
  - set_solver.
  - done.
Qed.

Lemma setupArena_dims level s :
  width (grid (setupArena level s)) = width (grid s)
  ∧ height (grid (setupArena level s)) = height (grid s).
Proof.
  unfold setupArena. cbn [grid set_grid].
  by destruct (level =? 2); [|destruct (level =? 3)].
Qed.

(** C10. [setupArena(level)] replaces the wall set by the fixed layout of
    the level (empty unless the level is 2 or 3) and changes nothing else:
    grid dimensions, both tanks (position, facing, HP, CPU and the rest),
    bullets, events, log, pending actions, op counters, turn count, event
    counter and game-over status are those of the state before the call. *)
Theorem setupArena_only_walls (level : Z) s :
  walls (grid (setupArena level s)) = arena_layout level
  ∧ width (grid (setupArena level s)) = width (grid s)
  ∧ height (grid (setupArena level s)) = height (grid s)
  ∧ tanks_P1 (setupArena level s) = tanks_P1 s
  ∧ tanks_P2 (setupArena level s) = tanks_P2 s
  ∧ bullets (setupArena level s) = bullets s
  ∧ events (setupArena level s) = events s
  ∧ log (setupArena level s) = log s
  ∧ pendingActions_P1 (setupArena level s) = pendingActions_P1 s
  ∧ pendingActions_P2 (setupArena level s) = pendingActions_P2 s
  ∧ turnOps_P1 (setupArena level s) = turnOps_P1 s
  ∧ turnOps_P2 (setupArena level s) = turnOps_P2 s
  ∧ turnCount (setupArena level s) = turnCount s
  ∧ MAX_OPS (setupArena level s) = MAX_OPS s
  ∧ eventIdCounter (setupArena level s) = eventIdCounter s
  ∧ isGameOver (setupArena level s) = isGameOver s
  ∧ winner (setupArena level s) = winner s.
Proof.
  split; [apply setupArena_walls|].
  split; [apply setupArena_dims|]. split; [apply setupArena_dims|].
  by repeat split.
Qed.

(** ** Game-over status and winner *)

Lemma destroyed_check_consistent s :
  outcome_consistent s → outcome_consistent (destroyed_check s).
Proof.
  unfold destroyed_check, outcome_consistent.
  destruct (_ && _); [done|].
  destruct (_ <=? _); [done|].
  destruct (_ <=? _); done.
Qed.

Lemma stalemate_check_consistent s :
  outcome_consistent s → outcome_consistent (stalemate_check s).
Proof.
  unfold stalemate_check, outcome_consistent.
  destruct (_ && _); done.
Qed.

Lemma turn_limit_check_consistent s :
  outcome_consistent s → outcome_consistent (turn_limit_check s).
Proof.
  unfold turn_limit_check, outcome_consistent.
  destruct (_ && _); done.
Qed.

Lemma outcome_of_control s s' :
  control s' = control s → isGameOver s' = isGameOver s ∧ winner s' = winner s.
Proof. unfold control. intros E. by simplify_eq. Qed.

Lemma stepCPU_outcome t s :
  isGameOver (stepCPU t s).1 = isGameOver s ∧ winner (stepCPU t s).1 = winner s.
Proof.
  unfold stepCPU. destruct (Tank.cpu _) as [c|]; [|done].
  destruct (_ <=? _); [done|].
  destruct (step _) as [[r|] c']; [destruct r|]; by destruct t.
Qed.

Lemma loadCode_outcome a b s :
  outcome_consistent s → outcome_consistent (loadCode a b s).1.
Proof.
  unfold loadCode, outcome_consistent.
  destruct (compile "P1" a) as [p1|m]; [|done].
  destruct (compile "P2" b) as [p2|m]; done.
Qed.

Lemma resolveTurn_outcome s s' :
  outcome_consistent s → resolveTurn s = Some s' → outcome_consistent s'.
Proof.
  intros Hs E. destruct (resolveTurn_inv s s' E) as (w & _ & -> & Hc).
  apply outcome_of_control in Hc as [Hg Hw].
  assert (outcome_consistent w) as Hcons by (unfold outcome_consistent; by rewrite Hg, Hw).
  apply destroyed_check_consistent, stalemate_check_consistent,
    turn_limit_check_consistent in Hcons.
  exact Hcons.
Qed.

(** C9. The winner field is non-null exactly when [isGameOver] is true:
    this holds after the constructor, is kept by [setupArena], [loadCode],
    [resetTurnState], [stepCPU] and [resolveTurn], and so holds in every
    state the public methods can reach. *)
Theorem winner_iff_isGameOver :
  outcome_consistent constructor
  ∧ (∀ level s, outcome_consistent s → outcome_consistent (setupArena level s))
  ∧ (∀ a b s, outcome_consistent s → outcome_consistent (loadCode a b s).1)
  ∧ (∀ s, outcome_consistent (resetTurnState s))
  ∧ (∀ t s, outcome_consistent s → outcome_consistent (stepCPU t s).1)
  ∧ (∀ s s', outcome_consistent s → resolveTurn s = Some s' → outcome_consistent s')
  ∧ (∀ s, reachable s → winner s ≠ None ↔ isGameOver s = true).
Proof.
  assert (Hstep : ∀ t s, outcome_consistent s → outcome_consistent (stepCPU t s).1).
  { intros t s Hs. unfold outcome_consistent.
    destruct (stepCPU_outcome t s) as [-> ->]. exact Hs. }
  assert (Hreach : ∀ s, reachable s → outcome_consistent s).
  { induction 1 as [|level s _ IH|a b s _ IH|s _ IH|t s _ IH|s s' _ IH E].
    - done.
    - exact IH.
    - by apply loadCode_outcome.
    - done.
    - by apply Hstep.
    - by apply (resolveTurn_outcome s s'). }
  split; [done|]. split; [by intros level s Hs|].
  split; [apply loadCode_outcome|]. split; [done|].
  split; [exact Hstep|]. split; [apply resolveTurn_outcome|].
  exact Hreach.
Qed.

(** ** Bullets per owner *)

Lemma owner_count_app t l1 l2 :
  owner_count t (l1 ++ l2) = (owner_count t l1 + owner_count t l2)%nat.
Proof. unfold owner_count. by rewrite filter_app, length_app. Qed.

Lemma owner_count_single t b :
  owner_count t [b] = if decide (Bullet.owner b = t) then 1%nat else 0%nat.
Proof.
  unfold owner_count. rewrite filter_cons, filter_nil.
  by destruct (decide _).
Qed.

Lemma hasActiveBullet_false s t :
  hasActiveBullet s t = false ↔ owner_count t (bullets s) = 0%nat.
Proof.
  unfold hasActiveBullet, owner_count.
  induction (bullets s) as [|b l IH]; [done|].
  cbn [existsb]. rewrite filter_cons.
  destruct (decide (Bullet.owner b = t)) as [Hb|Hb].
  - rewrite bool_decide_true by done. by cbn.
  - rewrite bool_decide_false by done. by cbn.
Qed.

Lemma bullet_substep_owner s b :
  Bullet.owner (bullet_substep s b).1.2 = Bullet.owner b.
Proof.
  unfold bullet_substep.
  destruct (_ <? _); [done|]. destruct (negb _); [done|].
  by destruct (foldl _ _ _).
Qed.

Lemma bullet_loop_owner n s b a :
  Bullet.owner (bullet_loop n s b a).1.2 = Bullet.owner b.
Proof.
  revert s b a. induction n as [|n IH]; intros s b a; [done|].
  cbn [bullet_loop]. destruct a; [|done].
  destruct (bullet_substep s b) as [[s1 b1] a1] eqn:E.
  rewrite IH. change b1 with (s1, b1, a1).1.2. rewrite <- E.
  apply bullet_substep_owner.
Qed.

Lemma bullet_fold_count t l s acc :
  (owner_count t (foldl bullet_turn (s, acc) l).2
   ≤ owner_count t acc + owner_count t l)%nat.
Proof.
  revert s acc. induction l as [|b l IH]; intros s acc.
  { cbn [foldl snd]. unfold owner_count at 3. rewrite filter_nil. cbn [length]. lia. }
  cbn [foldl]. unfold bullet_turn at 2.
  pose proof (bullet_loop_owner (Z.to_nat BULLET_SPEED) s b true) as Ho.
  destruct (bullet_loop _ s b true) as [[s1 b1] a1]. cbn [fst snd] in Ho.
  etrans; [apply IH|].
  change (b :: l) with ([b] ++ l). rewrite (owner_count_app t [b] l).
  destruct a1; [|lia].
  rewrite owner_count_app, !owner_count_single, Ho. lia.
Qed.

Lemma updateBullets_count t s :
  (owner_count t (bullets (updateBullets s)) ≤ owner_count t (bullets s))%nat.
Proof.
  unfold updateBullets.
  pose proof (bullet_fold_count t (bullets s) s []) as Hc.
  destruct (foldl _ _ _) as [s1 surv]. cbn [snd] in Hc. exact Hc.
Qed.

Lemma bullets_quiet (bs : list Bullet.t) : quiet (λ s, bullets s = bs).
Proof. split; [by intros [] f s _|done..]. Qed.

Lemma fire_bullets t s s' :
  fire t s = Some s' →
  bullets s' = bullets s
  ∨ hasActiveBullet s t = false
    ∧ ∃ b, Bullet.owner b = t ∧ bullets s' = bullets s ++ [b].
Proof.
  unfold fire. intros E.
  destruct (hasActiveBullet s t) eqn:Hact.
  { left. injection E as <-. by destruct t. }
  destruct (DIRS _) as [dir|]; [|done]. cbn [mbind option_bind] in E.
  destruct (negb _).
  { left. injection E as <-. by destruct t. }
  destruct (alive_at _ _ _).
  { left. injection E as <-. by destruct t. }
  right. split; [done|]. injection E as <-.
  refine (ex_intro _ _ (conj _ eq_refl)). reflexivity.
Qed.

Lemma fire_one_bullet_each t s s' :
  fire t s = Some s' → one_bullet_each s → one_bullet_each s'.
Proof.
  intros E Hs u. destruct (fire_bullets t s s' E) as [->|(Hno & b & Hb & ->)]; [done|].
  rewrite owner_count_app, owner_count_single. specialize (Hs u).
  destruct (decide _) as [Hu|]; [|lia].
  apply hasActiveBullet_false in Hno. rewrite Hb in Hu. subst u. lia.
Qed.

Lemma resolveAction_one_bullet_each t a acc acc' :
  resolveAction t a acc = Some acc' → one_bullet_each acc.1 → one_bullet_each acc'.1.
Proof.
  destruct acc as [s its]. unfold resolveAction. cbn [fst]. intros E Hs.
  destruct a as [[]|]; try (by injection E as <-).
  - destruct (DIRS _); [|done]. cbn [mbind option_bind] in E. by injection E as <-.
  - injection E as <-. cbn [fst]. intros u. specialize (Hs u). by destruct t.
  - destruct (fire t s) as [s1|] eqn:F; [|done]. cbn [mbind option_bind] in E.
    injection E as <-. by apply (fire_one_bullet_each t s).
Qed.

Lemma resolve_world_one_bullet_each s s' :
  resolve_world s = Some s' → one_bullet_each s → one_bullet_each s'.
Proof.
  unfold resolve_world. intros E Hs.
  assert (Hq : ∀ P, quiet P → ∀ t a s1 s2,
               (resolve_sensor_scan t a s1 = Some s2 ∨ resolve_sensor_ping t a s1 = Some s2)
               → P s1 → P s2).
  { intros P HP t [[]|] s1 s2 [E'|E']; cbn in E'; try (by injection E' as <-).
    - by apply (quiet_resolveScan P HP _ _ _ _ _ E').
    - by apply (quiet_resolvePing P HP _ _ _ _ _ E'). }
  assert (Hk : ∀ s1 s2, bullets s2 = bullets s1 → one_bullet_each s1 → one_bullet_each s2).
  { intros s1 s2 Hb H1 u. rewrite Hb. apply H1. }
  destruct (resolve_sensor_scan P1 _ _) as [s1|] eqn:E1; [|done]. cbn [mbind option_bind] in E.
  destruct (resolve_sensor_scan P2 _ _) as [s2|] eqn:E2; [|done]. cbn [mbind option_bind] in E.
  destruct (resolve_sensor_ping P1 _ _) as [s3|] eqn:E3; [|done]. cbn [mbind option_bind] in E.
  destruct (resolve_sensor_ping P2 _ _) as [s4|] eqn:E4; [|done]. cbn [mbind option_bind] in E.
  destruct (resolveAction P1 _ _) as [a5|] eqn:E5; [|done]. cbn [mbind option_bind] in E.
  destruct (resolveAction P2 _ _) as [a6|] eqn:E6; [|done]. cbn [mbind option_bind] in E.
  apply (Hk a6.1).
  { by apply (quiet_applyMovements _ (bullets_quiet (bullets a6.1)) _ _ _ E). }
  apply (resolveAction_one_bullet_each _ _ _ _ E6).
  apply (resolveAction_one_bullet_each _ _ _ _ E5). cbn [fst].
  apply (Hk (updateBullets s)).
  { apply (Hq _ (bullets_quiet _) _ _ _ _ (or_intror E4)).
    apply (Hq _ (bullets_quiet _) _ _ _ _ (or_intror E3)).
    apply (Hq _ (bullets_quiet _) _ _ _ _ (or_introl E2)).
    by apply (Hq _ (bullets_quiet _) _ _ _ _ (or_introl E1)). }
  intros u. etrans; [apply updateBullets_count|apply Hs].
Qed.

Lemma game_over_checks_bullets s : bullets (game_over_checks s) = bullets s.
Proof.
  unfold game_over_checks, turn_limit_check, stalemate_check, destroyed_check.
  repeat (destruct (_ : bool); cbn [bullets log_push set_log set_outcome _logTick]);
    reflexivity.
Qed.

Lemma resolveTurn_one_bullet_each s s' :
  resolveTurn s = Some s' → one_bullet_each s → one_bullet_each s'.
Proof.
  unfold resolveTurn. intros E Hs.
  destruct (resolve_world _) as [w|] eqn:Ew; [|done].
  cbn [mbind option_bind] in E. injection E as <-.
  apply (resolve_world_one_bullet_each _ _ Ew) in Hs.
  intros u. cbn [bullets set_pendingActions]. rewrite game_over_checks_bullets. apply Hs.
Qed.

Lemma stepCPU_bullets t s : bullets (stepCPU t s).1 = bullets s.
Proof.
  unfold stepCPU. destruct (Tank.cpu _) as [c|]; [|done].
  destruct (_ <=? _); [done|].
  destruct (step _) as [[r|] c']; [destruct r|]; by destruct t.
Qed.

Lemma loadCode_one_bullet_each a b s :
  one_bullet_each s → one_bullet_each (loadCode a b s).1.
Proof.
  unfold loadCode. intros Hs.
  destruct (compile "P1" a) as [p1|m]; [|done].
  destruct (compile "P2" b) as [p2|m]; cbn [fst].
  - intros u. cbn. lia.
  - exact Hs.
Qed.

(** C5. In every state reachable through the public methods the bullet
    collection holds at most one bullet per owner; and a FIRE resolved for
    a tank that already has a live bullet returns with the collection
    unchanged (and the tank's feedback set to RELOADING). *)
Theorem at_most_one_bullet_per_owner :
  (∀ s, reachable s → ∀ t, (owner_count t (bullets s) ≤ 1)%nat)
  ∧ (∀ s t its, hasActiveBullet s t = true →
       ∃ s', resolveAction t (Some FIRE) (s, its) = Some (s', its)
             ∧ bullets s' = bullets s
             ∧ Tank.lastFeedback (tanks s' t) = Some "RELOADING").
Proof.
  split.
  - induction 1 as [|level s _ IH|a b s _ IH|s _ IH|t s _ IH|s s' _ IH E].
    + intros t. cbn. lia.
    + exact IH.
    + by apply loadCode_one_bullet_each.
    + intros t. cbn. lia.
    + intros u. rewrite stepCPU_bullets. apply IH.
    + by apply (resolveTurn_one_bullet_each s s').
  - intros s t its Hact. unfold resolveAction, fire. rewrite Hact.
    cbn [mbind option_bind]. eexists. split; [done|]. by destruct t.
Qed.

(** ** Movement conflict resolution *)

Lemma clamp_valid g x y :
  isValid g x y = true → clamp_to (width g) x = x ∧ clamp_to (height g) y = y.
Proof.
  unfold isValid, inBounds, clamp_to. intros Hv.
  apply andb_true_iff in Hv as [Hv _].
  repeat (apply andb_true_iff in Hv as [Hv ?]). lia.
Qed.

Lemma wall_filter_pair t s its :
  wall_filter t (s, its) =
  match intent_of its t with
  | Some m =>
      if isValid (grid s) (targetX m) (targetY m) then (s, its)
      else (upd_tank t (Tank.set_lastFeedback (Some "WALL")) s, set_intent t None its)
  | None => (s, its)
  end.
Proof.
  unfold wall_filter, reject. cbn [fst snd].
  destruct (intent_of its t); [|done]. by destruct (isValid _ _ _).
Qed.

Lemma head_on_filter_pair s its :
  head_on_filter (s, its) =
  match intent_P1 its, intent_P2 its with
  | Some m1, Some m2 =>
      if targets m1 (tanks_P2 s) && targets m2 (tanks_P1 s)
      then (upd_tank P2 (Tank.set_lastFeedback (Some "COLLISION"))
              (upd_tank P1 (Tank.set_lastFeedback (Some "COLLISION")) s),
            no_intents)
      else (s, its)
  | _, _ => (s, its)
  end.
Proof.
  unfold head_on_filter, reject. cbn [fst snd tanks].
  destruct (intent_P1 its); [|done]. destruct (intent_P2 its); [|done].
  by destruct (_ && _).
Qed.

Lemma same_target_filter_pair s its :
  same_target_filter (s, its) =
  match intent_P1 its, intent_P2 its with
  | Some m1, Some m2 =>
      if (targetX m1 =? targetX m2) && (targetY m1 =? targetY m2)
      then (upd_tank P2 (Tank.set_lastFeedback (Some "COLLISION"))
              (upd_tank P1 (Tank.set_lastFeedback (Some "COLLISION")) s),
            no_intents)
      else (s, its)
  | _, _ => (s, its)
  end.
Proof.
  unfold same_target_filter, reject. cbn [fst snd tanks].
  destruct (intent_P1 its); [|done]. destruct (intent_P2 its); [|done].
  by destruct (_ && _).
Qed.

Lemma blocked_filter_pair t s its :
  blocked_filter t (s, its) =
  match intent_of its t with
  | Some m =>
      if targets m (tanks s (enemyOf t))
      then (upd_tank t (Tank.set_lastFeedback (Some "BLOCKED")) s, set_intent t None its)
      else (s, its)
  | None => (s, its)
  end.
Proof.
  unfold blocked_filter, reject. cbn [fst snd].
  destruct (intent_of its t); [|done]. by destruct (targets _ _).
Qed.

Lemma targets_feedback m f (tk : Tank.t CPU Registers) :
  targets m (Tank.set_lastFeedback f tk) = targets m tk.
Proof. done. Qed.

Ltac mv_simpl :=
  cbn [intent_of intent_P1 intent_P2 set_intent no_intents enemyOf tanks grid
       upd_tank set_tank set_tanks tanks_P1 tanks_P2 negb andb orb fst snd];
  rewrite ?targets_feedback.

Ltac mv_step :=
  first [ rewrite wall_filter_pair | rewrite head_on_filter_pair
        | rewrite same_target_filter_pair | rewrite blocked_filter_pair ];
  mv_simpl.


Ltac mv_finish :=
  unfold apply_move; mv_simpl;
  cbn [Tank.lastFeedback Tank.set_lastFeedback mbind option_bind];
  eexists; split; [reflexivity|];
  split; [|by repeat split];
  intros [|]; (split; [|reflexivity]);
  cbn [fmap option_fmap option_map intent_of intent_P1 intent_P2];
  unfold move_outcome; mv_simpl.

Ltac mv_close :=
  unfold clamp, clamp_tank, position, clamped;
  cbn [negb andb orb moved_as position clamped
       Tank.x Tank.y Tank.lastFeedback Tank.set_lastFeedback Tank.set_pos Tank.set_x Tank.set_y
       clamp clamp_tank upd_tank set_tank set_tanks tanks tanks_P1 tanks_P2 grid
       _logTick log_push set_log].

Lemma applyMovements_outcomes its s :
  ∃ s', applyMovements its s = Some s'
    ∧ (∀ t, moved_as s ((λ m, (m, move_outcome s its t m)) <$> intent_of its t)
              (tanks s t) (tanks s' t)
            ∧ tank_rest (tanks s' t) = tank_rest (tanks s t))
    ∧ bullets s' = bullets s ∧ events s' = events s
    ∧ eventIdCounter s' = eventIdCounter s ∧ control s' = control s.
Proof.
  unfold applyMovements, movement_filters.
  destruct its as [[m1|] [m2|]].
  - assert (Hsym : (targetX m2 =? targetX m1) && (targetY m2 =? targetY m1)
                   = (targetX m1 =? targetX m2) && (targetY m1 =? targetY m2))
      by (by rewrite (Z.eqb_sym (targetX m2)), (Z.eqb_sym (targetY m2))).
    destruct (isValid (grid s) (targetX m1) (targetY m1)) eqn:V1;
    destruct (isValid (grid s) (targetX m2) (targetY m2)) eqn:V2;
    destruct (targets m1 (tanks_P2 s)) eqn:B12;
    destruct (targets m2 (tanks_P1 s)) eqn:B21;
    destruct ((targetX m1 =? targetX m2) && (targetY m1 =? targetY m2)) eqn:S12;
    repeat (mv_step; rewrite ?V1, ?V2, ?B12, ?B21, ?S12; mv_simpl);
    mv_finish; rewrite ?Hsym, ?V1, ?V2, ?B12, ?B21, ?S12; mv_close;
    try (apply clamp_valid in V1 as [-> ->]); try (apply clamp_valid in V2 as [-> ->]);
    done.
  - destruct (isValid (grid s) (targetX m1) (targetY m1)) eqn:V1;
    destruct (targets m1 (tanks_P2 s)) eqn:B12;
    repeat (mv_step; rewrite ?V1, ?B12; mv_simpl);
    mv_finish; rewrite ?V1, ?B12; mv_close;
    try (apply clamp_valid in V1 as [-> ->]);
    done.
  - destruct (isValid (grid s) (targetX m2) (targetY m2)) eqn:V2;
    destruct (targets m2 (tanks_P1 s)) eqn:B21;
    repeat (mv_step; rewrite ?V2, ?B21; mv_simpl);
    mv_finish; rewrite ?V2, ?B21; mv_close;
    try (apply clamp_valid in V2 as [-> ->]);
    done.
  - repeat (mv_step; mv_simpl). mv_finish; mv_close; done.
Qed.

Lemma collision_mutual s m1 m2 :
  let its := {| intent_P1 := Some m1; intent_P2 := Some m2 |} in
  move_outcome s its P1 m1 = Collision ↔ move_outcome s its P2 m2 = Collision.
Proof.
  cbn zeta. unfold move_outcome.
  cbn [intent_of intent_P1 intent_P2 enemyOf tanks].
  rewrite (Z.eqb_sym (targetX m2)), (Z.eqb_sym (targetY m2)).
  rewrite (andb_comm (targets m2 _)).
  destruct (isValid (grid s) (targetX m1) (targetY m1)),
           (isValid (grid s) (targetX m2) (targetY m2)); cbn [negb andb];
    repeat (destruct (_ : bool); cbn [andb orb]); split; congruence.
Qed.

(** C1 (as amended).  [applyMovements] never throws and is an ordered
    filter: each intent gets the outcome of the first rule that applies to
    it, in the order (1) target out of bounds or a wall: feedback WALL;
    (2) both intents passed rule 1 and swap the two cells: COLLISION;
    (3) both passed rule 1 and have the same target: COLLISION;
    (4) the target is the other tank's current cell: BLOCKED; a rejected
    intent leaves its tank where it was, an intent that no rule rejects
    puts its tank on the target cell with its feedback untouched, and all
    positions are clamped to the grid.  A collision is always an outcome
    of both intents.  Nothing but position and feedback of the tanks
    changes (the log apart). *)
Theorem applyMovements_ordered_filter its s :
  ∃ s', applyMovements its s = Some s'
    ∧ (∀ t, moved_as s ((λ m, (m, move_outcome s its t m)) <$> intent_of its t)
              (tanks s t) (tanks s' t)
            ∧ tank_rest (tanks s' t) = tank_rest (tanks s t))
    ∧ (∀ m1 m2, its = {| intent_P1 := Some m1; intent_P2 := Some m2 |} →
         move_outcome s its P1 m1 = Collision ↔ move_outcome s its P2 m2 = Collision)
    ∧ bullets s' = bullets s ∧ events s' = events s
    ∧ eventIdCounter s' = eventIdCounter s ∧ control s' = control s.
Proof.
  destruct (applyMovements_outcomes its s) as (s' & E & Ht & Hrest).
  exists s'. split; [done|]. split; [done|]. split; [|done].
  intros m1 m2 ->. apply collision_mutual.
Qed.

(** ** Bullet advance *)

Lemma hit_checks_enemy s b :
  foldl (hit_check b) (s, true) [P1; P2] =
  hit_check b (s, true) (enemyOf (Bullet.owner b)).
Proof.
  cbn [foldl]. unfold hit_check at 2.
  destruct (Bullet.owner b) eqn:Ho; cbn [enemyOf].
  - destruct (decide (P1 = P1)); [|done].
    unfold hit_check. rewrite Ho. destruct (decide (P2 = P1)); done.
  - destruct (decide (P1 = P2)); [done|].
    destruct (alive_at _ _ _) eqn:Ha.
    + unfold hit_check at 1. rewrite Ho. destruct (decide (P2 = P2)); [|done].
      unfold hit_check. rewrite Ho. destruct (decide (P1 = P2)); [done|].
      by rewrite Ha.
    + unfold hit_check at 1. rewrite Ho. destruct (decide (P2 = P2)); [|done].
      unfold hit_check. rewrite Ho. destruct (decide (P1 = P2)); [done|].
      by rewrite Ha.
Qed.

(** The sub-step as one case distinction on the moved bullet. *)
Lemma bullet_substep_cases s b :
  let b1 := advance b in
  let e := enemyOf (Bullet.owner b) in
  bullet_substep s b =
    if BULLET_MAX_RANGE <? Bullet.dist b1 then (s, b1, false)
    else if negb (isValid (grid s) (Bullet.x b1) (Bullet.y b1)) then
      (addEvent (λ id, EXPLOSION id (Bullet.x b1) (Bullet.y b1) (Bullet.owner b) None) s,
       b1, false)
    else if alive_at (tanks s e) (Bullet.x b1) (Bullet.y b1) then
      (addEvent (λ id, EXPLOSION id (Bullet.x b1) (Bullet.y b1) (Bullet.owner b) (Some e))
         (_logTick (Bullet.owner b)
            (tankId_name (Bullet.owner b) +:+ " bullet hits " +:+ tankId_name e
             +:+ "! HP: " +:+ pretty (Tank.hp (tanks s e) - 1))
            (upd_tank e (Tank.set_hp (Tank.hp (tanks s e) - 1)) s)),
       b1, false)
    else (s, b1, true).
Proof.
  cbn zeta. unfold bullet_substep.
  destruct (_ <? _); [done|]. destruct (negb _); [done|].
  rewrite hit_checks_enemy. unfold hit_check.
  change (Bullet.owner (advance b)) with (Bullet.owner b).
  destruct (decide _) as [He|_]; [by destruct (Bullet.owner b)|].
  by destruct (alive_at _ _ _).
Qed.

Lemma advance_n_advance k b : advance_n k (advance b) = advance (advance_n k b).
Proof. induction k as [|k IH]; [done|]. cbn [advance_n]. by rewrite IH. Qed.

Lemma advance_n_fields k b :
  Bullet.owner (advance_n k b) = Bullet.owner b
  ∧ Bullet.dist (advance_n k b) = Bullet.dist b + Z.of_nat k
  ∧ Bullet.x (advance_n k b) = Bullet.x b + Z.of_nat k * Bullet.dx b
  ∧ Bullet.y (advance_n k b) = Bullet.y b + Z.of_nat k * Bullet.dy b
  ∧ Bullet.dx (advance_n k b) = Bullet.dx b
  ∧ Bullet.dy (advance_n k b) = Bullet.dy b
  ∧ Bullet.id (advance_n k b) = Bullet.id b.
Proof.
  induction k as [|k (Ho & Hd & Hx & Hy & Hdx & Hdy & Hid)].
  - cbn [advance_n]. repeat split; lia.
  - cbn [advance_n advance Bullet.owner Bullet.dist Bullet.x Bullet.y Bullet.dx
         Bullet.dy Bullet.id].
    rewrite Ho, Hd, Hx, Hy, Hdx, Hdy, Hid. repeat split; lia.
Qed.

Lemma bullet_substep_flies s b :
  flies_on s (advance b) = true → bullet_substep s b = (s, advance b, true).
Proof.
  rewrite bullet_substep_cases. cbn zeta. unfold flies_on.
  change (Bullet.owner (advance b)) with (Bullet.owner b).
  intros Hf. apply andb_true_iff in Hf as [Hf Ha]. apply andb_true_iff in Hf as [Hd Hv].
  apply Z.leb_le in Hd. apply negb_true_iff in Ha.
  rewrite (proj2 (Z.ltb_ge _ _) Hd), Hv, Ha. done.
Qed.

Lemma bullet_substep_dies s b :
  flies_on s (advance b) = false →
  ∃ s1, bullet_substep s b = (s1, advance b, false).
Proof.
  rewrite bullet_substep_cases. cbn zeta. unfold flies_on.
  change (Bullet.owner (advance b)) with (Bullet.owner b).
  destruct (_ <? _) eqn:Hd; [by eexists|].
  apply Z.ltb_ge, Z.leb_le in Hd. rewrite Hd.
  destruct (isValid _ _ _); [|by eexists]. cbn [negb andb].
  destruct (alive_at _ _ _); [by eexists|done].
Qed.

Lemma bullet_loop_inactive n s b : bullet_loop n s b false = (s, b, false).
Proof. by destruct n. Qed.

Lemma bullet_loop_active_iff n s b :
  (bullet_loop n s b true).2 = true
  ↔ ∀ k, (1 ≤ k ≤ n)%nat → flies_on s (advance_n k b) = true.
Proof.
  revert b. induction n as [|n IH]; intros b.
  { split; [intros _ k Hk; lia|done]. }
  cbn [bullet_loop].
  destruct (flies_on s (advance b)) eqn:Hf.
  - rewrite (bullet_substep_flies _ _ Hf), IH. split.
    + intros H k Hk. destruct k as [|k]; [lia|].
      destruct k as [|k]; [done|].
      cbn [advance_n]. rewrite <- advance_n_advance.
      change (advance (advance_n k (advance b))) with (advance_n (S k) (advance b)).
      apply H. lia.
    + intros H k Hk. rewrite advance_n_advance. apply (H (S k)). lia.
  - destruct (bullet_substep_dies _ _ Hf) as [s1 ->].
    rewrite bullet_loop_inactive. cbn [snd]. split; [done|].
    intros H. specialize (H 1%nat ltac:(lia)). cbn [advance_n] in H. congruence.
Qed.

Lemma bullet_loop_flies n s b :
  (bullet_loop n s b true).2 = true →
  bullet_loop n s b true = (s, advance_n n b, true).
Proof.
  revert b. induction n as [|n IH]; intros b; [done|].
  intros Ha. pose proof (proj1 (bullet_loop_active_iff _ _ _) Ha) as Hall.
  assert (Hf : flies_on s (advance b) = true) by (apply (Hall 1%nat); lia).
  cbn [bullet_loop] in *. rewrite (bullet_substep_flies _ _ Hf) in *.
  rewrite (IH _ Ha). cbn [advance_n]. by rewrite advance_n_advance.
Qed.








Lemma updateBullets_nil s : bullets s = [] → bullets (updateBullets s) = [].
Proof. intros Hb. unfold updateBullets. by rewrite Hb. Qed.




(** ** FIRE *)

(** C3 (as amended).  Resolving a FIRE action for tank [t]: with a live
    bullet of [t], nothing is spawned and the feedback is RELOADING.
    Otherwise, for the cell ahead along the facing: if it is off-grid or a
    wall, an EXPLOSION event is emitted there and the feedback is BLOCKED;
    if the enemy stands there and is alive (HP > 0), it loses 1 HP and an
    EXPLOSION event naming it as the hit tank is emitted; in every other
    case -- the enemy is elsewhere, or is there with HP <= 0 -- a new
    bullet is appended in that cell, travelling along the facing, with
    distance 0 and the next id. *)
Theorem fire_resolution (t : TankId) s (its : Intents) :
  let me := tanks s t in
  let e := enemyOf t in
  (hasActiveBullet s t = true →
     ∃ s', resolveAction t (Some FIRE) (s, its) = Some (s', its)
       ∧ bullets s' = bullets s ∧ events s' = events s
       ∧ Tank.lastFeedback (tanks s' t) = Some "RELOADING"
       ∧ Tank.hp (tanks s' P1) = Tank.hp (tanks s P1)
       ∧ Tank.hp (tanks s' P2) = Tank.hp (tanks s P2))
  ∧ (∀ d, hasActiveBullet s t = false → DIRS (Tank.facing me) = Some d →
     let cx := Tank.x me + d.1 in
     let cy := Tank.y me + d.2 in
     (isValid (grid s) cx cy = false →
        ∃ s', resolveAction t (Some FIRE) (s, its) = Some (s', its)
          ∧ events s' = events s ++ [EXPLOSION (eventIdCounter s) cx cy t None]
          ∧ Tank.lastFeedback (tanks s' t) = Some "BLOCKED"
          ∧ bullets s' = bullets s
          ∧ Tank.hp (tanks s' P1) = Tank.hp (tanks s P1)
          ∧ Tank.hp (tanks s' P2) = Tank.hp (tanks s P2))
     ∧ (isValid (grid s) cx cy = true → alive_at (tanks s e) cx cy = true →
        ∃ s', resolveAction t (Some FIRE) (s, its) = Some (s', its)
          ∧ Tank.hp (tanks s' e) = Tank.hp (tanks s e) - 1
          ∧ Tank.hp (tanks s' t) = Tank.hp (tanks s t)
          ∧ events s' = events s ++ [EXPLOSION (eventIdCounter s) cx cy t (Some e)]
          ∧ bullets s' = bullets s)
     ∧ (isValid (grid s) cx cy = true → alive_at (tanks s e) cx cy = false →
        ∃ s', resolveAction t (Some FIRE) (s, its) = Some (s', its)
          ∧ bullets s' = bullets s ++ [Bullet.mk (eventIdCounter s) cx cy d.1 d.2 t 0]
          ∧ events s' = events s
          ∧ eventIdCounter s' = eventIdCounter s + 1
          ∧ Tank.hp (tanks s' P1) = Tank.hp (tanks s P1)
          ∧ Tank.hp (tanks s' P2) = Tank.hp (tanks s P2))).
Proof.
  cbn zeta. unfold resolveAction, fire. split.
  - intros ->. cbn [mbind option_bind]. eexists. split; [done|]. by destruct t.
  - intros d -> ->. cbn [mbind option_bind]. split; [|split].
    + intros ->. cbn [negb]. eexists. split; [done|]. by destruct t.
    + intros -> ->. cbn [negb]. eexists. split; [done|]. by destruct t.
    + intros -> ->. cbn [negb]. eexists. split; [done|]. by destruct t.
Qed.

(** ** Game-over evaluation *)

Lemma destroyed_check_verdict s :
  verdict_inputs (destroyed_check s) = verdict_inputs s
  ∧ (isGameOver (destroyed_check s), winner (destroyed_check s)) =
      if (Tank.hp (tanks s P1) <=? 0) && (Tank.hp (tanks s P2) <=? 0) then (true, Some "DRAW")
      else if Tank.hp (tanks s P1) <=? 0 then (true, Some "P2")
      else if Tank.hp (tanks s P2) <=? 0 then (true, Some "P1")
      else (isGameOver s, winner s).
Proof.
  unfold destroyed_check.
  destruct (_ && _); [done|].
  destruct (Tank.hp (tanks s P1) <=? 0); [done|].
  by destruct (Tank.hp (tanks s P2) <=? 0).
Qed.

Lemma stalemate_check_verdict s :
  verdict_inputs (stalemate_check s) = verdict_inputs s
  ∧ (isGameOver (stalemate_check s), winner (stalemate_check s)) =
      if isGameOver s then (true, winner s)
      else if is_HALT (pendingActions s P1) && is_HALT (pendingActions s P2)
           then (true, Some "DRAW (STALEMATE)")
           else (false, winner s).
Proof.
  unfold stalemate_check.
  destruct (isGameOver s) eqn:Hg; cbn [negb andb]; [by rewrite Hg|].
  destruct (is_HALT _ && is_HALT _); [done|]. by rewrite Hg.
Qed.

Lemma turn_limit_check_verdict s :
  verdict_inputs (turn_limit_check s) = verdict_inputs s
  ∧ (isGameOver (turn_limit_check s), winner (turn_limit_check s)) =
      if isGameOver s then (true, winner s)
      else if MAX_TURNS <=? turnCount s then (true, Some "DRAW (TURN LIMIT)")
      else (false, winner s).
Proof.
  unfold turn_limit_check.
  destruct (isGameOver s) eqn:Hg; cbn [negb andb]; [by rewrite Hg|].
  destruct (_ <=? _); [done|]. by rewrite Hg.
Qed.

(** The verdict of the three checks, from the state the world is in after
    movements. *)
Lemma game_over_checks_verdict w :
  verdict_inputs (game_over_checks w) = verdict_inputs w
  ∧ (isGameOver (game_over_checks w), winner (game_over_checks w)) =
    if (Tank.hp (tanks w P1) <=? 0) && (Tank.hp (tanks w P2) <=? 0) then (true, Some "DRAW")
    else if Tank.hp (tanks w P1) <=? 0 then (true, Some "P2")
    else if Tank.hp (tanks w P2) <=? 0 then (true, Some "P1")
    else if isGameOver w then (true, winner w)
    else if is_HALT (pendingActions w P1) && is_HALT (pendingActions w P2)
         then (true, Some "DRAW (STALEMATE)")
    else if MAX_TURNS <=? turnCount w then (true, Some "DRAW (TURN LIMIT)")
    else (false, winner w).
Proof.
  unfold game_over_checks.
  destruct (destroyed_check_verdict w) as [Hi1 Ho1].
  destruct (stalemate_check_verdict (destroyed_check w)) as [Hi2 Ho2].
  destruct (turn_limit_check_verdict (stalemate_check (destroyed_check w))) as [Hi3 Ho3].
  split; [congruence|].
  assert (Ht : turnCount (stalemate_check (destroyed_check w)) = turnCount w).
  { unfold verdict_inputs in *. congruence. }
  assert (Hp : ∀ t, pendingActions (destroyed_check w) t = pendingActions w t).
  { unfold verdict_inputs in *. intros []; cbn [pendingActions]; congruence. }
  rewrite Ho3, Ht. clear Ho3 Ht Hi3 Hi2 Hi1.
  rewrite !Hp in Ho2. clear Hp.
  destruct ((Tank.hp (tanks w P1) <=? 0) && (Tank.hp (tanks w P2) <=? 0)).
  { injection Ho1 as Hg1 Hw1. rewrite Hg1, Hw1 in Ho2.
    injection Ho2 as -> ->. done. }
  destruct (Tank.hp (tanks w P1) <=? 0).
  { injection Ho1 as Hg1 Hw1. rewrite Hg1, Hw1 in Ho2.
    injection Ho2 as -> ->. done. }
  destruct (Tank.hp (tanks w P2) <=? 0).
  { injection Ho1 as Hg1 Hw1. rewrite Hg1, Hw1 in Ho2.
    injection Ho2 as -> ->. done. }
  injection Ho1 as Hg1 Hw1. rewrite Hg1, Hw1 in Ho2.
  destruct (isGameOver w).
  { injection Ho2 as -> ->. done. }
  destruct (is_HALT _ && is_HALT _).
  { injection Ho2 as -> ->. done. }
  injection Ho2 as -> ->. done.
Qed.

Lemma begin_turn_control s :
  control (begin_turn s) =
  (grid s, isGameOver s, winner s, pendingActions_P1 s, pendingActions_P2 s,
   turnCount s + 1, MAX_OPS s, 0, 0).
Proof. done. Qed.

Lemma pending_cleared_fields s :
  isGameOver (set_pendingActions None None s) = isGameOver s
  ∧ winner (set_pendingActions None None s) = winner s
  ∧ tanks_P1 (set_pendingActions None None s) = tanks_P1 s
  ∧ tanks_P2 (set_pendingActions None None s) = tanks_P2 s
  ∧ turnCount (set_pendingActions None None s) = turnCount s.
Proof. done. Qed.

(** The outcome of a turn as one ordered case distinction. *)
Lemma resolveTurn_verdict s s' :
  resolveTurn s = Some s' →
  (isGameOver s', winner s') =
    (if (Tank.hp (tanks s' P1) <=? 0) && (Tank.hp (tanks s' P2) <=? 0) then (true, Some "DRAW")
     else if Tank.hp (tanks s' P1) <=? 0 then (true, Some "P2")
     else if Tank.hp (tanks s' P2) <=? 0 then (true, Some "P1")
     else if isGameOver s then (true, winner s)
     else if is_HALT (pendingActions s P1) && is_HALT (pendingActions s P2)
          then (true, Some "DRAW (STALEMATE)")
     else if MAX_TURNS <=? turnCount s + 1 then (true, Some "DRAW (TURN LIMIT)")
     else (false, winner s))
  ∧ pendingActions s' P1 = None ∧ pendingActions s' P2 = None
  ∧ turnCount s' = turnCount s + 1.
Proof.
  intros E. destruct (resolveTurn_inv s s' E) as (w & _ & Hs' & Hc).
  rewrite begin_turn_control in Hc. unfold control in Hc.
  injection Hc as _ Hgo Hwin Hp1 Hp2 Htc _ _ _.
  destruct (game_over_checks_verdict w) as [Hi Hv].
  unfold verdict_inputs in Hi. injection Hi as Ht1 Ht2 _ _ Htc'.
  destruct (pending_cleared_fields (game_over_checks w)) as (Fg & Fw & F1 & F2 & Fc).
  rewrite <- Hs' in Fg, Fw, F1, F2, Fc.
  unfold tanks, pendingActions.
  rewrite Fg, Fw, F1, F2, Fc, Ht1, Ht2, Htc', Hv.
  unfold tanks, pendingActions.
  rewrite Hgo, Hwin, Hp1, Hp2, Htc.
  split; [reflexivity|]. by rewrite Hs'.
Qed.


Lemma resolve_world_idle s :
  pendingActions s P1 = Some HALT → pendingActions s P2 = Some HALT →
  bullets s = [] →
  resolve_world s = Some (clamp P2 (clamp P1 (set_bullets [] s))).
Proof.
  intros H1 H2 Hb. unfold resolve_world. rewrite H1, H2.
  unfold updateBullets. rewrite Hb. reflexivity.
Qed.

(** A turn in which both tanks have halted and no bullet is in flight. *)
Lemma resolveTurn_both_halted s :
  pendingActions s P1 = Some HALT → pendingActions s P2 = Some HALT →
  bullets s = [] →
  ∃ s', resolveTurn s = Some s'
        ∧ Tank.hp (tanks s' P1) = Tank.hp (tanks s P1)
        ∧ Tank.hp (tanks s' P2) = Tank.hp (tanks s P2).
Proof.
  intros H1 H2 Hb. unfold resolveTurn.
  rewrite (resolve_world_idle (begin_turn s) H1 H2 Hb).
  eexists. split; [reflexivity|].
  set (w := clamp P2 (clamp P1 (set_bullets [] (begin_turn s)))).
  destruct (game_over_checks_verdict w) as [Hi _].
  unfold verdict_inputs in Hi. injection Hi as Ht1 Ht2 _ _ _.
  destruct (pending_cleared_fields (game_over_checks w)) as (_ & _ & F1 & F2 & _).
  unfold tanks. rewrite F1, F2, Ht1, Ht2. done.
Qed.

(** What a micro-step of a halting program leaves behind. *)
Lemma stepCPU_halting t s c :
  Tank.cpu (tanks s t) = Some c → 0 < Tank.hp (tanks s t) →
  (∀ x y f h a, (step (updateTankState x y f h a c)).1 = None
                ∨ (step (updateTankState x y f h a c)).1 = Some HALT) →
  pendingActions (stepCPU t s).1 t = Some HALT
  ∧ pendingActions (stepCPU t s).1 (enemyOf t) = pendingActions s (enemyOf t)
  ∧ tanks (stepCPU t s).1 (enemyOf t) = tanks s (enemyOf t)
  ∧ Tank.hp (tanks (stepCPU t s).1 t) = Tank.hp (tanks s t)
  ∧ bullets (stepCPU t s).1 = bullets s
  ∧ isGameOver (stepCPU t s).1 = isGameOver s.
Proof.
  intros Hc Hhp Hhalt. unfold stepCPU. rewrite Hc.
  rewrite (proj2 (Z.leb_gt _ _) Hhp).
  cbn [Tank.x Tank.y Tank.facing Tank.hp Tank.set_lastFeedback].
  specialize (Hhalt (Tank.x (tanks s t)) (Tank.y (tanks s t)) (Tank.facing (tanks s t))
                (Tank.hp (tanks s t)) (if hasActiveBullet s t then 0 else 1)).
  destruct (step _) as [r c']. cbn [fst] in Hhalt.
  destruct Hhalt as [->| ->]; by destruct t.
Qed.

Lemma loadCode_ok a b s s0 p1 p2 :
  loadCode a b s = (s0, LoadOk p1 p2) →
  ∃ q1 q2, compile "P1" a = Normal q1 ∧ compile "P2" b = Normal q2
    ∧ p1 = pr_program q1 ∧ p2 = pr_program q2
    ∧ s0 = resetTurnState (log_push "Simulation Started." (install P2 q2 (install P1 q1 s))).
Proof.
  unfold loadCode. intros E.
  destruct (compile "P1" a) as [q1|m]; [|by injection E].
  destruct (compile "P2" b) as [q2|m]; [|by injection E].
  injection E as <- <- <-. by exists q1, q2.
Qed.

Lemma loaded_state q1 q2 s :
  let s0 := resetTurnState (log_push "Simulation Started." (install P2 q2 (install P1 q1 s))) in
  Tank.cpu (tanks s0 P1) = Some (new_CPU (pr_program q1) (pr_labels q1))
  ∧ Tank.cpu (tanks s0 P2) = Some (new_CPU (pr_program q2) (pr_labels q2))
  ∧ (∀ t, Tank.hp (tanks s0 t) = INITIAL_HP)
  ∧ (∀ t, pendingActions s0 t = None)
  ∧ bullets s0 = [] ∧ events s0 = [] ∧ log s0 = ["Turn reset."]
  ∧ isGameOver s0 = false ∧ winner s0 = None ∧ turnCount s0 = 0
  ∧ (∀ t, turnOps s0 t = 0)
  ∧ (∀ t, position (tanks s0 t) = (sp_x (START_POSITIONS t), sp_y (START_POSITIONS t)))
  ∧ (∀ t, Tank.facing (tanks s0 t) = sp_facing (START_POSITIONS t))
  ∧ (∀ t, Tank.totalOps (tanks s0 t) = 0)
  ∧ grid s0 = grid s.
Proof.
  cbn zeta. repeat split; try done; by intros [].
Qed.

(** Two programs that halt at once end the game as a stalemate in the
    first turn. *)
Lemma halting_programs_stalemate a b s s0 p1 p2 :
  loadCode a b s = (s0, LoadOk p1 p2) →
  0 < INITIAL_HP →
  (∀ t c x y f h am, Tank.cpu (tanks s0 t) = Some c →
      (step (updateTankState x y f h am c)).1 = None
      ∨ (step (updateTankState x y f h am c)).1 = Some HALT) →
  ∃ s', resolveTurn (stepCPU P2 (stepCPU P1 s0).1).1 = Some s'
        ∧ isGameOver s' = true ∧ winner s' = Some "DRAW (STALEMATE)"
        ∧ turnCount s' = 1.
Proof.
  intros E Hhp Hhalt.
  destruct (loadCode_ok _ _ _ _ _ _ E) as (q1 & q2 & _ & _ & _ & _ & Hs0).
  destruct (loaded_state q1 q2 s) as (Hc1 & Hc2 & Hh & Hp & Hb & _ & _ & Hg & _ & Htc & _).
  rewrite <- Hs0 in Hc1, Hc2, Hh, Hp, Hb, Hg, Htc. clear Hs0 E.
  destruct (stepCPU_halting P1 s0 _ Hc1) as (A1 & A2 & A3 & A4 & A5 & A6).
  { rewrite Hh. exact Hhp. }
  { intros x y f h am. by apply (Hhalt P1). }
  set (s1 := (stepCPU P1 s0).1) in *. cbn [enemyOf] in A2, A3.
  assert (Hc2' : Tank.cpu (tanks s1 P2) = Some (new_CPU (pr_program q2) (pr_labels q2)))
    by (by rewrite A3).
  destruct (stepCPU_halting P2 s1 _ Hc2') as (B1 & B2 & B3 & B4 & B5 & B6).
  { rewrite A3, Hh. exact Hhp. }
  { intros x y f h am. by apply (Hhalt P2). }
  set (s2 := (stepCPU P2 s1).1) in *. cbn [enemyOf] in B2, B3.
  destruct (resolveTurn_both_halted s2) as (s' & E' & H1' & H2').
  { by rewrite B2. }
  { exact B1. }
  { by rewrite B5, A5. }
  exists s'. split; [exact E'|].
  destruct (resolveTurn_verdict s2 s' E') as (Hv & _ & _ & Ht).
  rewrite H1', H2', B3, B4, A3, A4, !Hh in Hv.
  rewrite (proj2 (Z.leb_gt _ _) Hhp) in Hv. cbn [andb] in Hv.
  rewrite B6, A6, Hg, B1, B2, A1 in Hv. cbn [is_HALT andb] in Hv.
  injection Hv as -> ->. split; [done|]. split; [done|].
  rewrite Ht. 
  assert (turnCount s2 = turnCount s0) as ->.
  { unfold s2, s1. clear. 
    assert (Hk : ∀ t s, turnCount (stepCPU t s).1 = turnCount s).
    { intros t s. unfold stepCPU. destruct (Tank.cpu _); [|done].
      destruct (_ <=? _); [done|].
      destruct (step _) as [[r|] c']; [destruct r|]; by destruct t. }
    by rewrite !Hk. }
  rewrite Htc. done.
Qed.



(** ** loadCode *)

Lemma install_fields t q s :
  Tank.cpu (tanks (install t q s) t) = Some (new_CPU (pr_program q) (pr_labels q))
  ∧ tanks (install t q s) (enemyOf t) = tanks s (enemyOf t)
  ∧ position (tanks (install t q s) t) = position (tanks s t)
  ∧ Tank.lastFeedback (tanks (install t q s) t) = Tank.lastFeedback (tanks s t)
  ∧ tank_rest (Tank.set_cpu (Tank.cpu (tanks s t)) (tanks (install t q s) t))
    = tank_rest (tanks s t)
  ∧ bullets (install t q s) = bullets s ∧ events (install t q s) = events s
  ∧ log (install t q s) = log s ∧ eventIdCounter (install t q s) = eventIdCounter s
  ∧ control (install t q s) = control s.
Proof. by destruct t. Qed.

(** The three ways [loadCode] can end.  A failure of the first program
    leaves the engine as it was; a failure of the second leaves the first
    tank with its new CPU and nothing else changed; success installs both
    CPUs and resets the turn state. *)
Theorem loadCode_outcomes (a b : string) s :
  (∀ m, compile "P1" a = Throw m → loadCode a b s = (s, LoadFail m))
  ∧ (∀ q1 m, compile "P1" a = Normal q1 → compile "P2" b = Throw m →
       loadCode a b s = (install P1 q1 s, LoadFail m))
  ∧ (∀ q1 q2, compile "P1" a = Normal q1 → compile "P2" b = Normal q2 →
       loadCode a b s =
         (resetTurnState (log_push "Simulation Started." (install P2 q2 (install P1 q1 s))),
          LoadOk (pr_program q1) (pr_program q2))).
Proof.
  unfold loadCode. split; [|split].
  - by intros m ->.
  - by intros q1 m -> ->.
  - by intros q1 q2 -> ->.
Qed.

(** ** stepCPU *)

(** C8 (as amended).  A micro-step of a tank that has a program and
    HP > 0 first mirrors the tank's x, y, facing and hp into its CPU with
    [updateTankState] and then calls [step] on the result; the value passed
    as [ammoAvailable] is 0 exactly when a bullet owned by that tank is
    live and 1 exactly when none is.  A tank without a program or with
    HP <= 0 is not stepped at all. *)
Theorem stepCPU_sensor_update (t : TankId) s :
  (∀ c, Tank.cpu (tanks s t) = Some c → 0 < Tank.hp (tanks s t) →
     let tk := tanks s t in
     let ammo := if hasActiveBullet s t then 0 else 1 in
     let c1 := updateTankState (Tank.x tk) (Tank.y tk) (Tank.facing tk) (Tank.hp tk) ammo c in
     (stepCPU t s).2 = (step c1).1
     ∧ Tank.cpu (tanks (stepCPU t s).1 t) = Some (step c1).2
     ∧ (ammo = 0 ↔ (1 ≤ owner_count t (bullets s))%nat)
     ∧ (ammo = 1 ↔ owner_count t (bullets s) = 0%nat))
  ∧ (Tank.cpu (tanks s t) = None ∨ Tank.hp (tanks s t) ≤ 0 → stepCPU t s = (s, None)).
Proof.
  split.
  - intros c Hc Hhp. cbn zeta. unfold stepCPU. rewrite Hc.
    rewrite (proj2 (Z.leb_gt _ _) Hhp).
    cbn [Tank.x Tank.y Tank.facing Tank.hp Tank.set_lastFeedback].
    destruct (step _) as [r c'] eqn:Es. cbn [fst snd].
    split; [by destruct r as [[]|]|].
    split; [destruct r as [[]|]; by destruct t|].
    pose proof (hasActiveBullet_false s t) as Hf.
    destruct (hasActiveBullet s t).
    + assert (Hn : owner_count t (bullets s) ≠ 0%nat).
      { intros H0. apply Hf in H0. discriminate. }
      split; [split; [intros _; lia|done]|split; [discriminate|done]].
    + assert (Hz : owner_count t (bullets s) = 0%nat) by by apply Hf.
      split; [split; [discriminate|lia]|split; done].
  - unfold stepCPU. intros [->|Hhp]; [done|].
    destruct (Tank.cpu _); [|done].
    by rewrite (proj2 (Z.leb_le _ _) Hhp).
Qed.

(** ** The host loop stays within the reachable states *)

Lemma reachable_host_step s s' : reachable s → host_step s = Some s' → reachable s'.
Proof.
  unfold host_step. intros Hs E.
  set (s1 := if turn_ready s P1 then s else (stepCPU P1 s).1) in *.
  assert (H1 : reachable s1).
  { unfold s1. destruct (turn_ready s P1); [done|]. by apply reach_stepCPU. }
  set (s2 := if turn_ready s1 P2 then s1 else (stepCPU P2 s1).1) in *.
  assert (H2 : reachable s2).
  { unfold s2. destruct (turn_ready s1 P2); [done|]. by apply reach_stepCPU. }
  destruct (_ && _).
  - by apply (reach_resolveTurn s2).
  - by injection E as <-.
Qed.

Lemma reachable_host_steps n s s' : reachable s → host_steps n s = Some s' → reachable s'.
Proof.
  revert s. induction n as [|n IH]; intros s Hs E.
  - by injection E as <-.
  - cbn [host_steps] in E. destruct (host_step s) as [s1|] eqn:E1; [|done].
    cbn [mbind option_bind] in E. apply (IH s1); [|done].
    by apply (reachable_host_step s).
Qed.

Lemma reachable_after_rounds n a b : reachable (after_rounds n (game a b)).
Proof.
  assert (Hg : reachable (game a b)) by apply reach_loadCode, reach_constructor.
  unfold after_rounds. destruct (host_steps n (game a b)) as [s'|] eqn:E; [|done].
  by apply (reachable_host_steps n (game a b)).
Qed.

(** ** A turn never throws on a reachable state *)

Lemma DIRS_is_Some f : 0 ≤ f < 4 → is_Some (DIRS f).
Proof.
  intros Hf. assert (f = 0 ∨ f = 1 ∨ f = 2 ∨ f = 3) as [->|[->|[->| ->]]] by lia; by eexists.
Qed.

Lemma tank_update_shape (f : Tank.t CPU Registers → Tank.t CPU Registers) tk :
  tank_update f →
  (0 ≤ Tank.facing tk < 4 → 0 ≤ Tank.facing (f tk) < 4)
  ∧ (is_Some (Tank.cpu tk) → is_Some (Tank.cpu (f tk))).
Proof.
  intros [h|fb|c|x y|w h|cond k Hk].
  - by split.
  - by split.
  - split; [done|]. intros _. by eexists.
  - by split.
  - by split.
  - unfold turn. destruct cond; [|by split]. split; [|done].
    cbn [Tank.facing Tank.set_facing]. intros Hf.
    pose proof (Z.rem_bound_pos (Tank.facing tk + k) 4). lia.
Qed.

Lemma shape_quiet K : quiet (shape K) ∧ bullet_blind (shape K).
Proof.
  split; [split|].
  - intros t f s Hf Hs u. destruct (Hs u) as [Hfacing Hcpu].
    destruct (decide (u = t)) as [->|Hne].
    + assert (tanks (upd_tank t f s) t = f (tanks s t)) as -> by by destruct t.
      destruct (tank_update_shape f (tanks s t) Hf) as [H1 H2]. split; auto.
    + assert (tanks (upd_tank t f s) u = tanks s u) as -> by by destruct t, u.
      done.
  - intros l s Hs u. exact (Hs u).
  - intros es n s Hs u. exact (Hs u).
  - intros bs s Hs u. exact (Hs u).
Qed.

Lemma resolveScan_returns t d ty s :
  0 ≤ Tank.facing (tanks s t) < 4 → is_Some (Tank.cpu (tanks s t)) →
  is_Some (resolveScan t d ty s).
Proof.
  intros Hf [c Hc]. unfold resolveScan.
  destruct (DIRS_is_Some _ Hf) as [dir ->]. cbn [mbind option_bind].
  rewrite Hc. cbn [mbind option_bind]. by eexists.
Qed.

Lemma resolvePing_returns t dx dy s :
  is_Some (Tank.cpu (tanks s t)) → is_Some (resolvePing t dx dy s).
Proof.
  intros [c Hc]. unfold resolvePing. rewrite Hc. cbn [mbind option_bind].
  destruct (_ <? _); by eexists.
Qed.

Lemma resolveAction_returns t a acc :
  0 ≤ Tank.facing (tanks acc.1 t) < 4 → is_Some (resolveAction t a acc).
Proof.
  destruct acc as [s its]. cbn [fst]. intros Hf. unfold resolveAction.
  destruct a as [[]|]; try (by eexists).
  - destruct (DIRS_is_Some (if bool_decide (dir = "BACKWARD")
                            then Z.rem (Tank.facing (tanks s t) + 2) 4
                            else Tank.facing (tanks s t))) as [d ->]; [|by eexists].
    destruct (bool_decide _); [|done].
    pose proof (Z.rem_bound_pos (Tank.facing (tanks s t) + 2) 4). lia.
  - unfold fire. destruct (hasActiveBullet s t); [by eexists|].
    destruct (DIRS_is_Some _ Hf) as [d ->]. cbn [mbind option_bind].
    destruct (negb _); [by eexists|]. destruct (alive_at _ _ _); by eexists.
Qed.

Lemma resolve_world_returns K s :
  shape K s → (∀ t, is_sensor (pendingActions s t) = true → K t) →
  ∃ w, resolve_world s = Some w ∧ shape K w.
Proof.
  intros Hs HK. destruct (shape_quiet K) as [HP HB].
  unfold resolve_world.
  assert (H0 : shape K (updateBullets s)) by by apply (quiet_updateBullets _ HP HB).
  assert (Hscan : ∀ t s1, shape K s1 →
            ∃ s2, resolve_sensor_scan t (pendingActions s t) s1 = Some s2 ∧ shape K s2).
  { intros t s1 H1. specialize (HK t).
    destruct (pendingActions s t) as [[]|]; try (by exists s1).
    cbn [resolve_sensor_scan]. destruct (H1 t) as [Hf Hc].
    destruct (resolveScan_returns t destDist destType s1 Hf (Hc (HK eq_refl))) as [s2 E].
    exists s2. split; [done|]. by apply (quiet_resolveScan _ HP _ _ _ _ _ E). }
  assert (Hping : ∀ t s1, shape K s1 →
            ∃ s2, resolve_sensor_ping t (pendingActions s t) s1 = Some s2 ∧ shape K s2).
  { intros t s1 H1. specialize (HK t).
    destruct (pendingActions s t) as [[]|]; try (by exists s1).
    cbn [resolve_sensor_ping]. destruct (H1 t) as [Hf Hc].
    destruct (resolvePing_returns t destX destY s1 (Hc (HK eq_refl))) as [s2 E].
    exists s2. split; [done|]. by apply (quiet_resolvePing _ HP _ _ _ _ _ E). }
  assert (Hact : ∀ t acc, shape K acc.1 →
            ∃ acc', resolveAction t (pendingActions s t) acc = Some acc' ∧ shape K acc'.1).
  { intros t acc H1. destruct (H1 t) as [Hf _].
    destruct (resolveAction_returns t (pendingActions s t) acc Hf) as [acc' E].
    exists acc'. split; [done|]. by apply (quiet_resolveAction _ HP HB _ _ _ _ E). }
  destruct (Hscan P1 _ H0) as (s1 & -> & H1). cbn [mbind option_bind].
  destruct (Hscan P2 _ H1) as (s2 & -> & H2). cbn [mbind option_bind].
  destruct (Hping P1 _ H2) as (s3 & -> & H3). cbn [mbind option_bind].
  destruct (Hping P2 _ H3) as (s4 & -> & H4). cbn [mbind option_bind].
  destruct (Hact P1 (s4, no_intents) H4) as (a5 & -> & H5). cbn [mbind option_bind].
  destruct (Hact P2 a5 H5) as (a6 & -> & H6). cbn [mbind option_bind].
  destruct (applyMovements_outcomes a6.2 a6.1) as (w & E & _).
  exists w. split; [done|]. by apply (quiet_applyMovements _ HP _ _ _ E).
Qed.

Lemma resolveTurn_returns s :
  well_formed s → ∃ s', resolveTurn s = Some s' ∧ well_formed s'.
Proof.
  intros Hs. unfold resolveTurn.
  destruct (resolve_world_returns (λ t, is_sensor (pendingActions s t) = true) (begin_turn s))
    as (w & -> & Hw).
  { intros t. destruct (Hs t) as [Hf Hc]. split; by destruct t. }
  { by intros []. }
  cbn [mbind option_bind]. eexists. split; [done|].
  intros t. destruct (Hw t) as [Hf _].
  destruct (game_over_checks_verdict w) as [Hi _].
  unfold verdict_inputs in Hi. injection Hi as Ht1 Ht2 _ _ _.
  split; [|by destruct t].
  destruct t; cbn [tanks tanks_P1 tanks_P2 set_pendingActions] in *; congruence.
Qed.

Lemma well_formed_reset s : valid_start → well_formed (resetTurnState s).
Proof. intros Hv t. split; [|by destruct t]. destruct t; apply Hv. Qed.

Lemma well_formed_loadCode a b s :
  valid_start → well_formed s → well_formed (loadCode a b s).1.
Proof.
  intros Hv Hs. unfold loadCode.
  destruct (compile "P1" a) as [q1|m]; [|done].
  destruct (compile "P2" b) as [q2|m]; cbn [fst].
  - by apply well_formed_reset.
  - intros t. destruct (Hs t) as [Hf Hc]. destruct t; [|done].
    split; [done|]. intros _. by eexists.
Qed.

Lemma well_formed_stepCPU t s : well_formed s → well_formed (stepCPU t s).1.
Proof.
  intros Hs. unfold stepCPU.
  destruct (Tank.cpu (tanks s t)) as [c|] eqn:Hc; [|done].
  destruct (_ <=? _); [done|].
  destruct (step _) as [r c'].
  intros u. destruct (Hs u) as [Hf Hcpu].
  destruct (decide (u = t)) as [->|Hne].
  - split; [by destruct r as [[]|], t|]. intros _. by destruct r as [[]|], t; eexists.
  - assert (t = enemyOf u) as -> by by destruct t, u.
    by destruct r as [[]|], u.
Qed.

Lemma reachable_well_formed s : valid_start → reachable s → well_formed s.
Proof.
  intros Hv. induction 1 as [|level s _ IH|a b s _ IH|s _ IH|t s _ IH|s s' _ IH E].
  - intros t. split; [|by destruct t]. destruct t; apply Hv.
  - exact IH.
  - by apply well_formed_loadCode.
  - by apply well_formed_reset.
  - by apply well_formed_stepCPU.
  - destruct (resolveTurn_returns s IH) as (s1 & E1 & H1).
    rewrite E in E1. by injection E1 as ->.
Qed.

(** In the states the public methods can reach, [resolveTurn] raises no
    TypeError: every facing is a direction, and a tank with a pending
    sensor query has a CPU to take the answer. *)
Theorem resolveTurn_returns_on_reachable s :
  valid_start → reachable s → is_Some (resolveTurn s).
Proof.
  intros Hv Hs. destruct (resolveTurn_returns s (reachable_well_formed s Hv Hs)) as (s' & E & _).
  by exists s'.
Qed.

(** C4 (as amended).  At the end of a [resolveTurn] that returns, the
    game-over status is decided in this order, on the HP the turn leaves:
    both tanks at HP <= 0: over, winner DRAW; only P1 at HP <= 0: over,
    winner P2; only P2: over, winner P1; otherwise, if the game was already
    over when the turn began, flag and winner stay as they were; otherwise,
    if both pending actions were HALT: over, DRAW (STALEMATE); otherwise,
    if the incremented turn count has reached [MAX_TURNS]: over,
    DRAW (TURN LIMIT); otherwise the game goes on.  The pending actions are
    then cleared.  In particular two freshly loaded programs whose first
    micro-step halts end the game in the first turn as DRAW (STALEMATE).
    In the states the public methods can reach the call does return (the
    start facings being directions). *)
Theorem game_over_evaluation_order :
  (∀ s s', resolveTurn s = Some s' →
     (isGameOver s', winner s') =
       (if (Tank.hp (tanks s' P1) <=? 0) && (Tank.hp (tanks s' P2) <=? 0)
        then (true, Some "DRAW")
        else if Tank.hp (tanks s' P1) <=? 0 then (true, Some "P2")
        else if Tank.hp (tanks s' P2) <=? 0 then (true, Some "P1")
        else if isGameOver s then (true, winner s)
        else if is_HALT (pendingActions s P1) && is_HALT (pendingActions s P2)
             then (true, Some "DRAW (STALEMATE)")
        else if MAX_TURNS <=? turnCount s + 1 then (true, Some "DRAW (TURN LIMIT)")
        else (false, winner s))
     ∧ pendingActions s' P1 = None ∧ pendingActions s' P2 = None
     ∧ turnCount s' = turnCount s + 1)
  ∧ (∀ a b s s0 p1 p2,
       loadCode a b s = (s0, LoadOk p1 p2) →
       0 < INITIAL_HP →
       (∀ t c x y f h am, Tank.cpu (tanks s0 t) = Some c →
          (step (updateTankState x y f h am c)).1 = None
          ∨ (step (updateTankState x y f h am c)).1 = Some HALT) →
       ∃ s', resolveTurn (stepCPU P2 (stepCPU P1 s0).1).1 = Some s'
             ∧ isGameOver s' = true ∧ winner s' = Some "DRAW (STALEMATE)"
             ∧ turnCount s' = 1)
  ∧ (valid_start → ∀ s, reachable s → is_Some (resolveTurn s)).
Proof.
  split; [|split].
  - apply resolveTurn_verdict.
  - apply halting_programs_stalemate.
  - intros Hv s Hs. by apply resolveTurn_returns_on_reachable.
Qed.

(** ** The writes of a turn *)

Lemma mutation_moving s s' : mutation false s s' → mutation true s s'.
Proof. destruct 1; try (by constructor); done. Qed.

Lemma writes_moving s s' : rtc (mutation false) s s' → rtc (mutation true) s s'.
Proof. induction 1; [done|]. eapply rtc_l; [by apply mutation_moving|done]. Qed.

Lemma mutation_addEvent m mk s :
  (∀ i, event_id (mk i) = i) → mutation m s (addEvent mk s).
Proof. intros H. apply mu_event, H. Qed.

Lemma mutation_logTick m t msg s : mutation m s (_logTick t msg s).
Proof. apply mu_log. Qed.

Lemma mutation_hit m t s x y :
  alive_at (tanks s t) x y = true →
  mutation m s (upd_tank t (Tank.set_hp (Tank.hp (tanks s t) - 1)) s).
Proof.
  unfold alive_at. intros H. apply mu_damage.
  apply andb_true_iff in H as [H _]. apply andb_true_iff in H as [H _]. lia.
Qed.

Ltac writes_tac :=
  repeat first
    [ apply rtc_refl
    | eapply rtc_r;
      [|first [ apply mutation_logTick
              | apply mu_log
              | apply mutation_addEvent; intros; reflexivity
              | apply mu_display; reflexivity
              | eapply mutation_hit; eassumption
              | apply mu_turn; lia ]] ].

Lemma hit_check_writes m b acc tid :
  rtc (mutation m) acc.1 (hit_check b acc tid).1.
Proof.
  destruct acc as [s a]. unfold hit_check. cbn [fst].
  destruct (decide _); [done|].
  destruct (alive_at _ _ _) eqn:Ha; cbn [fst]; writes_tac.
Qed.

Lemma bullet_substep_writes m s b :
  rtc (mutation m) s (bullet_substep s b).1.1.
Proof.
  unfold bullet_substep.
  destruct (_ <? _); [done|].
  destruct (negb _); cbn [fst]; [writes_tac|].
  cbn [foldl].
  destruct (hit_check _ (hit_check _ _ _) _) as [s2 a2] eqn:E2.
  cbn [fst]. change s2 with (s2, a2).1. rewrite <- E2.
  etrans; [|apply hit_check_writes]. apply (hit_check_writes m _ (s, true)).
Qed.

Lemma bullet_loop_writes m n s b a :
  rtc (mutation m) s (bullet_loop n s b a).1.1.
Proof.
  revert s b a. induction n as [|n IH]; intros s b a; [done|].
  cbn [bullet_loop]. destruct a; [|done].
  destruct (bullet_substep s b) as [[s1 b1] a1] eqn:E.
  etrans; [|apply IH]. change s1 with (s1, b1, a1).1.1. rewrite <- E.
  apply bullet_substep_writes.
Qed.

Lemma flies_on_in_flight s b :
  (∀ k, (1 ≤ k ≤ Z.to_nat BULLET_SPEED)%nat → flies_on s (advance_n k b) = true) →
  in_flight (grid s) b.
Proof.
  intros H k Hk. specialize (H k Hk). unfold flies_on in H.
  apply andb_true_iff in H as [H _]. apply andb_true_iff in H as [H1 H2].
  split; [done|lia].
Qed.

Lemma bullet_fold_writes m l s acc :
  ∃ l', sublist l' l ∧ Forall (in_flight (grid s)) l'
    ∧ (foldl bullet_turn (s, acc) l).2 = acc ++ (advance_n (Z.to_nat BULLET_SPEED) <$> l')
    ∧ rtc (mutation m) s (foldl bullet_turn (s, acc) l).1.
Proof.
  revert s acc. induction l as [|b l IH]; intros s acc.
  { exists []. cbn. by rewrite app_nil_r. }
  cbn [foldl].
  assert (Hbt : bullet_turn (s, acc) b =
                let r := bullet_loop (Z.to_nat BULLET_SPEED) s b true in
                (r.1.1, if r.2 then acc ++ [r.1.2] else acc)).
  { unfold bullet_turn. by destruct (bullet_loop _ _ _ _) as [[??]?]. }
  rewrite Hbt. clear Hbt. cbn zeta.
  pose proof (bullet_loop_writes m (Z.to_nat BULLET_SPEED) s b true) as Hw.
  pose proof (bullet_loop_flies (Z.to_nat BULLET_SPEED) s b) as Hf.
  pose proof (proj1 (bullet_loop_active_iff (Z.to_nat BULLET_SPEED) s b)) as Ha.
  destruct (control_quiet (control s)) as [HP _].
  pose proof (quiet_bullet_loop _ HP (Z.to_nat BULLET_SPEED) s b true eq_refl) as Hg.
  destruct (bullet_loop _ s b true) as [[s1 b1] a1]. cbn [fst snd] in *.
  assert (grid s1 = grid s) as Hgrid by (unfold control in Hg; by simplify_eq).
  destruct (IH s1 (if a1 then acc ++ [b1] else acc)) as (l' & Hsub & Hfl & Hacc & Hrtc).
  rewrite Hgrid in Hfl. destruct a1.
  - specialize (Hf eq_refl). assert (s1 = s ∧ b1 = advance_n (Z.to_nat BULLET_SPEED) b)
      as [-> ->] by (by simplify_eq).
    exists (b :: l'). split; [by constructor|]. split.
    { constructor; [|done]. apply flies_on_in_flight, Ha. done. }
    split; [|exact Hrtc]. rewrite Hacc. by rewrite <- app_assoc.
  - exists l'. split; [by constructor|]. split; [done|]. split; [done|].
    by etrans.
Qed.

Lemma updateBullets_writes m s : rtc (mutation m) s (updateBullets s).
Proof.
  unfold updateBullets.
  destruct (bullet_fold_writes m (bullets s) s []) as (l' & Hsub & Hfl & Hacc & Hrtc).
  destruct (control_quiet (control s)) as [HP _].
  pose proof (quiet_bullet_fold _ HP (bullets s) s [] eq_refl) as Hg.
  pose proof (quiet_bullet_fold _ (bullets_quiet (bullets s)) (bullets s) s [] eq_refl) as Hb.
  destruct (foldl _ _ _) as [s1 surv]. cbn [fst snd] in *.
  assert (grid s1 = grid s) as Hgrid by (unfold control in Hg; by simplify_eq).
  eapply rtc_r; [done|]. rewrite Hacc. cbn [app].
  apply mu_prune; [by rewrite Hb|by rewrite Hgrid].
Qed.

Lemma resolveScan_writes m t d ty s s' :
  resolveScan t d ty s = Some s' → rtc (mutation m) s s'.
Proof.
  unfold resolveScan. intros E.
  destruct (DIRS _) as [dir|]; [|done]. cbn [mbind option_bind] in E.
  destruct (Tank.cpu _) as [c|]; [|done]. cbn [mbind option_bind] in E.
  assert (s' = _) as -> by (symmetry; injection E; intros H; exact H).
  writes_tac.
Qed.

Lemma resolvePing_writes m t dx dy s s' :
  resolvePing t dx dy s = Some s' → rtc (mutation m) s s'.
Proof.
  unfold resolvePing. intros E.
  destruct (Tank.cpu _) as [c|]; [|done]. cbn [mbind option_bind] in E.
  destruct (_ <? _);
    (assert (s' = _) as -> by (symmetry; injection E; intros H; exact H)); writes_tac.
Qed.

Lemma fire_writes m t s s' : fire t s = Some s' → rtc (mutation m) s s'.
Proof.
  unfold fire. intros E.
  destruct (hasActiveBullet _ _) eqn:Hact.
  { assert (s' = _) as -> by (symmetry; injection E; intros H; exact H). writes_tac. }
  destruct (DIRS _) as [dir|] eqn:Hd; [|done]. cbn [mbind option_bind] in E.
  destruct (negb _) eqn:Hv.
  { assert (s' = _) as -> by (symmetry; injection E; intros H; exact H). writes_tac. }
  destruct (alive_at _ _ _) eqn:Ha.
  { assert (s' = _) as -> by (symmetry; injection E; intros H; exact H). writes_tac. }
  assert (s' = _) as -> by (symmetry; injection E; intros H; exact H).
  apply (rtc_r _ (_logTick t (tankId_name t +:+ " fires") s));
    [apply rtc_once, mutation_logTick|].
  apply (mu_spawn m (Bullet.mk _ _ _ _ _ _ _) (_logTick t (tankId_name t +:+ " fires") s)); cbn [Bullet.id Bullet.dist Bullet.x Bullet.y
    Bullet.dx Bullet.dy Bullet.owner]; try done.
  - by apply negb_false_iff in Hv.
  - exists (Tank.facing (tanks s t)). by destruct dir.
Qed.

Lemma DIRS_unit f d : DIRS f = Some d → Z.abs d.1 + Z.abs d.2 = 1.
Proof.
  unfold DIRS. intros H.
  repeat (destruct (_ =? _); [by injection H as <-|]). done.
Qed.

(** [resolveAction] writes no position; a MOVE only records an intent for
    one of the four cells next to the tank. *)
Lemma resolveAction_writes t a s its s' its' :
  resolveAction t a (s, its) = Some (s', its') →
  rtc (mutation false) s s'
  ∧ intent_of its' (enemyOf t) = intent_of its (enemyOf t)
  ∧ (intent_of its' t = intent_of its t
     ∨ ∃ dir m, a = Some (MOVE dir) ∧ s' = s ∧ intent_of its' t = Some m
                ∧ next_to m (tanks s t)).
Proof.
  unfold resolveAction. intros E.
  destruct a as [[]|]; try (by (assert (s' = s ∧ its' = its) as [-> ->]
    by (by simplify_eq); split; [done|split; [done|by left]])).
  - destruct (DIRS _) as [d|] eqn:Hd; [|done]. cbn [mbind option_bind] in E.
    assert (s' = s) as -> by congruence.
    assert (its' = set_intent t
              (Some {| targetX := Tank.x (tanks s t) + d.1;
                       targetY := Tank.y (tanks s t) + d.2 |}) its) as -> by congruence.
    split; [done|]. split; [by destruct t|]. right.
    eexists _, _. split; [done|]. split; [done|]. split; [by destruct t|].
    unfold next_to. cbn [targetX targetY]. apply DIRS_unit in Hd. lia.
  - simplify_eq. split; [|split; [done|by left]]. writes_tac.
  - destruct (fire t s) as [s1|] eqn:F; [|done]. cbn [mbind option_bind] in E.
    assert (s' = s1 ∧ its' = its) as [-> ->] by (by simplify_eq).
    split; [|split; [done|by left]]. by apply (fire_writes false t s).
Qed.

Lemma reject_writes m t fb acc : rtc (mutation m) acc.1 (reject t fb acc).1.
Proof. unfold reject. cbn [fst]. writes_tac. Qed.

Lemma movement_filters_writes m its s :
  rtc (mutation m) s (movement_filters its s).1.
Proof.
  unfold movement_filters.
  assert (Hw : ∀ t acc, rtc (mutation m) acc.1 (wall_filter t acc).1).
  { intros t acc. unfold wall_filter.
    destruct (intent_of _ _); [|done]. destruct (negb _); [|done]. apply reject_writes. }
  assert (Hh : ∀ acc, rtc (mutation m) acc.1 (head_on_filter acc).1).
  { intros acc. unfold head_on_filter.
    destruct (intent_P1 _); [|done]. destruct (intent_P2 _); [|done].
    destruct (_ && _); [|done]. etrans; apply reject_writes. }
  assert (Hst : ∀ acc, rtc (mutation m) acc.1 (same_target_filter acc).1).
  { intros acc. unfold same_target_filter.
    destruct (intent_P1 _); [|done]. destruct (intent_P2 _); [|done].
    destruct (_ && _); [|done]. etrans; apply reject_writes. }
  assert (Hb : ∀ t acc, rtc (mutation m) acc.1 (blocked_filter t acc).1).
  { intros t acc. unfold blocked_filter.
    destruct (intent_of _ _); [|done]. destruct (targets _ _); [|done]. apply reject_writes. }
  etrans; [|apply Hb]. etrans; [|apply Hb]. etrans; [|apply Hst]. etrans; [|apply Hh].
  etrans; [|apply Hw]. apply (Hw P1 (s, its)).
Qed.

Lemma apply_move_writes t mv its s s' :
  apply_move t mv its s = Some s' → rtc (mutation true) s s'.
Proof.
  unfold apply_move. intros E.
  destruct mv; [|by injection E as <-].
  destruct (intent_of _ _).
  - assert (s' = _) as -> by (symmetry; injection E; intros H; exact H).
    eapply rtc_r; [|apply mutation_logTick]. by apply rtc_once, mu_move.
  - destruct (Tank.lastFeedback _); [|done]. cbn [mbind option_bind] in E.
    assert (s' = _) as -> by (symmetry; injection E; intros H; exact H).
    writes_tac.
Qed.

Lemma applyMovements_writes its s s' :
  applyMovements its s = Some s' → rtc (mutation true) s s'.
Proof.
  unfold applyMovements. intros E.
  destruct (apply_move P1 _ _ _) as [s1|] eqn:E1; [|done]. cbn [mbind option_bind] in E.
  destruct (apply_move P2 _ _ _) as [s2|] eqn:E2; [|done]. cbn [mbind option_bind] in E.
  assert (s' = clamp P2 (clamp P1 s2)) as -> by congruence.
  eapply rtc_r; [|by apply mu_clamp]. eapply rtc_r; [|by apply mu_clamp].
  etrans; [|by apply (apply_move_writes _ _ _ _ _ E2)].
  etrans; [|by apply (apply_move_writes _ _ _ _ _ E1)].
  apply movement_filters_writes.
Qed.

Lemma upd_tank_tanks t f s u :
  tanks (upd_tank t f s) u = if decide (u = t) then f (tanks s t) else tanks s u.
Proof. by destruct t, u. Qed.

Lemma upd_tank_rest t f s :
  grid (upd_tank t f s) = grid s ∧ bullets (upd_tank t f s) = bullets s
  ∧ log (upd_tank t f s) = log s ∧ events (upd_tank t f s) = events s
  ∧ eventIdCounter (upd_tank t f s) = eventIdCounter s
  ∧ control (upd_tank t f s) = control s.
Proof. by destruct t. Qed.

(** Outside [applyMovements] no write touches the grid or a position. *)
Lemma mutation_still s s' :
  mutation false s s' →
  grid s' = grid s ∧ ∀ t, position (tanks s' t) = position (tanks s t).
Proof.
  destruct 1 as [s s' Hw|t f s Hf|t s Hhp|t cond k s Hk|msg s|e s He|b s|l s|t x y s Hm|t s Hm];
    try done.
  - unfold world in Hw. split; [congruence|]. intros []; cbn [tanks]; congruence.
  - split; [apply upd_tank_rest|]. intros u. rewrite upd_tank_tanks.
    destruct (decide _) as [->|]; [|done].
    unfold vitals in Hf. unfold position. congruence.
  - split; [apply upd_tank_rest|]. intros u. rewrite upd_tank_tanks.
    by destruct (decide _) as [->|].
  - split; [apply upd_tank_rest|]. intros u. rewrite upd_tank_tanks.
    destruct (decide _) as [->|]; [|done]. unfold turn. by destruct cond.
Qed.

Lemma writes_still s s' :
  rtc (mutation false) s s' →
  grid s' = grid s ∧ ∀ t, position (tanks s' t) = position (tanks s t).
Proof.
  induction 1 as [|s1 s2 s3 H12 _ [IHg IHp]]; [done|].
  apply mutation_still in H12 as [Hg Hp].
  split; [congruence|]. intros t. by rewrite IHp, Hp.
Qed.

(** The two phases of steps 1 to 4: bullets, sensors and actions, which
    write no position, and then the movements, for the intents the MOVE
    actions recorded. *)
Lemma resolve_world_phases s s' :
  resolve_world s = Some s' →
  ∃ s1 its, rtc (mutation false) s s1 ∧ applyMovements its s1 = Some s'
    ∧ ∀ t m, intent_of its t = Some m →
        (∃ dir, pendingActions s t = Some (MOVE dir)) ∧ next_to m (tanks s1 t).
Proof.
  unfold resolve_world. intros E.
  assert (Hscan : ∀ t a s1 s2, resolve_sensor_scan t a s1 = Some s2 → rtc (mutation false) s1 s2).
  { intros t [[]|] s1 s2 E'; cbn in E'; try (by injection E' as <-).
    by apply (resolveScan_writes false _ _ _ _ _ E'). }
  assert (Hping : ∀ t a s1 s2, resolve_sensor_ping t a s1 = Some s2 → rtc (mutation false) s1 s2).
  { intros t [[]|] s1 s2 E'; cbn in E'; try (by injection E' as <-).
    by apply (resolvePing_writes false _ _ _ _ _ E'). }
  destruct (resolve_sensor_scan P1 _ _) as [s1|] eqn:E1; [|done]. cbn [mbind option_bind] in E.
  destruct (resolve_sensor_scan P2 _ _) as [s2|] eqn:E2; [|done]. cbn [mbind option_bind] in E.
  destruct (resolve_sensor_ping P1 _ _) as [s3|] eqn:E3; [|done]. cbn [mbind option_bind] in E.
  destruct (resolve_sensor_ping P2 _ _) as [s4|] eqn:E4; [|done]. cbn [mbind option_bind] in E.
  destruct (resolveAction P1 _ _) as [[s5 i5]|] eqn:E5; [|done]. cbn [mbind option_bind] in E.
  destruct (resolveAction P2 _ _) as [[s6 i6]|] eqn:E6; [|done]. cbn [mbind option_bind] in E.
  cbn [fst snd] in E.
  apply resolveAction_writes in E5 as (W5 & O5 & I5).
  apply resolveAction_writes in E6 as (W6 & O6 & I6).
  cbn [enemyOf intent_of no_intents intent_P1 intent_P2] in O5, O6, I5, I6.
  exists s6, i6. split.
  { etrans; [apply (updateBullets_writes false)|].
    etrans; [by apply (Hscan _ _ _ _ E1)|]. etrans; [by apply (Hscan _ _ _ _ E2)|].
    etrans; [by apply (Hping _ _ _ _ E3)|]. etrans; [by apply (Hping _ _ _ _ E4)|].
    by etrans. }
  split; [done|]. intros [] m Hm; cbn [intent_of] in Hm.
  - rewrite O6 in Hm. destruct I5 as [I5|(dir & m' & Ha & -> & Hi & Hn)]; [congruence|].
    split; [by exists dir|]. assert (m' = m) as -> by congruence.
    unfold next_to in *. destruct (writes_still _ _ W6) as [_ Hp].
    specialize (Hp P1). unfold position in Hp. congruence.
  - destruct I6 as [I6|(dir & m' & Ha & -> & Hi & Hn)]; [congruence|].
    split; [by exists dir|]. by assert (m' = m) as -> by congruence.
Qed.

Lemma begin_turn_writes m s : rtc (mutation m) s (begin_turn s).
Proof.
  unfold begin_turn. writes_tac.
  apply rtc_once, mu_control. done.
Qed.

Lemma game_over_checks_writes m s : rtc (mutation m) s (game_over_checks s).
Proof.
  assert (Ho : ∀ b w s1, mutation m s1 (set_outcome b w s1)) by (by intros; apply mu_control).
  assert (Hd : rtc (mutation m) s (destroyed_check s)).
  { unfold destroyed_check. destruct (_ && _).
    { eapply rtc_r; [|apply mu_log]. eapply rtc_r; [|apply Ho]. writes_tac. }
    destruct (_ <=? _).
    { eapply rtc_r; [|apply mu_log]. eapply rtc_r; [|apply Ho]. writes_tac. }
    destruct (_ <=? _); [|done].
    eapply rtc_r; [|apply mu_log]. eapply rtc_r; [|apply Ho]. writes_tac. }
  assert (Hs : ∀ s1, rtc (mutation m) s1 (stalemate_check s1)).
  { intros s1. unfold stalemate_check. destruct (_ && _); [|done].
    eapply rtc_r; [|apply mu_log]. apply rtc_once, Ho. }
  assert (Ht : ∀ s1, rtc (mutation m) s1 (turn_limit_check s1)).
  { intros s1. unfold turn_limit_check. destruct (_ && _); [|done].
    eapply rtc_r; [|apply mu_log]. apply rtc_once, Ho. }
  unfold game_over_checks. etrans; [exact Hd|]. etrans; [apply Hs|apply Ht].
Qed.

(** A turn is a sequence of these writes. *)
Lemma resolveTurn_writes s s' : resolveTurn s = Some s' → rtc (mutation true) s s'.
Proof.
  intros E. destruct (resolveTurn_inv s s' E) as (w & Ew & -> & _).
  destruct (resolve_world_phases _ _ Ew) as (s1 & its & W1 & Em & _).
  apply (rtc_r _ (game_over_checks w)); [|by apply mu_control].
  etrans; [apply begin_turn_writes|]. etrans; [by apply writes_moving|].
  etrans; [by apply (applyMovements_writes its s1)|]. apply game_over_checks_writes.
Qed.

(** A CPU step is a write to the display fields of its tank between two
    writes to the bookkeeping. *)
Lemma mutation_set_tank m t tk s :
  vitals tk = vitals (tanks s t) → mutation m s (set_tank t tk s).
Proof. intros H. by apply (mu_display m t (λ _, tk)). Qed.

Lemma stepCPU_writes m t s : rtc (mutation m) s (stepCPU t s).1.
Proof.
  unfold stepCPU. destruct (Tank.cpu _) as [c|]; [|done].
  destruct (_ <=? _); [done|].
  assert (Hi : mutation m s (incr_turnOps t s)) by (apply mu_control; by destruct t).
  assert (Hp : ∀ r s1, mutation m s1 (set_pending t r s1))
    by (intros; apply mu_control; by destruct t).
  assert (Ht : ∀ tk, vitals tk = vitals (tanks s t) →
                     mutation m (incr_turnOps t s) (set_tank t tk (incr_turnOps t s))).
  { intros tk Hv. apply mutation_set_tank. rewrite Hv. by destruct t. }
  destruct (step _) as [[r|] c']; [destruct r|]; cbn [fst];
    repeat first [ apply rtc_once, Hi
                 | eapply rtc_r; [|first [apply Hp | apply Ht; reflexivity]] ].
Qed.

(** ** Invariants of the reachable states *)

(** Every reachable state comes from the constructor by arena changes,
    resets and the writes above. *)
Lemma reachable_by_writes (I : BattleManager → Prop) :
  I constructor →
  (∀ level s, I s → I (setupArena level s)) →
  (∀ s, I s → I (resetTurnState s)) →
  (∀ s s', I s → mutation true s s' → I s') →
  ∀ s, reachable s → I s.
Proof.
  intros Hc Ha Hr Hm.
  assert (Hw : ∀ s s', rtc (mutation true) s s' → I s → I s').
  { induction 1 as [|s1 s2 s3 H12 _ IH]; [done|]. intros H1. apply IH, (Hm s1 s2 H1 H12). }
  induction 1 as [|level s _ IH|a b s _ IH|s _ IH|t s _ IH|s s' _ IH E].
  - done.
  - by apply Ha.
  - unfold loadCode.
    destruct (compile "P1" a) as [p1|m]; [|done].
    assert (I (install P1 p1 s)) as H1 by (apply (Hm s); [done|by apply mu_display]).
    destruct (compile "P2" b) as [p2|m]; [|done]. cbn [fst].
    apply Hr. apply (Hm (install P2 p2 (install P1 p1 s))); [|apply mu_log].
    apply (Hm (install P1 p1 s)); [done|by apply mu_display].
  - by apply Hr.
  - apply (Hw s); [|done]. apply stepCPU_writes.
  - apply (Hw s); [|done]. by apply resolveTurn_writes.
Qed.

Lemma mutation_hp m s s' :
  mutation m s s' →
  ∀ t, Tank.hp (tanks s' t) ≤ Tank.hp (tanks s t)
       ∧ (0 ≤ Tank.hp (tanks s t) → 0 ≤ Tank.hp (tanks s' t)).
Proof.
  destruct 1 as [s s' Hw|t f s Hf|t s Hhp|t cond k s Hk|msg s|e s He|b s|l s|t x y s Hm|t s Hm];
    intros u; try (by split); try (unfold clamp); try rewrite upd_tank_tanks.
  - unfold world in Hw.
    assert (tanks s' u = tanks s u) as -> by (destruct u; cbn [tanks]; congruence). lia.
  - destruct (decide _) as [->|]; [|lia].
    unfold vitals in Hf. assert (Tank.hp (f (tanks s t)) = Tank.hp (tanks s t)) as ->
      by congruence. lia.
  - destruct (decide _) as [->|]; [|lia].
    cbn [Tank.hp Tank.set_hp]. lia.
  - destruct (decide _) as [->|]; [|lia].
    unfold turn. destruct cond; cbn [Tank.hp Tank.set_facing]; lia.
  - destruct (decide _) as [->|]; [|lia]. cbn [Tank.hp Tank.set_pos]. lia.
  - destruct (decide _) as [->|]; [|lia]. unfold clamp_tank. cbn. lia.
Qed.

Lemma writes_hp m s s' :
  rtc (mutation m) s s' →
  ∀ t, Tank.hp (tanks s' t) ≤ Tank.hp (tanks s t)
       ∧ (0 ≤ Tank.hp (tanks s t) → 0 ≤ Tank.hp (tanks s' t)).
Proof.
  induction 1 as [|s1 s2 s3 H12 _ IH]; intros t; [lia|].
  destruct (mutation_hp _ _ _ H12 t), (IH t). lia.
Qed.

Lemma mutation_append m s s' :
  mutation m s s' →
  log s `prefix_of` log s' ∧ events s `prefix_of` events s'
  ∧ eventIdCounter s ≤ eventIdCounter s'.
Proof.
  destruct 1 as [s s' Hw|t f s Hf|t s Hhp|t cond k s Hk|msg s|e s He|b s|l s|t x y s Hm|t s Hm];
    try (unfold clamp;
         destruct (upd_tank_rest t (clamp_tank (width (grid s)) (height (grid s))) s)
           as (_ & _ & -> & -> & -> & _); done);
    try (match goal with |- context [upd_tank ?t ?f ?s] =>
           destruct (upd_tank_rest t f s) as (_ & _ & -> & -> & -> & _) end; done).
  - unfold world in Hw.
    assert (log s' = log s ∧ events s' = events s ∧ eventIdCounter s' = eventIdCounter s)
      as (-> & -> & ->) by (repeat split; congruence). done.
  - cbn. split; [by apply prefix_app_r|]. done.
  - cbn. split; [done|]. split; [by apply prefix_app_r|]. lia.
  - cbn. split; [done|]. split; [done|]. lia.
  - done.
Qed.

Lemma writes_append m s s' :
  rtc (mutation m) s s' →
  log s `prefix_of` log s' ∧ events s `prefix_of` events s'
  ∧ eventIdCounter s ≤ eventIdCounter s'.
Proof.
  induction 1 as [|s1 s2 s3 H12 _ (IH1 & IH2 & IH3)]; [done|].
  destruct (mutation_append _ _ _ H12) as (H1 & H2 & H3).
  split; [by etrans|]. split; [by etrans|]. lia.
Qed.

Lemma advance_n_id_fmap n (l : list Bullet.t) :
  Bullet.id <$> (advance_n n <$> l) = Bullet.id <$> l.
Proof.
  rewrite <- list_fmap_compose. apply list_fmap_ext. intros i b _. cbn.
  apply advance_n_fields.
Qed.

Lemma ids_fresh_same s s' :
  events s' = events s → bullets s' = bullets s → eventIdCounter s' = eventIdCounter s →
  ids_fresh s → ids_fresh s'.
Proof. unfold ids_fresh, ids. by intros -> -> ->. Qed.

Lemma ids_fresh_new s (l : list Z) :
  l ≡ₚ eventIdCounter s :: ids s →
  ids_fresh s →
  0 ≤ eventIdCounter s + 1 ∧ NoDup l ∧ Forall (λ i, 0 ≤ i < eventIdCounter s + 1) l.
Proof.
  intros Hn (H0 & Hd & Hb). rewrite !Hn. split; [lia|]. split.
  - apply NoDup_cons. split; [|done]. intros Hin.
    rewrite Forall_forall in Hb. apply Hb in Hin. lia.
  - apply Forall_cons. split; [lia|]. eapply Forall_impl; [done|]. cbn. lia.
Qed.

Lemma mutation_ids_fresh m s s' : mutation m s s' → ids_fresh s → ids_fresh s'.
Proof.
  destruct 1 as [s s' Hw|t f s Hf|t s Hhp|t cond k s Hk|msg s|e s He|b s Hi Hd Hv Hdir Hact
                |l s Hsub Hfl|t x y s Hm|t s Hm];
    try (apply ids_fresh_same; by destruct t).
  - unfold world in Hw. apply ids_fresh_same; congruence.
  - by apply ids_fresh_same.
  - intros H. unfold ids_fresh, ids. cbn [events bullets eventIdCounter set_events].
    apply (ids_fresh_new s); [|done]. unfold ids.
    rewrite fmap_app, <- app_assoc. cbn [fmap list_fmap app]. rewrite He.
    by rewrite <- Permutation_middle.
  - intros H. unfold ids_fresh, ids.
    cbn [events bullets eventIdCounter set_events set_bullets next_id].
    apply (ids_fresh_new s); [|done]. unfold ids.
    rewrite fmap_app, app_assoc. cbn [fmap list_fmap]. rewrite Hi.
    by rewrite <- Permutation_cons_append.
  - intros (H0 & Hd & Hb). unfold ids_fresh, ids in *.
    cbn [events bullets eventIdCounter set_bullets].
    rewrite advance_n_id_fmap.
    assert (Hs : (event_id <$> events s) ++ (Bullet.id <$> l)
                   `sublist_of` (event_id <$> events s) ++ (Bullet.id <$> bullets s)).
    { apply sublist_app; [done|]. by apply fmap_sublist. }
    split; [done|]. split; [by apply (sublist_NoDup _ _ Hd)|].
    rewrite Forall_forall in Hb |- *. intros i Hi. apply Hb.
    by apply (elem_of_sublist _ _ _ Hi).
Qed.

Lemma mutation_bullet_ok m s s' :
  0 ≤ BULLET_MAX_RANGE →
  mutation m s s' → Forall (bullet_ok s) (bullets s) → Forall (bullet_ok s') (bullets s').
Proof.
  intros Hr.
  assert (Hsame : ∀ s1 s2, grid s2 = grid s1 → bullets s2 = bullets s1 →
            Forall (bullet_ok s1) (bullets s1) → Forall (bullet_ok s2) (bullets s2)).
  { intros s1 s2 Hg Hb. unfold bullet_ok. by rewrite Hg, Hb. }
  destruct 1 as [s s' Hw|t f s Hf|t s Hhp|t cond k s Hk|msg s|e s He|b s Hi Hd Hv Hdir Hact
                |l s Hsub Hfl|t x y s Hm|t s Hm];
    try (apply Hsame; by destruct t).
  - unfold world in Hw. apply Hsame; congruence.
  - by apply Hsame.
  - by apply Hsame.
  - intros H. cbn [bullets grid next_id set_events set_bullets].
    apply Forall_app. split; [done|]. apply Forall_singleton.
    split; [|split; [lia|done]].
    unfold isValid in Hv. by apply andb_true_iff in Hv as [Hv _].
  - intros H. cbn [bullets grid set_bullets]. apply Forall_fmap.
    rewrite Forall_forall in H, Hfl |- *. intros b Hb. cbn.
    specialize (Hfl b Hb). apply (elem_of_sublist _ _ _ Hb), H in Hsub.
    destruct Hsub as (Hin & Hdist & Hdir).
    destruct (advance_n_fields (Z.to_nat BULLET_SPEED) b) as (_ & Ed & _ & _ & Edx & Edy & _).
    unfold bullet_ok. rewrite Edx, Edy. split; [|split; [|done]].
    + destruct (Z.to_nat BULLET_SPEED) as [|n] eqn:En; [done|].
      destruct (Hfl (S n)) as [Hv _]; [lia|].
      unfold isValid in Hv. by apply andb_true_iff in Hv as [Hv _].
    + destruct (Z.to_nat BULLET_SPEED) as [|n] eqn:En; [cbn [advance_n]; lia|].
      destruct (Hfl (S n)) as [_ Hle]; [lia|]. rewrite Ed in *. lia.
Qed.

(** ** Positions *)

Lemma clamp_inBounds g x y :
  inBounds g x y = true → clamp_to (width g) x = x ∧ clamp_to (height g) y = y.
Proof.
  unfold inBounds, clamp_to. intros Hv.
  repeat (apply andb_true_iff in Hv as [Hv ?]). lia.
Qed.

Lemma move_outcome_Moved s its t m :
  move_outcome s its t m = Moved →
  isValid (grid s) (targetX m) (targetY m) = true
  ∧ targets m (tanks s (enemyOf t)) = false
  ∧ ∀ m', intent_of its (enemyOf t) = Some m' →
          isValid (grid s) (targetX m') (targetY m') = true →
          (targetX m =? targetX m') && (targetY m =? targetY m') = false.
Proof.
  unfold move_outcome.
  destruct (isValid (grid s) (targetX m) (targetY m)); cbn [negb]; [|done].
  destruct (intent_of its (enemyOf t)) as [m'|].
  - destruct (isValid (grid s) (targetX m') (targetY m')) eqn:V'; cbn [andb].
    + destruct (targets m (tanks s (enemyOf t))) eqn:B; cbn [andb orb].
      * by destruct (targets m' _), (_ && _).
      * destruct ((targetX m =? targetX m') && (targetY m =? targetY m')) eqn:S; [done|].
        intros _. split; [done|]. split; [done|]. intros m2 [= <-] _. done.
    + destruct (targets m (tanks s (enemyOf t))) eqn:B; [done|].
      intros _. split; [done|]. split; [done|]. intros m2 [= <-] V2. congruence.
  - destruct (targets m (tanks s (enemyOf t))) eqn:B; [done|].
    intros _. by repeat split.
Qed.

(** Where [applyMovements] leaves a tank that stood on the board: where
    it was, or on the target of its intent if no rule rejected it. *)
Lemma applyMovements_positions its s s' :
  (∀ t, inBounds (grid s) (Tank.x (tanks s t)) (Tank.y (tanks s t)) = true) →
  applyMovements its s = Some s' →
  grid s' = grid s
  ∧ ∀ t, position (tanks s' t) = position (tanks s t)
         ∨ ∃ m, intent_of its t = Some m ∧ move_outcome s its t m = Moved
                ∧ position (tanks s' t) = (targetX m, targetY m).
Proof.
  intros Hin E.
  destruct (applyMovements_outcomes its s) as (s2 & E2 & Ht & _ & _ & _ & Hc).
  assert (s2 = s') as -> by congruence.
  split; [unfold control in Hc; congruence|].
  intros t. destruct (Ht t) as [Hm _].
  assert (Hcl : clamped s (tanks s t) = position (tanks s t)).
  { unfold clamped, position. by destruct (clamp_inBounds _ _ _ (Hin t)) as [-> ->]. }
  destruct (intent_of its t) as [m|]; cbn [fmap option_fmap option_map] in Hm.
  - destruct (move_outcome s its t m) eqn:Ho; cbn [moved_as] in Hm;
      destruct Hm as [Hp _]; [left; congruence..|].
    right. by exists m.
  - destruct Hm as [Hp _]. left. congruence.
Qed.

Lemma valid_inBounds g x y : isValid g x y = true → inBounds g x y = true.
Proof. unfold isValid. intros H. by apply andb_true_iff in H as [H _]. Qed.

Lemma targets_false m (tk : Tank.t CPU Registers) :
  targets m tk = false → (targetX m, targetY m) ≠ position tk.
Proof.
  unfold targets, position. intros H [= Hx Hy].
  rewrite Hx, Hy, !Z.eqb_refl in H. done.
Qed.

(** A turn on a state with both tanks on the board. *)
Lemma resolveTurn_positions s s' :
  on_board s → resolveTurn s = Some s' →
  on_board s' ∧ (apart s → apart s')
  ∧ ∀ t, position (tanks s' t) = position (tanks s t)
         ∨ (next_to {| targetX := Tank.x (tanks s' t); targetY := Tank.y (tanks s' t) |}
                    (tanks s t)
            ∧ isValid (grid s) (Tank.x (tanks s' t)) (Tank.y (tanks s' t)) = true
            ∧ position (tanks s' t) ≠ position (tanks s (enemyOf t))
            ∧ ∃ dir, pendingActions s t = Some (MOVE dir)).
Proof.
  intros (Hw & Hh & Hin) E.
  destruct (resolveTurn_inv s s' E) as (w & Ew & -> & _).
  destruct (resolve_world_phases _ _ Ew) as (s1 & its & W1 & Em & Hits).
  destruct (writes_still _ _ (begin_turn_writes false s)) as [G0 P0].
  destruct (writes_still _ _ W1) as [G1 P1'].
  destruct (writes_still _ _ (game_over_checks_writes false w)) as [G3 P3].
  assert (Hg1 : grid s1 = grid s) by congruence.
  assert (Hp1 : ∀ t, position (tanks s1 t) = position (tanks s t))
    by (intros t; by rewrite P1', P0).
  assert (Hin1 : ∀ t, inBounds (grid s1) (Tank.x (tanks s1 t)) (Tank.y (tanks s1 t)) = true).
  { intros t. specialize (Hp1 t). unfold position in Hp1. rewrite Hg1.
    assert (Tank.x (tanks s1 t) = Tank.x (tanks s t)) as -> by congruence.
    assert (Tank.y (tanks s1 t) = Tank.y (tanks s t)) as -> by congruence. apply Hin. }
  destruct (applyMovements_positions its s1 w Hin1 Em) as [G2 Hmv].
  assert (Hgf : grid (set_pendingActions None None (game_over_checks w)) = grid s)
    by (cbn [grid set_pendingActions]; congruence).
  assert (Hpf : ∀ t, position (tanks (set_pendingActions None None (game_over_checks w)) t)
                     = position (tanks w t)).
  { intros t. rewrite <- (P3 t). by destruct t. }
  assert (Hcase : ∀ t, position (tanks w t) = position (tanks s t)
            ∨ ∃ m, intent_of its t = Some m ∧ move_outcome s1 its t m = Moved
                   ∧ position (tanks w t) = (targetX m, targetY m)).
  { intros t. destruct (Hmv t) as [H|H]; [left; by rewrite H|by right]. }
  split; [|split].
  - split; [by rewrite Hgf|]. split; [by rewrite Hgf|].
    { intros t. rewrite Hgf. specialize (Hpf t). unfold position in Hpf.
      assert (Tank.x (tanks (set_pendingActions None None (game_over_checks w)) t)
              = Tank.x (tanks w t)) as -> by congruence.
      assert (Tank.y (tanks (set_pendingActions None None (game_over_checks w)) t)
              = Tank.y (tanks w t)) as -> by congruence.
      destruct (Hcase t) as [H|(m & _ & Ho & H)]; unfold position in H.
      * assert (Tank.x (tanks w t) = Tank.x (tanks s t)) as -> by congruence.
        assert (Tank.y (tanks w t) = Tank.y (tanks s t)) as -> by congruence. apply Hin.
      * assert (Tank.x (tanks w t) = targetX m) as -> by congruence.
        assert (Tank.y (tanks w t) = targetY m) as -> by congruence.
        apply move_outcome_Moved in Ho as [Hv _]. rewrite <- Hg1. by apply valid_inBounds. }
  - unfold apart. intros Hap. rewrite !Hpf.
    destruct (Hcase P1) as [H1|(m1 & I1 & O1 & H1)];
    destruct (Hcase P2) as [H2|(m2 & I2 & O2 & H2)]; rewrite H1, H2.
    + done.
    + apply move_outcome_Moved in O2 as (_ & B & _). cbn [enemyOf] in B.
      apply targets_false in B. rewrite Hp1 in B. congruence.
    + apply move_outcome_Moved in O1 as (_ & B & _). cbn [enemyOf] in B.
      apply targets_false in B. rewrite Hp1 in B. congruence.
    + apply move_outcome_Moved in O1 as (_ & _ & S).
      apply move_outcome_Moved in O2 as (V2 & _ & _).
      specialize (S m2 I2 V2). intros [= Hx Hy].
      rewrite Hx, Hy, !Z.eqb_refl in S. done.
  - intros t. rewrite Hpf.
    destruct (Hcase t) as [H|(m & I & Ho & H)]; [by left|right].
    destruct (Hits t m I) as [Hdir Hn].
    apply move_outcome_Moved in Ho as (V & B & _).
    apply targets_false in B. rewrite Hp1 in B.
    assert (Hxy : Tank.x (tanks (set_pendingActions None None (game_over_checks w)) t)
                  = targetX m
                  ∧ Tank.y (tanks (set_pendingActions None None (game_over_checks w)) t)
                    = targetY m).
    { specialize (Hpf t). unfold position in Hpf, H. split; congruence. }
    destruct Hxy as [-> ->]. split.
    { unfold next_to in *. cbn [targetX targetY]. specialize (Hp1 t). unfold position in Hp1.
      assert (Tank.x (tanks s t) = Tank.x (tanks s1 t)) as -> by congruence.
      assert (Tank.y (tanks s t) = Tank.y (tanks s1 t)) as -> by congruence. done. }
    split; [by rewrite <- Hg1|]. split; [by rewrite H|].
    destruct Hdir as [dir Hdir]. exists dir. rewrite <- Hdir. by destruct t.
Qed.

Lemma on_board_same s s' :
  grid s' = grid s → (∀ t, position (tanks s' t) = position (tanks s t)) →
  (on_board s → on_board s') ∧ (apart s → apart s').
Proof.
  intros Hg Hp. unfold on_board, apart. rewrite Hg, !Hp. split; [|done].
  intros (Hw & Hh & Hin). split; [done|]. split; [done|]. intros t.
  specialize (Hp t). unfold position in Hp.
  assert (Tank.x (tanks s' t) = Tank.x (tanks s t)) as -> by congruence.
  assert (Tank.y (tanks s' t) = Tank.y (tanks s t)) as -> by congruence. apply Hin.
Qed.

Lemma on_board_reset s :
  start_on_board → width (grid s) = GRID_WIDTH → height (grid s) = GRID_HEIGHT →
  on_board (resetTurnState s) ∧ (start_apart → apart (resetTurnState s)).
Proof.
  intros Hs Hw Hh. split.
  - split; [done|]. split; [done|]. intros t. unfold inBounds.
    cbn [grid resetTurnState]. rewrite Hw, Hh. destruct (Hs t) as [Hx Hy].
    destruct t; cbn; repeat (apply andb_true_iff; split); lia.
  - intros Ha. exact Ha.
Qed.

Lemma reachable_on_board s :
  start_on_board → reachable s → on_board s ∧ (start_apart → apart s).
Proof.
  intros Hs.
  induction 1 as [|level s _ IH|a b s _ IH|s _ IH|t s _ IH|s s' _ IH E].
  - split; [|intros Ha; exact Ha].
    split; [done|]. split; [done|]. intros t. unfold inBounds. destruct (Hs t) as [Hx Hy].
    destruct t; cbn; repeat (apply andb_true_iff; split); lia.
  - destruct (setupArena_dims level s) as [Hw Hh]. destruct IH as [(Iw & Ih & Iin) Iap].
    split; [|exact Iap]. split; [congruence|]. split; [congruence|].
    intros t. specialize (Iin t). unfold inBounds in *. rewrite Hw, Hh. exact Iin.
  - unfold loadCode.
    destruct (compile "P1" a) as [p1|m]; [|done].
    assert (Hi : ∀ t p s1, (on_board s1 → on_board (install t p s1))
                           ∧ (apart s1 → apart (install t p s1))).
    { intros t p s1. apply on_board_same; [by destruct t|]. intros u. by destruct t, u. }
    destruct (compile "P2" b) as [p2|m]; cbn [fst].
    + destruct IH as [(Iw & Ih & _) _]. apply (on_board_reset _ Hs).
      * exact Iw.
      * exact Ih.
    + destruct IH as [I1 I2]. destruct (Hi P1 p1 s) as [H1 H2]. split; [by apply H1|].
      intros Ha. by apply H2, I2.
  - destruct IH as [(Iw & Ih & _) _]. by apply on_board_reset.
  - destruct (writes_still _ _ (stepCPU_writes false t s)) as [Hg Hp].
    destruct (on_board_same _ _ Hg Hp) as [H1 H2]. destruct IH as [I1 I2].
    split; [by apply H1|]. intros Ha. by apply H2, I2.
  - destruct IH as [I1 I2]. destruct (resolveTurn_positions s s' I1 E) as (H1 & H2 & _).
    split; [done|]. intros Ha. by apply H2, I2.
Qed.

(** X1. In every state the public methods can reach, the fields of a tank
    are in the ranges the JSDoc of [Tank] documents: [x] and [y] are cell
    coordinates of the grid, [facing] is one of the four directions and
    [hp] lies between 0 and [INITIAL_HP].  The constants are assumed to put
    the start cells on the grid, the start facings among the directions and
    [INITIAL_HP] at 0 or more. *)
Theorem tank_fields_in_range s :
  start_on_board → valid_start → 0 ≤ INITIAL_HP → reachable s →
  ∀ t, 0 ≤ Tank.x (tanks s t) < GRID_WIDTH
       ∧ 0 ≤ Tank.y (tanks s t) < GRID_HEIGHT
       ∧ 0 ≤ Tank.facing (tanks s t) < 4
       ∧ 0 ≤ Tank.hp (tanks s t) ≤ INITIAL_HP.
Proof.
  intros Hs Hv Hhp Hr t.
  destruct (reachable_on_board s Hs Hr) as [(Hw & Hh & Hin) _].
  specialize (Hin t). unfold inBounds in Hin. rewrite Hw, Hh in Hin.
  repeat (apply andb_true_iff in Hin as [Hin ?]).
  destruct (reachable_well_formed s Hv Hr t) as [Hf _].
  assert (Hrange : ∀ u, 0 ≤ Tank.hp (tanks s u) ≤ INITIAL_HP).
  { clear -Hhp Hr. revert s Hr.
    apply (reachable_by_writes (λ s, ∀ u, 0 ≤ Tank.hp (tanks s u) ≤ INITIAL_HP)).
    - by intros [].
    - done.
    - intros s0 _ []; cbn; lia.
    - intros s0 s1 I0 Hm u. destruct (mutation_hp _ _ _ Hm u). specialize (I0 u). lia. }
  specialize (Hrange t). lia.
Qed.

(** X2. The two tanks never stand on the same cell, alive or destroyed:
    this holds in every reachable state, provided the two start cells are
    on the grid and differ. *)
Theorem tanks_never_share_a_cell s :
  start_on_board → start_apart → reachable s →
  position (tanks s P1) ≠ position (tanks s P2).
Proof. intros Hs Ha Hr. by apply (reachable_on_board s Hs Hr). Qed.

(** X3. A turn moves a tank by at most one cell.  A tank either stays
    where it was, or it had a MOVE pending and ends on one of the four
    cells next to its old one; that cell is inside the grid, is not a wall
    and is not the cell the other tank stood on when the turn began. *)
Theorem turn_moves_one_cell s s' :
  start_on_board → reachable s → resolveTurn s = Some s' →
  ∀ t, position (tanks s' t) = position (tanks s t)
       ∨ (Z.abs (Tank.x (tanks s' t) - Tank.x (tanks s t))
          + Z.abs (Tank.y (tanks s' t) - Tank.y (tanks s t)) = 1
          ∧ isValid (grid s) (Tank.x (tanks s' t)) (Tank.y (tanks s' t)) = true
          ∧ position (tanks s' t) ≠ position (tanks s (enemyOf t))
          ∧ ∃ dir, pendingActions s t = Some (MOVE dir)).
Proof.
  intros Hs Hr E t. destruct (reachable_on_board s Hs Hr) as [Hb _].
  destruct (resolveTurn_positions s s' Hb E) as (_ & _ & H). exact (H t).
Qed.

Lemma reachable_ids_fresh s : reachable s → ids_fresh s.
Proof.
  revert s. apply (reachable_by_writes ids_fresh).
  - split; [done|]. split; [apply NoDup_nil_2|apply Forall_nil_2].
  - intros level s. by apply ids_fresh_same.
  - intros s (H0 & _). split; [done|]. split; [apply NoDup_nil_2|apply Forall_nil_2].
  - intros s s' Hi Hm. by apply (mutation_ids_fresh _ _ _ Hm).
Qed.

(** X4. Event ids and bullet ids come from one counter that is never
    reset: in every reachable state the ids of the recorded events and of
    the live bullets are pairwise distinct, non-negative and below
    [eventIdCounter]. *)
Theorem ids_unique_below_counter s :
  reachable s →
  0 ≤ eventIdCounter s
  ∧ NoDup ((event_id <$> events s) ++ (Bullet.id <$> bullets s))
  ∧ Forall (λ i, 0 ≤ i < eventIdCounter s)
           ((event_id <$> events s) ++ (Bullet.id <$> bullets s)).
Proof. apply reachable_ids_fresh. Qed.

(** X5. Every live bullet of a reachable state is on a cell of the grid,
    has travelled between 0 and [BULLET_MAX_RANGE] cells and flies in one
    of the four directions of [DIRS] (provided [BULLET_MAX_RANGE] is not
    negative). *)
Theorem live_bullets_in_range s :
  0 ≤ BULLET_MAX_RANGE → reachable s →
  ∀ b, b ∈ bullets s →
    inBounds (grid s) (Bullet.x b) (Bullet.y b) = true
    ∧ 0 ≤ Bullet.dist b ≤ BULLET_MAX_RANGE
    ∧ ∃ f, DIRS f = Some (Bullet.dx b, Bullet.dy b).
Proof.
  intros Hr Hs. apply (Forall_forall (bullet_ok s)). revert s Hs.
  apply (reachable_by_writes (λ s, Forall (bullet_ok s) (bullets s))).
  - apply Forall_nil_2.
  - intros level s H. destruct (setupArena_dims level s) as [Hw Hh].
    eapply Forall_impl; [exact H|]. intros b. unfold bullet_ok, inBounds.
    by rewrite Hw, Hh.
  - intros s _. apply Forall_nil_2.
  - intros s s' H Hm. by apply (mutation_bullet_ok _ _ _ Hr Hm).
Qed.

Lemma host_step_writes s s' : host_step s = Some s' → rtc (mutation true) s s'.
Proof.
  unfold host_step. intros E.
  set (s1 := if turn_ready s P1 then s else (stepCPU P1 s).1) in *.
  set (s2 := if turn_ready s1 P2 then s1 else (stepCPU P2 s1).1) in *.
  assert (H1 : rtc (mutation true) s s1).
  { unfold s1. destruct (turn_ready s P1); [done|apply stepCPU_writes]. }
  assert (H2 : rtc (mutation true) s1 s2).
  { unfold s2. destruct (turn_ready s1 P2); [done|apply stepCPU_writes]. }
  etrans; [exact H1|]. etrans; [exact H2|].
  destruct (_ && _); [by apply resolveTurn_writes|by injection E as <-].
Qed.

Lemma host_steps_writes n s s' : host_steps n s = Some s' → rtc (mutation true) s s'.
Proof.
  revert s. induction n as [|n IH]; intros s E; [by injection E as <-|].
  cbn [host_steps] in E. destruct (host_step s) as [s1|] eqn:E1; [|done].
  cbn [mbind option_bind] in E. etrans; [by apply host_step_writes|by apply IH].
Qed.

(** ** Damage *)

Lemma bullet_substep_hp s b u :
  Tank.hp (tanks (bullet_substep s b).1.1 u) = Tank.hp (tanks s u)
  ∨ (u = enemyOf (Bullet.owner b) ∧ (bullet_substep s b).2 = false
     ∧ Tank.hp (tanks (bullet_substep s b).1.1 u) = Tank.hp (tanks s u) - 1).
Proof.
  rewrite bullet_substep_cases. cbn zeta.
  destruct (_ <? _); [by left|]. destruct (negb _); [by left|].
  destruct (alive_at _ _ _); [|by left]. cbn [fst snd].
  destruct (decide (u = enemyOf (Bullet.owner b))) as [->|Hne].
  - right. split; [done|]. split; [done|]. by destruct (enemyOf (Bullet.owner b)).
  - left. by destruct (enemyOf (Bullet.owner b)), u.
Qed.

Lemma bullet_loop_hp n s b a u :
  Tank.hp (tanks s u) - (if decide (u = enemyOf (Bullet.owner b)) then 1 else 0)
  ≤ Tank.hp (tanks (bullet_loop n s b a).1.1 u).
Proof.
  revert s b a. induction n as [|n IH]; intros s b a.
  { cbn. destruct (decide _); lia. }
  cbn [bullet_loop]. destruct a; [|cbn; destruct (decide _); lia].
  pose proof (bullet_substep_hp s b u) as Hs.
  pose proof (bullet_substep_owner s b) as Ho.
  destruct (bullet_substep s b) as [[s1 b1] a1]. cbn [fst snd] in Hs, Ho.
  destruct Hs as [Hs|(-> & -> & Hs)].
  - specialize (IH s1 b1 a1). rewrite Ho in IH. lia.
  - rewrite bullet_loop_inactive. cbn [fst]. rewrite decide_True by done. lia.
Qed.

Lemma owner_count_cons t b l :
  owner_count t (b :: l)
  = ((if decide (Bullet.owner b = t) then 1 else 0) + owner_count t l)%nat.
Proof.
  change (b :: l) with ([b] ++ l). by rewrite owner_count_app, owner_count_single.
Qed.

Lemma bullet_fold_hp l s acc u :
  Tank.hp (tanks s u) - Z.of_nat (owner_count (enemyOf u) l)
  ≤ Tank.hp (tanks (foldl bullet_turn (s, acc) l).1 u).
Proof.
  revert s acc. induction l as [|b l IH]; intros s acc.
  { cbn. lia. }
  cbn [foldl].
  assert (Hbt : bullet_turn (s, acc) b =
                let r := bullet_loop (Z.to_nat BULLET_SPEED) s b true in
                (r.1.1, if r.2 then acc ++ [r.1.2] else acc)).
  { unfold bullet_turn. by destruct (bullet_loop _ _ _ _) as [[??]?]. }
  rewrite Hbt. clear Hbt. cbn zeta.
  pose proof (bullet_loop_hp (Z.to_nat BULLET_SPEED) s b true u) as Hl.
  specialize (IH (bullet_loop (Z.to_nat BULLET_SPEED) s b true).1.1
                 (if (bullet_loop (Z.to_nat BULLET_SPEED) s b true).2
                  then acc ++ [(bullet_loop (Z.to_nat BULLET_SPEED) s b true).1.2] else acc)).
  rewrite owner_count_cons.
  destruct (decide (u = enemyOf (Bullet.owner b))) as [Hu|Hu];
    destruct (decide (Bullet.owner b = enemyOf u)) as [Ho|Ho]; try lia;
    exfalso; destruct u, (Bullet.owner b); done.
Qed.

Lemma updateBullets_hp s u :
  Tank.hp (tanks s u) - Z.of_nat (owner_count (enemyOf u) (bullets s))
  ≤ Tank.hp (tanks (updateBullets s) u).
Proof.
  unfold updateBullets.
  pose proof (bullet_fold_hp (bullets s) s [] u) as H.
  destruct (foldl _ _ _) as [s1 surv]. cbn [fst] in H. by destruct u.
Qed.

Lemma sensors_vitals t a s s' u :
  resolve_sensor_scan t a s = Some s' ∨ resolve_sensor_ping t a s = Some s' →
  vitals (tanks s' u) = vitals (tanks s u).
Proof.
  intros [E|E]; destruct a as [[]|]; cbn [resolve_sensor_scan resolve_sensor_ping] in E;
    try (by injection E as <-).
  - unfold resolveScan in E.
    destruct (DIRS _) as [dir|]; [|done]. cbn [mbind option_bind] in E.
    destruct (Tank.cpu _) as [c|]; [|done]. cbn [mbind option_bind] in E.
    assert (s' = _) as -> by (symmetry; injection E; intros H; exact H).
    by destruct t, u.
  - unfold resolvePing in E.
    destruct (Tank.cpu _) as [c|]; [|done]. cbn [mbind option_bind] in E.
    destruct (_ <? _);
      (assert (s' = _) as -> by (symmetry; injection E; intros H; exact H));
      by destruct t, u.
Qed.

Lemma fire_hp t s s' u :
  fire t s = Some s' →
  Tank.hp (tanks s u) - (if decide (u = enemyOf t) then 1 else 0) ≤ Tank.hp (tanks s' u).
Proof.
  unfold fire. intros E.
  assert (Hk : ∀ s1, Tank.hp (tanks s1 u) = Tank.hp (tanks s u) ∨
                     (u = enemyOf t ∧ Tank.hp (tanks s1 u) = Tank.hp (tanks s u) - 1) →
                     Tank.hp (tanks s u) - (if decide (u = enemyOf t) then 1 else 0)
                     ≤ Tank.hp (tanks s1 u)).
  { intros s1 [->|[Hu ->]]; destruct (decide _); try done; lia. }
  destruct (hasActiveBullet _ _).
  { assert (s' = _) as -> by (symmetry; injection E; intros H; exact H).
    apply Hk. left. by destruct t, u. }
  destruct (DIRS _) as [dir|]; [|done]. cbn [mbind option_bind] in E.
  destruct (negb _).
  { assert (s' = _) as -> by (symmetry; injection E; intros H; exact H).
    apply Hk. left. by destruct t, u. }
  destruct (alive_at _ _ _);
    (assert (s' = _) as -> by (symmetry; injection E; intros H; exact H)); apply Hk.
  - destruct (decide (u = enemyOf t)) as [->|Hne]; [right|left]; [by destruct t|].
    by destruct t, u.
  - left. by destruct t, u.
Qed.

Lemma resolveAction_hp t a s its s' its' u :
  resolveAction t a (s, its) = Some (s', its') →
  Tank.hp (tanks s u) - (if decide (u = enemyOf t) then if is_FIRE a then 1 else 0 else 0)
  ≤ Tank.hp (tanks s' u).
Proof.
  unfold resolveAction. intros E.
  destruct a as [[]|]; cbn [is_FIRE];
    try (assert (s' = s) as -> by congruence; destruct (decide _); lia).
  - destruct (DIRS _) as [d|]; [|done]. cbn [mbind option_bind] in E.
    assert (s' = s) as -> by congruence. destruct (decide _); lia.
  - simplify_eq. unfold turn.
    assert (Tank.hp (tanks (_logTick t (tankId_name t +:+ " turns "
                +:+ (if bool_decide (dir = "LEFT") then "left" else "right"))
              (upd_tank t (λ tk, if bool_decide (dir = "RIGHT")
                                 then Tank.set_facing (Z.rem (Tank.facing tk + 1) 4) tk else tk)
                 (upd_tank t (λ tk, if bool_decide (dir = "LEFT")
                                    then Tank.set_facing (Z.rem (Tank.facing tk + 3) 4) tk
                                    else tk) s))) u) = Tank.hp (tanks s u)) as ->
      by (by destruct t, u, (bool_decide (dir = "LEFT")), (bool_decide (dir = "RIGHT"))).
    destruct (decide _); lia.
  - destruct (fire t s) as [s1|] eqn:F; [|done]. cbn [mbind option_bind] in E.
    assert (s' = s1) as -> by congruence. by apply fire_hp.
Qed.

Lemma reachable_one_bullet_each s : reachable s → one_bullet_each s.
Proof.
  induction 1 as [|level s _ IH|a b s _ IH|s _ IH|t s _ IH|s s' _ IH E].
  - intros t. cbn. lia.
  - exact IH.
  - by apply loadCode_one_bullet_each.
  - intros t. cbn. lia.
  - intros u. rewrite stepCPU_bullets. apply IH.
  - by apply (resolveTurn_one_bullet_each s s').
Qed.

Lemma resolve_world_hp s w u :
  resolve_world s = Some w →
  Tank.hp (tanks s u) - threat s u ≤ Tank.hp (tanks w u).
Proof.
  unfold resolve_world, threat. intros E.
  assert (Hv : ∀ t a s1 s2,
            resolve_sensor_scan t a s1 = Some s2 ∨ resolve_sensor_ping t a s1 = Some s2 →
            Tank.hp (tanks s2 u) = Tank.hp (tanks s1 u)).
  { intros t a s1 s2 H. apply (sensors_vitals t a s1 s2 u) in H. unfold vitals in H.
    congruence. }
  destruct (resolve_sensor_scan P1 _ _) as [s1|] eqn:E1; [|done]. cbn [mbind option_bind] in E.
  destruct (resolve_sensor_scan P2 _ _) as [s2|] eqn:E2; [|done]. cbn [mbind option_bind] in E.
  destruct (resolve_sensor_ping P1 _ _) as [s3|] eqn:E3; [|done]. cbn [mbind option_bind] in E.
  destruct (resolve_sensor_ping P2 _ _) as [s4|] eqn:E4; [|done]. cbn [mbind option_bind] in E.
  destruct (resolveAction P1 _ _) as [[s5 i5]|] eqn:E5; [|done]. cbn [mbind option_bind] in E.
  destruct (resolveAction P2 _ _) as [[s6 i6]|] eqn:E6; [|done]. cbn [mbind option_bind] in E.
  cbn [fst snd] in E.
  pose proof (updateBullets_hp s u) as H0.
  pose proof (Hv _ _ _ _ (or_introl E1)) as H1. pose proof (Hv _ _ _ _ (or_introl E2)) as H2.
  pose proof (Hv _ _ _ _ (or_intror E3)) as H3. pose proof (Hv _ _ _ _ (or_intror E4)) as H4.
  pose proof (resolveAction_hp _ _ _ _ _ _ u E5) as H5.
  pose proof (resolveAction_hp _ _ _ _ _ _ u E6) as H6.
  destruct (applyMovements_outcomes i6 s6) as (w' & Ew & Ht & _).
  assert (w' = w) as -> by congruence.
  destruct (Ht u) as [_ Hrest]. unfold tank_rest in Hrest.
  assert (Tank.hp (tanks w u) = Tank.hp (tanks s6 u)) as -> by congruence.
  destruct u; cbn [enemyOf] in *;
    repeat match goal with H : context [decide ?P] |- _ => destruct (decide P); [|done] end;
    repeat match goal with H : context [decide ?P] |- _ => destruct (decide P); [done|] end;
    destruct (is_FIRE (pendingActions s P1)), (is_FIRE (pendingActions s P2)); lia.
Qed.

(** X7. A turn never raises a tank's HP, and lowers it by at most one
    point for each bullet of the enemy that was in flight when the turn
    began, plus one if the enemy's pending action is FIRE: a tank is never
    hurt by its own bullet or shot.  In a reachable state, where each tank
    has at most one bullet in flight, a tank loses at most 2 HP per
    turn. *)
Theorem turn_damage_bound :
  (∀ s s' t, resolveTurn s = Some s' →
     Tank.hp (tanks s t) - threat s t ≤ Tank.hp (tanks s' t) ≤ Tank.hp (tanks s t))
  ∧ (∀ s s' t, reachable s → resolveTurn s = Some s' →
       Tank.hp (tanks s t) - 2 ≤ Tank.hp (tanks s' t)).
Proof.
  assert (Hturn : ∀ s s' t, resolveTurn s = Some s' →
            Tank.hp (tanks s t) - threat s t ≤ Tank.hp (tanks s' t) ≤ Tank.hp (tanks s t)).
  { intros s s' t E. split; [|by apply (writes_hp true), resolveTurn_writes].
    destruct (resolveTurn_inv s s' E) as (w & Ew & -> & _).
    apply (resolve_world_hp _ _ t) in Ew.
    destruct (game_over_checks_verdict w) as [Hv _]. unfold verdict_inputs in Hv.
    assert (Tank.hp (tanks (set_pendingActions None None (game_over_checks w)) t)
            = Tank.hp (tanks w t)) as ->.
    { destruct t; cbn [tanks set_pendingActions tanks_P1 tanks_P2]; congruence. }
    assert (threat (begin_turn s) t = threat s t) as Ht by (by destruct t).
    assert (Tank.hp (tanks (begin_turn s) t) = Tank.hp (tanks s t)) as Hh by (by destruct t).
    lia. }
  split; [exact Hturn|].
  intros s s' t Hr E. destruct (Hturn s s' t E) as [H _].
  pose proof (reachable_one_bullet_each s Hr (enemyOf t)) as Hc.
  unfold threat in H. destruct (is_FIRE _); lia.
Qed.

(** ** CPU steps and the arena *)

Lemma stepCPU_leaves_the_arena_aux t s :
  isGameOver (stepCPU t s).1 = isGameOver s
  ∧ turnCount (stepCPU t s).1 = turnCount s
  ∧ Tank.hp (tanks (stepCPU t s).1 P1) = Tank.hp (tanks s P1)
  ∧ Tank.hp (tanks (stepCPU t s).1 P2) = Tank.hp (tanks s P2).
Proof.
  unfold stepCPU. destruct (Tank.cpu _) as [c|]; [|done].
  destruct (_ <=? _); [done|].
  destruct (step _) as [[r|] c']; [destruct r|]; by destruct t.
Qed.

(** X8. A CPU step is invisible in the arena: it leaves the grid, the
    bullets, the events, the log, the event counter, the game-over flag,
    the winner and the turn count as they are, does not touch the other
    tank, its pending action or its op count, and keeps position, facing
    and HP of the tank that steps. *)
Theorem stepCPU_leaves_the_arena (t : TankId) s :
  let s' := (stepCPU t s).1 in
  grid s' = grid s ∧ bullets s' = bullets s ∧ events s' = events s
  ∧ log s' = log s ∧ eventIdCounter s' = eventIdCounter s
  ∧ isGameOver s' = isGameOver s ∧ winner s' = winner s
  ∧ turnCount s' = turnCount s ∧ MAX_OPS s' = MAX_OPS s
  ∧ vitals (tanks s' t) = vitals (tanks s t)
  ∧ tanks s' (enemyOf t) = tanks s (enemyOf t)
  ∧ pendingActions s' (enemyOf t) = pendingActions s (enemyOf t)
  ∧ turnOps s' (enemyOf t) = turnOps s (enemyOf t).
Proof.
  cbn zeta. unfold stepCPU. destruct (Tank.cpu _) as [c|]; [|by destruct t].
  destruct (_ <=? _); [by destruct t|].
  destruct (step _) as [[r|] c']; [destruct r|]; by destruct t.
Qed.

(** ** Game over *)

Lemma resolveTurn_tanks_hp_alive s s' :
  resolveTurn s = Some s' →
  (isGameOver s', winner s') =
    (if (Tank.hp (tanks s' P1) <=? 0) && (Tank.hp (tanks s' P2) <=? 0) then (true, Some "DRAW")
     else if Tank.hp (tanks s' P1) <=? 0 then (true, Some "P2")
     else if Tank.hp (tanks s' P2) <=? 0 then (true, Some "P1")
     else if isGameOver s then (true, winner s)
     else if is_HALT (pendingActions s P1) && is_HALT (pendingActions s P2)
          then (true, Some "DRAW (STALEMATE)")
     else if MAX_TURNS <=? turnCount s + 1 then (true, Some "DRAW (TURN LIMIT)")
     else (false, winner s))
  ∧ turnCount s' = turnCount s + 1.
Proof. intros E. by destruct (resolveTurn_verdict s s' E) as (? & _ & _ & ?). Qed.

Lemma stepCPU_wreck t s u :
  Tank.hp (tanks s u) ≤ 0 → pendingActions (stepCPU t s).1 u = pendingActions s u.
Proof.
  intros Hu. unfold stepCPU. destruct (Tank.cpu _) as [c|]; [|done].
  destruct (_ <=? _) eqn:Hhp; [done|]. apply Z.leb_gt in Hhp.
  destruct (decide (u = t)) as [->|Hne]; [lia|].
  destruct (step _) as [[r|] c']; [destruct r|]; by destruct t, u.
Qed.

(** X9. In a reachable state whose game is not over both tanks are alive
    and fewer than [MAX_TURNS] turns have been played; the turn count is
    never negative; and a destroyed tank has no pending action.
    ([INITIAL_HP] and [MAX_TURNS] are assumed positive.) *)
Theorem unfinished_game_invariant s :
  0 < INITIAL_HP → 0 < MAX_TURNS → reachable s →
  0 ≤ turnCount s
  ∧ (isGameOver s = false →
     0 < Tank.hp (tanks s P1) ∧ 0 < Tank.hp (tanks s P2) ∧ turnCount s < MAX_TURNS)
  ∧ (∀ t, Tank.hp (tanks s t) ≤ 0 → pendingActions s t = None).
Proof.
  intros Hhp Hmax.
  induction 1 as [|level s _ IH|a b s _ IH|s _ IH|t s _ IH|s s' _ IH E].
  - cbn. split; [lia|]. split; [lia|]. by intros [].
  - exact IH.
  - unfold loadCode.
    destruct (compile "P1" a) as [p1|m]; [|done].
    destruct (compile "P2" b) as [p2|m]; cbn [fst].
    + cbn. split; [lia|]. split; [lia|]. by intros [].
    + destruct IH as (I1 & I2 & I3). split; [done|]. split; [done|].
      intros u Hu. destruct u; [apply (I3 P1)|apply (I3 P2)]; exact Hu.
  - cbn. split; [lia|]. split; [lia|]. by intros [].
  - destruct (stepCPU_leaves_the_arena_aux t s) as (Hg & Hc & H1 & H2).
    rewrite Hg, Hc, H1, H2. destruct IH as (I1 & I2 & I3).
    split; [done|]. split; [done|]. intros u Hu.
    assert (Tank.hp (tanks s u) ≤ 0) as Hu' by (destruct u; cbn [tanks] in *; lia).
    rewrite stepCPU_wreck by done. by apply I3.
  - destruct (resolveTurn_verdict s s' E) as (Hv & P1n & P2n & Hc). split; [lia|]. split.
    + intros Hno. rewrite Hno in Hv.
      destruct (Tank.hp (tanks s' P1) <=? 0) eqn:A1;
        destruct (Tank.hp (tanks s' P2) <=? 0) eqn:A2; cbn [andb] in Hv; try done.
      destruct (isGameOver s); [done|]. destruct (_ && _); [done|].
      destruct (MAX_TURNS <=? turnCount s + 1) eqn:A3; [done|]. lia.
    + by intros [].
Qed.

(** X10. Nothing but a reset reopens a finished game: [stepCPU],
    [setupArena] and [resolveTurn] keep [isGameOver] true.  A later turn
    (the Step handler still resolves turns after the end) keeps the winner
    too as long as both tanks are alive after it, and otherwise replaces
    it by the verdict of the destruction check. *)
Theorem game_over_persists :
  (∀ t s, isGameOver s = true → isGameOver (stepCPU t s).1 = true)
  ∧ (∀ level s, isGameOver s = true → isGameOver (setupArena level s) = true)
  ∧ (∀ s s', isGameOver s = true → resolveTurn s = Some s' →
       isGameOver s' = true
       ∧ (0 < Tank.hp (tanks s' P1) → 0 < Tank.hp (tanks s' P2) → winner s' = winner s)
       ∧ (Tank.hp (tanks s' P1) ≤ 0 ∨ Tank.hp (tanks s' P2) ≤ 0 →
          winner s' = Some (if Tank.hp (tanks s' P1) <=? 0
                            then if Tank.hp (tanks s' P2) <=? 0 then "DRAW" else "P2"
                            else "P1"))).
Proof.
  split; [|split].
  - intros t s H. destruct (stepCPU_leaves_the_arena_aux t s) as (-> & _). exact H.
  - done.
  - intros s s' H E. destruct (resolveTurn_tanks_hp_alive s s' E) as [Hv _].
    rewrite H in Hv.
    destruct (Tank.hp (tanks s' P1) <=? 0) eqn:A1;
      destruct (Tank.hp (tanks s' P2) <=? 0) eqn:A2; cbn [andb] in Hv;
      injection Hv as -> ->; (split; [done|]); (split; [intros; try lia|intros; try lia]);
      done.
Qed.

(** ** Rotation *)

Lemma turn_back (a b : Z) (tk : Tank.t CPU Registers) :
  0 ≤ Tank.facing tk < 4 → (a = 1 ∧ b = 3) ∨ (a = 3 ∧ b = 1) →
  turn true b (turn true a tk) = tk.
Proof.
  intros Hf Hab. unfold turn. destruct tk as [x y f hp c la lf pc ir rg to tt].
  cbn [Tank.facing Tank.set_facing Tank.x Tank.y Tank.hp Tank.cpu Tank.lastAction
       Tank.lastFeedback Tank.debugPC Tank.debugIR Tank.debugRegisters Tank.turnOps
       Tank.totalOps] in *.
  f_equal.
  assert (f = 0 ∨ f = 1 ∨ f = 2 ∨ f = 3) as [->|[->|[->| ->]]] by lia;
    destruct Hab as [[-> ->]|[-> ->]]; reflexivity.
Qed.

Lemma upd_tank_upd_tank t f g s :
  upd_tank t g (upd_tank t f s) = upd_tank t (λ tk, g (f tk)) s.
Proof. by destruct t. Qed.

Lemma upd_tank_id t f s : f (tanks s t) = tanks s t → upd_tank t f s = s.
Proof. intros H. destruct t, s; cbn in *; by rewrite H. Qed.

Lemma rotate_step t d s its :
  resolveAction t (Some (ROTATE d)) (s, its)
  = Some (_logTick t (tankId_name t +:+ " turns "
                      +:+ (if bool_decide (d = "LEFT") then "left" else "right"))
            (upd_tank t (λ tk, turn (bool_decide (d = "RIGHT")) 1
                                 (turn (bool_decide (d = "LEFT")) 3 tk)) s), its).
Proof. unfold resolveAction. by rewrite upd_tank_upd_tank. Qed.

(** X11. ROTATE LEFT and ROTATE RIGHT undo each other: resolving one and
    then the other for a tank whose facing is a direction gives back the
    engine it started from, two log lines apart; LEFT takes facing [f] to
    [(f + 3) mod 4] and RIGHT to [(f + 1) mod 4].  A ROTATE whose [dir] is
    neither LEFT nor RIGHT turns nothing and is logged as a right turn. *)
Theorem rotate_left_right_inverse (t : TankId) s (its : Intents) :
  0 ≤ Tank.facing (tanks s t) < 4 →
  (∀ d1 d2, (d1 = "LEFT" ∧ d2 = "RIGHT") ∨ (d1 = "RIGHT" ∧ d2 = "LEFT") →
     ∃ s1 s2,
       resolveAction t (Some (ROTATE d1)) (s, its) = Some (s1, its)
       ∧ resolveAction t (Some (ROTATE d2)) (s1, its) = Some (s2, its)
       ∧ Tank.facing (tanks s1 t)
         = (Tank.facing (tanks s t) + (if bool_decide (d1 = "LEFT") then 3 else 1)) `mod` 4
       ∧ s2 = set_log (log s ++ [tick_line t (tankId_name t +:+ " turns "
                                    +:+ (if bool_decide (d1 = "LEFT") then "left" else "right")) s;
                                 tick_line t (tankId_name t +:+ " turns "
                                    +:+ (if bool_decide (d2 = "LEFT") then "left" else "right")) s]) s)
  ∧ (∀ d, d ≠ "LEFT" → d ≠ "RIGHT" →
       resolveAction t (Some (ROTATE d)) (s, its)
       = Some (set_log (log s ++ [tick_line t (tankId_name t +:+ " turns right") s]) s, its)).
Proof.
  intros Hf.
  assert (HLL : bool_decide ("LEFT" = "LEFT") = true) by done.
  assert (HRR : bool_decide ("RIGHT" = "RIGHT") = true) by done.
  assert (HLR : bool_decide ("LEFT" = "RIGHT") = false) by done.
  assert (HRL : bool_decide ("RIGHT" = "LEFT") = false) by done.
  split.
  - intros d1 d2 Hd. eexists _, _.
    split; [apply rotate_step|]. split; [apply rotate_step|].
    destruct Hd as [[-> ->]|[-> ->]]; rewrite ?HLL, ?HRR, ?HLR, ?HRL;
      unfold _logTick, log_push, tick_line.
    + split.
      * rewrite <- Z.rem_mod_nonneg by lia. by destruct t.
      * pose proof (turn_back 3 1 (tanks s t) Hf) as Hb.
        destruct t, s; unfold set_log, set_tanks; cbn in *;
          rewrite Hb by (right; done); by rewrite <- app_assoc.
    + split.
      * rewrite <- Z.rem_mod_nonneg by lia. by destruct t.
      * pose proof (turn_back 1 3 (tanks s t) Hf) as Hb.
        destruct t, s; unfold set_log, set_tanks; cbn in *;
          rewrite Hb by (left; done); by rewrite <- app_assoc.
  - intros d Hl Hr. rewrite rotate_step.
    rewrite !bool_decide_false by done. unfold turn, _logTick, log_push, tick_line.
    by destruct t, s.
Qed.

(** ** Arena levels *)

(** X12. The arena of a level does not depend on the level that was set
    up before: [setupArena] first clears the walls, so switching levels
    never accumulates walls and setting the same level twice is the same
    as setting it once. *)
Theorem setupArena_last_level_wins (l1 l2 : Z) s :
  setupArena l2 (setupArena l1 s) = setupArena l2 s.
Proof.
  unfold setupArena.
  destruct (l1 =? 2); [|destruct (l1 =? 3)]; reflexivity.
Qed.

(** ** Point-blank fire *)





(** ** The scene *)

Lemma status_entry_take dom msg :
  (length dom ≤ 20)%nat → status_entry dom msg = take 20 (("> " +:+ msg) :: dom).
Proof.
  intros Hl. unfold status_entry. cbn zeta.
  destruct (20 <? length (("> " +:+ msg) :: dom))%nat eqn:E.
  - apply Nat.ltb_lt in E. cbn [length] in E. assert (length dom = 20%nat) as Hd by lia.
    rewrite removelast_firstn_len. cbn [length]. rewrite Hd. done.
  - apply Nat.ltb_ge in E. rewrite take_ge; [done|]. cbn [length] in *. lia.
Qed.

Lemma take_app_take {A} n (l k : list A) : take n (l ++ take n k) = take n (l ++ k).
Proof.
  destruct (decide (length l ≤ n)%nat) as [Hl|Hl].
  - rewrite !take_app_ge by lia. f_equal. rewrite take_take. f_equal. lia.
  - rewrite !take_app_le by lia. done.
Qed.

Lemma status_entries dom msgs :
  (length dom ≤ 20)%nat →
  foldl status_entry dom msgs
  = take 20 (reverse ((λ msg, "> " +:+ msg) <$> msgs) ++ dom).
Proof.
  revert dom. induction msgs as [|m msgs IH]; intros dom Hl.
  { cbn. by rewrite take_ge. }
  cbn [foldl]. rewrite status_entry_take by done.
  rewrite IH by (rewrite length_take; lia).
  rewrite fmap_cons, reverse_cons, <- app_assoc. cbn [app].
  apply take_app_take.
Qed.

Lemma show_events_old sc es :
  (∀ e, e ∈ es → event_id e ∈ processedEvents sc) → foldl show_event sc es = sc.
Proof.
  induction es as [|e es IH]; intros H; [done|].
  cbn [foldl].
  assert (show_event sc e = sc) as ->
    by (unfold show_event; by rewrite decide_True by (apply H; left)).
  apply IH. intros e' He'. apply H. by right.
Qed.

Lemma show_events_new es sc :
  NoDup (event_id <$> es) →
  (∀ e, e ∈ es → event_id e ∉ processedEvents sc) →
  processedEvents (foldl show_event sc es)
    = processedEvents sc ∪ list_to_set (event_id <$> es)
  ∧ triggered (foldl show_event sc es) = triggered sc ++ es
  ∧ bulletSprites (foldl show_event sc es) = bulletSprites sc
  ∧ lastLogIndex (foldl show_event sc es) = lastLogIndex sc
  ∧ uiGameOver (foldl show_event sc es) = uiGameOver sc
  ∧ statusLog (foldl show_event sc es) = statusLog sc.
Proof.
  revert sc. induction es as [|e es IH]; intros sc Hnd Hnew.
  { cbn. split; [by rewrite union_empty_r_L|]. by rewrite app_nil_r. }
  rewrite fmap_cons in Hnd. apply NoDup_cons in Hnd as [Hne Hnd].
  cbn [foldl].
  assert (Hse : show_event sc e
                = {| bulletSprites := bulletSprites sc;
                     processedEvents := processedEvents sc ∪ {[ event_id e ]};
                     lastLogIndex := lastLogIndex sc; uiGameOver := uiGameOver sc;
                     triggered := triggered sc ++ [e]; statusLog := statusLog sc |}).
  { unfold show_event. by rewrite decide_False by (apply Hnew; left). }
  rewrite Hse. clear Hse.
  destruct (IH {| bulletSprites := bulletSprites sc;
                  processedEvents := processedEvents sc ∪ {[ event_id e ]};
                  lastLogIndex := lastLogIndex sc; uiGameOver := uiGameOver sc;
                  triggered := triggered sc ++ [e]; statusLog := statusLog sc |} Hnd)
    as (H1 & H2 & H3 & H4 & H5 & H6).
  { intros e' He'. cbn [processedEvents]. intros Hin.
    apply elem_of_union in Hin as [Hin|Hin].
    - by apply (Hnew e'); [right|].
    - apply elem_of_singleton in Hin. apply Hne. rewrite <- Hin.
      by apply list_elem_of_fmap_2. }
  rewrite H1, H2, H3, H4, H5, H6. cbn [processedEvents triggered bulletSprites lastLogIndex
    uiGameOver statusLog]. split; [|by rewrite <- app_assoc].
  rewrite fmap_cons. cbn [list_to_set]. by rewrite (assoc_L (∪)).
Qed.

Lemma sprites_created (bs : list Bullet.t) (m : gset Z) :
  foldl (λ m b, m ∪ {[ Bullet.id b ]}) m bs = m ∪ list_to_set (Bullet.id <$> bs).
Proof.
  revert m. induction bs as [|b bs IH]; intros m; cbn [foldl].
  { cbn. by rewrite union_empty_r_L. }
  rewrite IH, fmap_cons. cbn [list_to_set]. by rewrite (assoc_L (∪)).
Qed.

(** Rendering a snapshot of an engine whose log and events extend what
    the scene has shown brings the scene up to date with it. *)
Lemma renderState_shown sc0 sc lg es s :
  (length (statusLog sc0) ≤ 20)%nat →
  shown sc0 sc lg es → lg `prefix_of` log s → es `prefix_of` events s →
  NoDup (event_id <$> events s) →
  shown sc0 (renderState s sc) (log s) (events s)
  ∧ bulletSprites (renderState s sc) = list_to_set (Bullet.id <$> bullets s)
  ∧ uiGameOver (renderState s sc) = if isGameOver s then banner (winner s) else uiGameOver sc.
Proof.
  intros Hdom (Hidx & Hst & Hpr & Htr) [lnew Hl] [enew He] Hnd.
  unfold renderState.
  set (sc1 := updateVisuals (bullets s) sc).
  assert (Hsp : bulletSprites sc1 = list_to_set (Bullet.id <$> bullets s)).
  { unfold sc1, updateVisuals. cbn [bulletSprites]. rewrite sprites_created.
    apply set_eq. intros i. rewrite elem_of_filter, elem_of_union. tauto. }
  set (sc2 := foldl show_event sc1 (events s)).
  assert (H2 : processedEvents sc2 = list_to_set (event_id <$> events s)
               ∧ triggered sc2 = triggered sc0 ++ events s
               ∧ bulletSprites sc2 = bulletSprites sc1
               ∧ lastLogIndex sc2 = lastLogIndex sc
               ∧ uiGameOver sc2 = uiGameOver sc
               ∧ statusLog sc2 = statusLog sc).
  { unfold sc2. rewrite He, foldl_app in *.
    rewrite fmap_app in Hnd. apply NoDup_app in Hnd as (Hn1 & Hdis & Hn2).
    rewrite (show_events_old sc1 es).
    2:{ intros e Hin. change (processedEvents sc1) with (processedEvents sc).
        rewrite Hpr. apply elem_of_list_to_set. by apply list_elem_of_fmap_2. }
    destruct (show_events_new enew sc1 Hn2) as (P1' & P2' & P3 & P4 & P5 & P6).
    { intros e Hin. change (processedEvents sc1) with (processedEvents sc).
      rewrite Hpr. intros Hold. apply elem_of_list_to_set in Hold.
      apply (Hdis _ Hold). by apply list_elem_of_fmap_2. }
    rewrite P1', P2', P3, P4, P5, P6.
    change (processedEvents sc1) with (processedEvents sc).
    change (triggered sc1) with (triggered sc).
    rewrite Hpr, Htr, fmap_app, list_to_set_app_L, <- app_assoc. done. }
  destruct H2 as (Q1 & Q2 & Q3 & Q4 & Q5 & Q6).
  set (sc3 := show_log (log s) sc2).
  assert (H3 : lastLogIndex sc3 = length (log s)
               ∧ statusLog sc3
                 = take 20 (reverse ((λ msg, "> " +:+ msg) <$> log s) ++ statusLog sc0)
               ∧ processedEvents sc3 = processedEvents sc2
               ∧ triggered sc3 = triggered sc2
               ∧ bulletSprites sc3 = bulletSprites sc2
               ∧ uiGameOver sc3 = uiGameOver sc2).
  { unfold sc3, show_log. rewrite Q4, Hidx.
    destruct (length lg <? length (log s))%nat eqn:E;
      cbn [lastLogIndex statusLog processedEvents triggered bulletSprites uiGameOver].
    - split; [done|]. split; [|done].
      rewrite Q6, Hst, Hl, drop_app_length.
      rewrite status_entries by (rewrite length_take; lia).
      rewrite take_app_take, fmap_app, reverse_app, <- app_assoc. done.
    - apply Nat.ltb_ge in E. rewrite Hl, length_app in E.
      assert (lnew = []) as -> by (destruct lnew; [done|cbn in E; lia]).
      rewrite app_nil_r in Hl. rewrite Q4, Q6, Hl. done. }
  destruct H3 as (R1 & R2 & R3 & R4 & R5 & R6).
  unfold show_game_over. fold sc3.
  destruct (isGameOver s); unfold shown;
    cbn [lastLogIndex statusLog processedEvents triggered bulletSprites uiGameOver];
    rewrite ?R1, ?R2, ?R3, ?R4, ?R5, ?R6, ?Q1, ?Q2, ?Q3, ?Q5, ?Hsp; done.
Qed.

Lemma writes_ids_fresh m s s' : rtc (mutation m) s s' → ids_fresh s → ids_fresh s'.
Proof.
  induction 1 as [|s1 s2 s3 H12 _ IH]; [done|].
  intros H1. by apply IH, (mutation_ids_fresh _ _ _ H12).
Qed.

Lemma ids_fresh_events s : ids_fresh s → NoDup (event_id <$> events s).
Proof. intros (_ & Hnd & _). unfold ids in Hnd. by apply NoDup_app in Hnd as [? _]. Qed.

(** One firing of the timer on a running game brings the scene up to
    date, whatever part of the log and of the events it had shown. *)
Lemma executeLoopStep_up_to_date sc0 h h' lg es :
  (length (statusLog sc0) ≤ 20)%nat →
  simulationRunning h = true → isGameOver (battleManager h) = false →
  ids_fresh (battleManager h) →
  shown sc0 (scene h) lg es →
  lg `prefix_of` log (battleManager h) → es `prefix_of` events (battleManager h) →
  uiGameOver (scene h) = "" →
  executeLoopStep h = Some h' →
  up_to_date sc0 h' ∧ ids_fresh (battleManager h') ∧ simulationRunning h' = true
  ∧ rtc (mutation true) (battleManager h) (battleManager h').
Proof.
  intros Hdom Hrun Hover Hids Hsh Hlg Hes Hui E.
  unfold executeLoopStep in E. rewrite Hrun, Hover in E. cbn [negb orb] in E.
  set (s0 := battleManager h) in *.
  set (s1 := if turn_ready s0 P1 then s0 else (stepCPU P1 s0).1) in *.
  set (s2 := if turn_ready s1 P2 then s1 else (stepCPU P2 s1).1) in *.
  assert (W1 : rtc (mutation true) s0 s1).
  { unfold s1. destruct (turn_ready s0 P1); [done|apply stepCPU_writes]. }
  assert (W2 : rtc (mutation true) s1 s2).
  { unfold s2. destruct (turn_ready s1 P2); [done|apply stepCPU_writes]. }
  assert (W02 : rtc (mutation true) s0 s2) by (by etrans).
  assert (O2 : isGameOver s2 = false).
  { unfold s2, s1.
    destruct (turn_ready s0 P1), (turn_ready _ P2);
      rewrite ?(proj1 (stepCPU_leaves_the_arena_aux _ _)); done. }
  destruct (writes_append _ _ _ W02) as (L2 & E2 & _).
  pose proof (writes_ids_fresh _ _ _ W02 Hids) as I2.
  destruct (renderState_shown sc0 (scene h) lg es s2 Hdom Hsh) as (S2 & B2 & U2);
    [by etrans|by etrans|by apply ids_fresh_events|].
  rewrite O2, Hui in U2.
  destruct (turn_ready s2 P1 && turn_ready s2 P2).
  - destruct (resolveTurn s2) as [s3|] eqn:E3; [|done]. cbn [mbind option_bind] in E.
    injection E as <-. cbn [battleManager scene simulationRunning].
    pose proof (resolveTurn_writes _ _ E3) as W3.
    destruct (writes_append _ _ _ W3) as (L3 & E3' & _).
    pose proof (writes_ids_fresh _ _ _ W3 I2) as I3.
    destruct (renderState_shown sc0 (renderState s2 (scene h)) (log s2) (events s2) s3
                Hdom S2 L3 E3' (ids_fresh_events _ I3)) as (S3 & B3 & U3).
    rewrite U2 in U3. split; [by split|]. split; [done|]. split; [done|]. by etrans.
  - injection E as <-. cbn [battleManager scene simulationRunning].
    split; [|by split]. split; [done|]. split; [done|].
    cbn [battleManager scene]. by rewrite O2.
Qed.

Lemma timer_up_to_date sc0 n h h' :
  (length (statusLog sc0) ≤ 20)%nat →
  up_to_date sc0 h → ids_fresh (battleManager h) →
  timer n h = Some h' →
  up_to_date sc0 h' ∧ rtc (mutation true) (battleManager h) (battleManager h').
Proof.
  intros Hdom. revert h. induction n as [|n IH]; intros h Hup Hids E.
  { by injection E as <-. }
  cbn [timer] in E. destruct (executeLoopStep h) as [h1|] eqn:E1; [|done].
  cbn [mbind option_bind] in E.
  destruct (negb (simulationRunning h) || isGameOver (battleManager h)) eqn:Hstop.
  - unfold executeLoopStep in E1. rewrite Hstop in E1. injection E1 as <-.
    destruct (IH {| battleManager := battleManager h; scene := scene h;
                    simulationRunning := false; isFastForward := isFastForward h |}
                Hup Hids E) as [H1 H2]. by split.

  - apply orb_false_iff in Hstop as [Hrun Hover]. apply negb_false_iff in Hrun.
    destruct Hup as (Hsh & Hb & Hu). rewrite Hover in Hu.
    destruct (executeLoopStep_up_to_date sc0 h h1 _ _ Hdom Hrun Hover Hids Hsh) as
      (U1 & I1 & _ & W1); [done..|].
    destruct (IH _ U1 I1 E) as [H1 H2]. split; [done|by etrans].
Qed.

Lemma executeLoopStep_reachable h h' :
  reachable (battleManager h) → executeLoopStep h = Some h' → reachable (battleManager h').
Proof.
  intros Hr E. unfold executeLoopStep in E.
  destruct (negb _ || _); [by injection E as <-|].
  set (s0 := battleManager h) in *.
  set (s1 := if turn_ready s0 P1 then s0 else (stepCPU P1 s0).1) in *.
  set (s2 := if turn_ready s1 P2 then s1 else (stepCPU P2 s1).1) in *.
  assert (R1 : reachable s1).
  { unfold s1. destruct (turn_ready s0 P1); [done|by apply reach_stepCPU]. }
  assert (R2 : reachable s2).
  { unfold s2. destruct (turn_ready s1 P2); [done|by apply reach_stepCPU]. }
  destruct (_ && _).
  - destruct (resolveTurn s2) as [s3|] eqn:E3; [|done]. cbn [mbind option_bind] in E.
    injection E as <-. by apply (reach_resolveTurn s2).
  - by injection E as <-.
Qed.

(** What the Run button starts from when both programs load. *)
Lemma btnRun_started p1 p2 h h1 :
  simulationRunning h && negb (isFastForward h) = false →
  (∃ q1 q2, (loadCode p1 p2 (battleManager h)).2 = LoadOk q1 q2) →
  btnRun p1 p2 h = Some h1 →
  ∃ s0, executeLoopStep {| battleManager := s0; scene := startSimulation (scene h);
                           simulationRunning := true; isFastForward := false |} = Some h1
        ∧ s0 = (loadCode p1 p2 (battleManager h)).1
        ∧ isGameOver s0 = false ∧ turnCount s0 = 0 ∧ events s0 = [] ∧ bullets s0 = []
        ∧ eventIdCounter s0 = eventIdCounter (battleManager h).
Proof.
  intros Hrun (q1 & q2 & Hok) E. unfold btnRun in E. rewrite Hrun in E.
  destruct (loadCode p1 p2 (battleManager h)) as [s0 res] eqn:El. cbn [snd] in Hok. subst res.
  exists s0. split; [exact E|]. split; [done|].
  destruct (loadCode_ok _ _ _ _ _ _ El) as (r1 & r2 & _ & _ & _ & _ & ->). done.
Qed.

(** X14. The scene shows each event and each log line exactly once.
    After Run has loaded two programs, and after any number of firings of
    the run-loop timer, the visual effects triggered since Run are exactly
    the events of the engine, in their order; the status log shows the 20
    newest lines of the engine's log, newest first, in front of what it
    showed before; there is one bullet sprite per live bullet; and the
    game-over text is set exactly when the game is over.  This holds for
    every press that the handler does not ignore, that is with no run loop
    going or during fast-forward.  The engine is assumed reachable and the
    status log to hold at most 20 entries when Run is pressed. *)
Theorem scene_follows_engine (p1 p2 : string) (h h1 h' : Host) (n : nat) :
  reachable (battleManager h) →
  (length (statusLog (scene h)) ≤ 20)%nat →
  simulationRunning h && negb (isFastForward h) = false →
  (∃ q1 q2, (loadCode p1 p2 (battleManager h)).2 = LoadOk q1 q2) →
  btnRun p1 p2 h = Some h1 → timer n h1 = Some h' →
  triggered (scene h') = triggered (scene h) ++ events (battleManager h')
  ∧ statusLog (scene h')
    = take 20 (reverse ((λ msg, "> " +:+ msg) <$> log (battleManager h'))
               ++ statusLog (scene h))
  ∧ bulletSprites (scene h') = list_to_set (Bullet.id <$> bullets (battleManager h'))
  ∧ size (bulletSprites (scene h')) = length (bullets (battleManager h'))
  ∧ uiGameOver (scene h')
    = (if isGameOver (battleManager h') then banner (winner (battleManager h')) else "").
Proof.
  intros Hr Hdom Hrun Hok E1 En.
  destruct (btnRun_started _ _ _ _ Hrun Hok E1) as (s0 & E0 & Hs0 & Hover & _ & Hev & Hbs & Hc).
  assert (I0 : ids_fresh s0).
  { destruct (reachable_ids_fresh _ Hr) as (H0 & _). unfold ids_fresh, ids.
    rewrite Hev, Hbs, Hc. split; [done|]. split; [apply NoDup_nil_2|apply Forall_nil_2]. }
  destruct (executeLoopStep_up_to_date (scene h)
              {| battleManager := s0; scene := startSimulation (scene h);
                 simulationRunning := true; isFastForward := false |}
              h1 [] [] Hdom eq_refl Hover I0)
    as (U1 & I1 & _ & W1); [|apply prefix_nil|apply prefix_nil|done|exact E0|].
  { split; [done|]. split; [by cbn; rewrite take_ge|]. split; [done|].
    cbn. by rewrite app_nil_r. }
  destruct (timer_up_to_date (scene h) n h1 h' Hdom U1 I1 En) as [((_ & Hst & _ & Htr) & Hb & Hu) Wn].
  split; [exact Htr|]. split; [exact Hst|]. split; [exact Hb|]. split; [|exact Hu].
  rewrite Hb. pose proof (writes_ids_fresh _ _ _ Wn I1) as (_ & Hnd & _).
  unfold ids in Hnd. apply NoDup_app in Hnd as (_ & _ & Hnd).
  rewrite size_list_to_set by done. by rewrite length_fmap.
Qed.

Lemma executeLoopStep_turn_limit h h' :
  (turnCount (battleManager h) ≤ MAX_TURNS
   ∧ (isGameOver (battleManager h) = false → turnCount (battleManager h) < MAX_TURNS)) →
  executeLoopStep h = Some h' →
  turnCount (battleManager h) ≤ turnCount (battleManager h')
  ∧ turnCount (battleManager h') ≤ MAX_TURNS
  ∧ (isGameOver (battleManager h') = false → turnCount (battleManager h') < MAX_TURNS).
Proof.
  intros [Hle Hlt] E. unfold executeLoopStep in E.
  destruct (negb (simulationRunning h) || isGameOver (battleManager h)) eqn:Hstop.
  { injection E as <-. cbn [battleManager]. split; [lia|]. by split. }
  apply orb_false_iff in Hstop as [_ Hover]. specialize (Hlt Hover).
  set (s0 := battleManager h) in *.
  set (s1 := if turn_ready s0 P1 then s0 else (stepCPU P1 s0).1) in *.
  set (s2 := if turn_ready s1 P2 then s1 else (stepCPU P2 s1).1) in *.
  assert (H2 : isGameOver s2 = false ∧ turnCount s2 = turnCount s0).
  { unfold s2, s1. destruct (turn_ready s0 P1), (turn_ready _ P2);
      repeat match goal with |- context [stepCPU ?t ?s] =>
        destruct (stepCPU_leaves_the_arena_aux t s) as (-> & -> & _) end; done. }
  destruct H2 as [O2 C2].
  destruct (_ && _).
  - destruct (resolveTurn s2) as [s3|] eqn:E3; [|done]. cbn [mbind option_bind] in E.
    injection E as <-. cbn [battleManager].
    destruct (resolveTurn_tanks_hp_alive s2 s3 E3) as [Hv Hc]. rewrite O2 in Hv.
    split; [lia|]. split; [lia|]. intros Hno. rewrite Hno in Hv.
    destruct (Tank.hp (tanks s3 P1) <=? 0); destruct (Tank.hp (tanks s3 P2) <=? 0);
      cbn [andb] in Hv; try done.
    destruct (_ && _); [done|].
    destruct (MAX_TURNS <=? turnCount s2 + 1) eqn:A3; [done|]. lia.
  - injection E as <-. cbn [battleManager]. rewrite O2. split; [lia|]. split; [lia|].
    intros _. lia.
Qed.

(** X15. The run loop plays at most [MAX_TURNS] turns: after Run has
    loaded two programs, and after any number of firings of the timer, the
    turn count is between 0 and [MAX_TURNS], and below [MAX_TURNS] as long
    as the game is not over.  This holds for every press that the handler
    does not ignore, that is with no run loop going or during
    fast-forward.  ([MAX_TURNS] is assumed positive.  The Step handler has
    no such bound: it resolves turns of a finished game.) *)
Theorem run_loop_turn_limit (p1 p2 : string) (h h1 h' : Host) (n : nat) :
  0 < MAX_TURNS →
  simulationRunning h && negb (isFastForward h) = false →
  (∃ q1 q2, (loadCode p1 p2 (battleManager h)).2 = LoadOk q1 q2) →
  btnRun p1 p2 h = Some h1 → timer n h1 = Some h' →
  0 ≤ turnCount (battleManager h') ≤ MAX_TURNS
  ∧ (isGameOver (battleManager h') = false → turnCount (battleManager h') < MAX_TURNS).
Proof.
  intros Hmax Hrun Hok E1 En.
  destruct (btnRun_started _ _ _ _ Hrun Hok E1) as (s0 & E0 & _ & Hover & Hc & _).
  assert (Hn : ∀ n h h', 0 ≤ turnCount (battleManager h) →
            (turnCount (battleManager h) ≤ MAX_TURNS
             ∧ (isGameOver (battleManager h) = false → turnCount (battleManager h) < MAX_TURNS)) →
            timer n h = Some h' →
            0 ≤ turnCount (battleManager h') ≤ MAX_TURNS
            ∧ (isGameOver (battleManager h') = false
               → turnCount (battleManager h') < MAX_TURNS)).
  { clear. induction n as [|n IH]; intros h h' H0 HJ E.
    { injection E as <-. destruct HJ. by repeat split. }
    cbn [timer] in E. destruct (executeLoopStep h) as [h1|] eqn:E1; [|done].
    cbn [mbind option_bind] in E.
    destruct (executeLoopStep_turn_limit h h1 HJ E1) as (Hup & HJ1).
    apply (IH h1 h'); [lia|done|done]. }
  assert (HJ0 : turnCount s0 ≤ MAX_TURNS ∧ (isGameOver s0 = false → turnCount s0 < MAX_TURNS))
    by (split; [lia|intros _; lia]).
  destruct (executeLoopStep_turn_limit
              {| battleManager := s0; scene := startSimulation (scene h);
                 simulationRunning := true; isFastForward := false |} h1 HJ0 E0)
    as (Hup & HJ1).
  apply (Hn n h1 h'); [cbn [battleManager] in Hup; lia|done|done].
Qed.

(** ** Verdicts *)

Lemma reachable_verdict s :
  reachable s → isGameOver s = true →
  winner s ∈ [Some "DRAW"; Some "P1"; Some "P2"; Some "DRAW (STALEMATE)";
              Some "DRAW (TURN LIMIT)"].
Proof.
  induction 1 as [|level s _ IH|a b s _ IH|s _ IH|t s _ IH|s s' _ IH E].
  - done.
  - exact IH.
  - unfold loadCode.
    destruct (compile "P1" a) as [p1|m]; [|done].
    destruct (compile "P2" b) as [p2|m]; cbn [fst]; [done|].
    by destruct (install_fields P1 p1 s) as (_ & _ & _ & _ & _ & _ & _ & _ & _ & Hc);
      apply outcome_of_control in Hc as [-> ->].
  - done.
  - destruct (stepCPU_outcome t s) as [-> ->]. exact IH.
  - destruct (resolveTurn_tanks_hp_alive s s' E) as [Hv _]. intros Ho.
    destruct (Tank.hp (tanks s' P1) <=? 0); destruct (Tank.hp (tanks s' P2) <=? 0);
      cbn [andb] in Hv; try (injection Hv as _ ->; by repeat constructor).
    destruct (isGameOver s); [injection Hv as _ ->; by apply IH|].
    destruct (_ && _); [injection Hv as _ ->; by repeat constructor|].
    destruct (_ <=? _); [injection Hv as _ ->; by repeat constructor|]. congruence.
Qed.

(** X16. A finished game has one of five verdicts, and the scene turns
    them into these game-over texts: mutual destruction, the only draw the
    scene knows, reads DRAW!; a stalemate or a turn-limit draw is
    announced with its verdict followed by WINS!, as a winner is. *)
Theorem game_over_texts s :
  reachable s → isGameOver s = true →
  (winner s, banner (winner s))
  ∈ [ (Some "DRAW", "DRAW!"); (Some "P1", "P1 WINS!"); (Some "P2", "P2 WINS!");
      (Some "DRAW (STALEMATE)", "DRAW (STALEMATE) WINS!");
      (Some "DRAW (TURN LIMIT)", "DRAW (TURN LIMIT) WINS!") ].
Proof.
  intros Hr Ho. pose proof (reachable_verdict s Hr Ho) as Hw.
  repeat (apply elem_of_cons in Hw as [->|Hw]; [set_solver|]).
  by apply elem_of_nil in Hw.
Qed.

(** ** Facing *)

Lemma set_hp_self (tk : Tank.t CPU Registers) : Tank.set_hp (Tank.hp tk) tk = tk.
Proof. by destruct tk. Qed.

(** The flight of the bullets writes no field of a tank but its HP. *)
Lemma bullet_substep_tanks s b u :
  ∃ h, tanks (bullet_substep s b).1.1 u = Tank.set_hp h (tanks s u).
Proof.
  rewrite bullet_substep_cases. cbn zeta.
  destruct (_ <? _); [exists (Tank.hp (tanks s u)); by rewrite set_hp_self|].
  destruct (negb _); [exists (Tank.hp (tanks s u)); cbn; by rewrite set_hp_self|].
  destruct (alive_at _ _ _); [|exists (Tank.hp (tanks s u)); by rewrite set_hp_self].
  cbn [fst].
  destruct (decide (u = enemyOf (Bullet.owner b))) as [->|Hne].
  - exists (Tank.hp (tanks s (enemyOf (Bullet.owner b))) - 1).
    by destruct (enemyOf (Bullet.owner b)).
  - exists (Tank.hp (tanks s u)). rewrite set_hp_self.
    by destruct (enemyOf (Bullet.owner b)), u.
Qed.

Lemma bullet_loop_tanks n s b a u :
  ∃ h, tanks (bullet_loop n s b a).1.1 u = Tank.set_hp h (tanks s u).
Proof.
  revert s b a. induction n as [|n IH]; intros s b a.
  { exists (Tank.hp (tanks s u)). by rewrite set_hp_self. }
  cbn [bullet_loop]. destruct a; [|exists (Tank.hp (tanks s u)); by rewrite set_hp_self].
  destruct (bullet_substep_tanks s b u) as [h1 H1].
  destruct (bullet_substep s b) as [[s1 b1] a1]. cbn [fst] in H1.
  destruct (IH s1 b1 a1) as [h2 H2]. exists h2. by rewrite H2, H1.
Qed.

Lemma updateBullets_tanks s u :
  ∃ h, tanks (updateBullets s) u = Tank.set_hp h (tanks s u).
Proof.
  unfold updateBullets.
  assert (Hf : ∀ l s0 acc, ∃ h, tanks (foldl bullet_turn (s0, acc) l).1 u
                                 = Tank.set_hp h (tanks s0 u)).
  { induction l as [|b l IH]; intros s0 acc.
    { exists (Tank.hp (tanks s0 u)). by rewrite set_hp_self. }
    cbn [foldl].
    assert (Hbt : bullet_turn (s0, acc) b =
                  let r := bullet_loop (Z.to_nat BULLET_SPEED) s0 b true in
                  (r.1.1, if r.2 then acc ++ [r.1.2] else acc)).
    { unfold bullet_turn. by destruct (bullet_loop _ _ _ _) as [[??]?]. }
    rewrite Hbt. cbn zeta.
    destruct (bullet_loop_tanks (Z.to_nat BULLET_SPEED) s0 b true u) as [h1 H1].
    destruct (IH (bullet_loop (Z.to_nat BULLET_SPEED) s0 b true).1.1
                 (if (bullet_loop (Z.to_nat BULLET_SPEED) s0 b true).2
                  then acc ++ [(bullet_loop (Z.to_nat BULLET_SPEED) s0 b true).1.2]
                  else acc)) as [h2 H2].
    exists h2. by rewrite H2, H1. }
  destruct (Hf (bullets s) s []) as [h H].
  destruct (foldl _ _ _) as [s1 surv]. cbn [fst] in H. exists h. rewrite <- H. by destruct u.
Qed.

(** The facing a pending action gives a tank that faces [f]. *)
Lemma resolveAction_facing t a s its s' its' u :
  resolveAction t a (s, its) = Some (s', its') →
  Tank.facing (tanks s' u)
  = if decide (u = t) then
      match a with
      | Some (ROTATE dir) =>
          turn_to dir (Tank.facing (tanks s u))
      | _ => Tank.facing (tanks s u)
      end
    else Tank.facing (tanks s u).
Proof.
  unfold resolveAction. intros E.
  destruct a as [[]|];
    try (assert (s' = s) as -> by congruence; by destruct (decide _)).
  - destruct (DIRS _) as [d|]; [|done]. cbn [mbind option_bind] in E.
    assert (s' = s) as -> by congruence. by destruct (decide _).
  - simplify_eq. unfold turn, turn_to.
    destruct (decide (u = t)) as [->|Hne].
    + destruct (bool_decide (dir = "LEFT")) eqn:EL.
      * apply bool_decide_eq_true in EL as ->.
        assert (bool_decide ("LEFT" = "RIGHT") = false) as -> by done. by destruct t.
      * by destruct t, (bool_decide (dir = "RIGHT")).
    + by destruct t, u, (bool_decide (dir = "LEFT")), (bool_decide (dir = "RIGHT")).
  - destruct (fire t s) as [s1|] eqn:F; [|done]. cbn [mbind option_bind] in E.
    assert (s' = s1) as -> by congruence.
    assert (Tank.facing (tanks s1 u) = Tank.facing (tanks s u)) as ->; [|by destruct (decide _)].
    unfold fire in F. destruct (hasActiveBullet _ _).
    { assert (s1 = _) as -> by (symmetry; injection F; intros H; exact H). by destruct t, u. }
    destruct (DIRS _) as [dir|]; [|done]. cbn [mbind option_bind] in F.
    destruct (negb _).
    { assert (s1 = _) as -> by (symmetry; injection F; intros H; exact H). by destruct t, u. }
    destruct (alive_at _ _ _);
      (assert (s1 = _) as -> by (symmetry; injection F; intros H; exact H)); by destruct t, u.
Qed.

(** X17. A turn changes the facing of a tank only through a pending
    ROTATE: LEFT takes facing [f] to [(f + 3) % 4], RIGHT to [(f + 1) % 4];
    with any other pending action, or none, and whatever the other tank
    does, the tank faces after the turn where it faced before. *)
Theorem turn_changes_facing_by_rotate s s' (t : TankId) :
  resolveTurn s = Some s' →
  Tank.facing (tanks s' t)
  = match pendingActions s t with
    | Some (ROTATE dir) => turn_to dir (Tank.facing (tanks s t))
    | _ => Tank.facing (tanks s t)
    end.
Proof.
  intros E. destruct (resolveTurn_inv s s' E) as (w & Ew & -> & _).
  destruct (game_over_checks_verdict w) as [Hvi _]. unfold verdict_inputs in Hvi.
  assert (Tank.facing (tanks (set_pendingActions None None (game_over_checks w)) t)
          = Tank.facing (tanks w t)) as ->.
  { destruct t; cbn [tanks set_pendingActions tanks_P1 tanks_P2]; congruence. }
  assert (Hp : pendingActions (begin_turn s) t = pendingActions s t) by (by destruct t).
  assert (Hf : Tank.facing (tanks (begin_turn s) t) = Tank.facing (tanks s t))
    by (by destruct t).
  rewrite <- Hp, <- Hf. clear Hp Hf Hvi E. revert Ew. generalize (begin_turn s). clear s.
  intros s Ew. unfold resolve_world in Ew.
  assert (Hv : ∀ t' a s1 s2,
            resolve_sensor_scan t' a s1 = Some s2 ∨ resolve_sensor_ping t' a s1 = Some s2 →
            Tank.facing (tanks s2 t) = Tank.facing (tanks s1 t)).
  { intros t' a s1 s2 H. apply (sensors_vitals t' a s1 s2 t) in H. unfold vitals in H.
    congruence. }
  destruct (resolve_sensor_scan P1 _ _) as [s1|] eqn:E1; [|done]. cbn [mbind option_bind] in Ew.
  destruct (resolve_sensor_scan P2 _ _) as [s2|] eqn:E2; [|done]. cbn [mbind option_bind] in Ew.
  destruct (resolve_sensor_ping P1 _ _) as [s3|] eqn:E3; [|done]. cbn [mbind option_bind] in Ew.
  destruct (resolve_sensor_ping P2 _ _) as [s4|] eqn:E4; [|done]. cbn [mbind option_bind] in Ew.
  destruct (resolveAction P1 _ _) as [[s5 i5]|] eqn:E5; [|done]. cbn [mbind option_bind] in Ew.
  destruct (resolveAction P2 _ _) as [[s6 i6]|] eqn:E6; [|done]. cbn [mbind option_bind] in Ew.
  cbn [fst snd] in Ew.
  destruct (updateBullets_tanks s t) as [h0 H0].
  pose proof (Hv _ _ _ _ (or_introl E1)) as H1. pose proof (Hv _ _ _ _ (or_introl E2)) as H2.
  pose proof (Hv _ _ _ _ (or_intror E3)) as H3. pose proof (Hv _ _ _ _ (or_intror E4)) as H4.
  pose proof (resolveAction_facing _ _ _ _ _ _ t E5) as H5.
  pose proof (resolveAction_facing _ _ _ _ _ _ t E6) as H6.
  destruct (applyMovements_outcomes i6 s6) as (w' & Ew' & Ht & _).
  assert (w' = w) as -> by congruence.
  destruct (Ht t) as [_ Hrest]. unfold tank_rest in Hrest.
  assert (Tank.facing (tanks w t) = Tank.facing (tanks s6 t)) as -> by congruence.
  assert (Hs4 : Tank.facing (tanks s4 t) = Tank.facing (tanks s t)).
  { rewrite H4, H3, H2, H1, H0. done. }
  rewrite H6, H5, Hs4. destruct t.
  - rewrite decide_False by done. by rewrite decide_True by done.
  - rewrite decide_True by done. rewrite decide_False by done.
    by destruct (pendingActions s P2) as [[]|].
Qed.

(** ** Sensors *)

Lemma scan_answer_vitals dd dt g t (tk1 tk2 e1 e2 : Tank.t CPU Registers) d c :
  vitals tk1 = vitals tk2 → vitals e1 = vitals e2 →
  scan_answer dd dt g t tk1 e1 d c = scan_answer dd dt g t tk2 e2 d c.
Proof. unfold vitals, scan_answer. intros [= -> -> _ _] [= -> -> _ ->]. done. Qed.

Lemma ping_answer_vitals dx dy (e1 e2 : Tank.t CPU Registers) c :
  vitals e1 = vitals e2 → ping_answer dx dy e1 c = ping_answer dx dy e2 c.
Proof. unfold vitals, ping_answer. intros [= -> -> _ ->]. done. Qed.

Lemma resolveScan_answer t dd dt s s' :
  resolveScan t dd dt s = Some s' →
  grid s' = grid s
  ∧ tanks s' (enemyOf t) = tanks s (enemyOf t)
  ∧ vitals (tanks s' t) = vitals (tanks s t)
  ∧ ∃ d c, DIRS (Tank.facing (tanks s t)) = Some d ∧ Tank.cpu (tanks s t) = Some c
           ∧ Tank.cpu (tanks s' t)
             = Some (scan_answer dd dt (grid s) t (tanks s t) (tanks s (enemyOf t)) d c).
Proof.
  unfold resolveScan. intros E.
  destruct (DIRS _) as [d|] eqn:Hd; [|done]. cbn [mbind option_bind] in E.
  destruct (Tank.cpu _) as [c|] eqn:Hc; [|done]. cbn [mbind option_bind] in E.
  assert (s' = _) as -> by (symmetry; injection E; intros H; exact H).
  split; [by destruct t|]. split; [by destruct t|]. split; [by destruct t|].
  exists d, c. split; [done|]. split; [done|]. by destruct t.
Qed.

Lemma resolvePing_answer t dx dy s s' :
  resolvePing t dx dy s = Some s' →
  grid s' = grid s
  ∧ tanks s' (enemyOf t) = tanks s (enemyOf t)
  ∧ vitals (tanks s' t) = vitals (tanks s t)
  ∧ ∃ c, Tank.cpu (tanks s t) = Some c
         ∧ Tank.cpu (tanks s' t) = Some (ping_answer dx dy (tanks s (enemyOf t)) c).
Proof.
  unfold resolvePing, ping_answer. intros E.
  destruct (Tank.cpu _) as [c|] eqn:Hc; [|done]. cbn [mbind option_bind] in E.
  destruct (0 <? _);
    (assert (s' = _) as -> by (symmetry; injection E; intros H; exact H));
    (split; [by destruct t|]); (split; [by destruct t|]); (split; [by destruct t|]);
    exists c; (split; [done|]); by destruct t.
Qed.

(** What a sensor step does to the tanks: the CPU of the tank whose
    pending action it resolves gets the answer, nothing else changes. *)
Lemma sensor_step_scan t a s s' :
  resolve_sensor_scan t a s = Some s' →
  grid s' = grid s
  ∧ tanks s' (enemyOf t) = tanks s (enemyOf t)
  ∧ vitals (tanks s' t) = vitals (tanks s t)
  ∧ match a with
    | Some (SCAN dd dt) =>
        ∃ d c, DIRS (Tank.facing (tanks s t)) = Some d ∧ Tank.cpu (tanks s t) = Some c
               ∧ Tank.cpu (tanks s' t)
                 = Some (scan_answer dd dt (grid s) t (tanks s t) (tanks s (enemyOf t)) d c)
    | _ => tanks s' t = tanks s t
    end.
Proof.
  destruct a as [[]|]; cbn [resolve_sensor_scan]; try (by intros [= <-]).
  apply resolveScan_answer.
Qed.

Lemma sensor_step_ping t a s s' :
  resolve_sensor_ping t a s = Some s' →
  grid s' = grid s
  ∧ tanks s' (enemyOf t) = tanks s (enemyOf t)
  ∧ vitals (tanks s' t) = vitals (tanks s t)
  ∧ match a with
    | Some (PING dx dy) =>
        ∃ c, Tank.cpu (tanks s t) = Some c
             ∧ Tank.cpu (tanks s' t) = Some (ping_answer dx dy (tanks s (enemyOf t)) c)
    | _ => tanks s' t = tanks s t
    end.
Proof.
  destruct a as [[]|]; cbn [resolve_sensor_ping]; try (by intros [= <-]).
  apply resolvePing_answer.
Qed.

Lemma resolveAction_cpu t a s its s' its' u :
  resolveAction t a (s, its) = Some (s', its') →
  Tank.cpu (tanks s' u) = Tank.cpu (tanks s u).
Proof.
  unfold resolveAction. intros E.
  destruct a as [[]|]; try (by assert (s' = s) as -> by congruence).
  - destruct (DIRS _) as [d|]; [|done]. cbn [mbind option_bind] in E.
    by assert (s' = s) as -> by congruence.
  - simplify_eq. unfold turn.
    by destruct t, u, (bool_decide (dir = "LEFT")), (bool_decide (dir = "RIGHT")).
  - destruct (fire t s) as [s1|] eqn:F; [|done]. cbn [mbind option_bind] in E.
    assert (s' = s1) as -> by congruence.
    unfold fire in F. destruct (hasActiveBullet _ _).
    { assert (s1 = _) as -> by (symmetry; injection F; intros H; exact H). by destruct t, u. }
    destruct (DIRS _) as [dir|]; [|done]. cbn [mbind option_bind] in F.
    destruct (negb _).
    { assert (s1 = _) as -> by (symmetry; injection F; intros H; exact H). by destruct t, u. }
    destruct (alive_at _ _ _);
      (assert (s1 = _) as -> by (symmetry; injection F; intros H; exact H)); by destruct t, u.
Qed.

(** The CPU a turn leaves a tank with, in a world [sb] that stands for
    the arena after the flight of the bullets. *)
Lemma resolve_world_cpu s w t :
  resolve_world s = Some w →
  let sb := updateBullets s in
  match pendingActions s t with
  | Some (SCAN dd dt) =>
      ∃ d c, DIRS (Tank.facing (tanks sb t)) = Some d ∧ Tank.cpu (tanks sb t) = Some c
             ∧ Tank.cpu (tanks w t)
               = Some (scan_answer dd dt (grid sb) t (tanks sb t) (tanks sb (enemyOf t)) d c)
  | Some (PING dx dy) =>
      ∃ c, Tank.cpu (tanks sb t) = Some c
           ∧ Tank.cpu (tanks w t) = Some (ping_answer dx dy (tanks sb (enemyOf t)) c)
  | _ => Tank.cpu (tanks w t) = Tank.cpu (tanks sb t)
  end.
Proof.
  unfold resolve_world. intros Ew. cbn zeta.
  destruct (resolve_sensor_scan P1 _ _) as [s1|] eqn:E1; [|done]. cbn [mbind option_bind] in Ew.
  destruct (resolve_sensor_scan P2 _ _) as [s2|] eqn:E2; [|done]. cbn [mbind option_bind] in Ew.
  destruct (resolve_sensor_ping P1 _ _) as [s3|] eqn:E3; [|done]. cbn [mbind option_bind] in Ew.
  destruct (resolve_sensor_ping P2 _ _) as [s4|] eqn:E4; [|done]. cbn [mbind option_bind] in Ew.
  destruct (resolveAction P1 _ _) as [[s5 i5]|] eqn:E5; [|done]. cbn [mbind option_bind] in Ew.
  destruct (resolveAction P2 _ _) as [[s6 i6]|] eqn:E6; [|done]. cbn [mbind option_bind] in Ew.
  cbn [fst snd] in Ew.
  assert (Hend : Tank.cpu (tanks w t) = Tank.cpu (tanks s4 t)).
  { destruct (applyMovements_outcomes i6 s6) as (w' & Ew' & Ht & _).
    assert (w' = w) as -> by congruence.
    destruct (Ht t) as [_ Hrest]. unfold tank_rest in Hrest.
    assert (Tank.cpu (tanks w t) = Tank.cpu (tanks s6 t)) as -> by congruence.
    rewrite (resolveAction_cpu _ _ _ _ _ _ t E6). apply (resolveAction_cpu _ _ _ _ _ _ t E5). }
  rewrite Hend. clear Hend Ew E5 E6 s5 i5 s6 i6 w.
  apply sensor_step_scan in E1 as (G1 & O1 & V1 & A1).
  apply sensor_step_scan in E2 as (G2 & O2 & V2 & A2).
  apply sensor_step_ping in E3 as (G3 & O3 & V3 & A3).
  apply sensor_step_ping in E4 as (G4 & O4 & V4 & A4).
  cbn [enemyOf] in *.
  destruct t.
  - (* P1: its SCAN is resolved first, its PING third *)
    rewrite O4.
    destruct (pendingActions s P1) as [[]|];
      try (rewrite A3, O2, A1; done).
    + destruct A1 as (d & c & Hd & Hc & Hcpu). exists d, c. split; [done|]. split; [done|].
      by rewrite A3, O2.
    + destruct A3 as (c & Hc & Hcpu). rewrite O2, A1 in Hc. exists c. split; [done|].
      rewrite Hcpu. f_equal. apply ping_answer_vitals. by rewrite V2, O1.
  - (* P2: its SCAN is resolved second, its PING fourth *)
    destruct (pendingActions s P2) as [[]|];
      try (rewrite A4, O3, A2, O1; done).
    + destruct A2 as (d & c & Hd & Hc & Hcpu). rewrite O1 in Hd, Hc.
      exists d, c. split; [done|]. split; [done|].
      rewrite A4, O3, Hcpu, G1, O1. f_equal.
      by apply scan_answer_vitals.
    + destruct A4 as (c & Hc & Hcpu). rewrite O3, A2, O1 in Hc. exists c. split; [done|].
      rewrite Hcpu. f_equal. apply ping_answer_vitals. by rewrite V3, O2, V1.
Qed.

(** X18. The sensors of a turn read the arena as the flight of the
    bullets has left it and before any action or movement of the turn: a
    PING writes the cell on which the enemy stood when the turn began, or
    (-1, -1) if the enemy is destroyed, be it by a bullet of this very
    turn; a SCAN writes what the ray meets from the cell and in the
    direction the tank had when the turn began.  With any other pending
    action the turn leaves the CPU of the tank as it was. *)
Theorem sensors_read_after_bullets s s' (t : TankId) :
  resolveTurn s = Some s' →
  let sb := updateBullets (begin_turn s) in
  (∀ u, position (tanks sb u) = position (tanks s u)
        ∧ Tank.facing (tanks sb u) = Tank.facing (tanks s u)
        ∧ Tank.hp (tanks sb u) ≤ Tank.hp (tanks s u))
  ∧ match pendingActions s t with
    | Some (SCAN dd dt) =>
        ∃ d c, DIRS (Tank.facing (tanks s t)) = Some d ∧ Tank.cpu (tanks s t) = Some c
               ∧ Tank.cpu (tanks s' t)
                 = Some (scan_answer dd dt (grid s) t (tanks sb t) (tanks sb (enemyOf t)) d c)
    | Some (PING dx dy) =>
        ∃ c, Tank.cpu (tanks s t) = Some c
             ∧ Tank.cpu (tanks s' t) = Some (ping_answer dx dy (tanks sb (enemyOf t)) c)
    | _ => Tank.cpu (tanks s' t) = Tank.cpu (tanks s t)
    end.
Proof.
  intros E. cbn zeta.
  destruct (resolveTurn_inv s s' E) as (w & Ew & -> & _).
  assert (Hb : ∀ u, ∃ h, tanks (updateBullets (begin_turn s)) u
                         = Tank.set_hp h (Tank.set_lastFeedback None (tanks s u))).
  { intros u. destruct (updateBullets_tanks (begin_turn s) u) as [h H]. exists h.
    rewrite H. by destruct u. }
  assert (Hg : grid (updateBullets (begin_turn s)) = grid s).
  { destruct (writes_still _ _ (updateBullets_writes false (begin_turn s))) as [-> _]. done. }
  split.
  - intros u.
    destruct (writes_hp _ _ _ (updateBullets_writes false (begin_turn s)) u) as [Hle _].
    assert (Tank.hp (tanks (begin_turn s) u) = Tank.hp (tanks s u)) as Hh by (by destruct u).
    rewrite Hh in Hle. destruct (Hb u) as [h Hu]. rewrite Hu in Hle |- *. by repeat split.
  - pose proof (resolve_world_cpu _ _ t Ew) as H. cbn zeta in H.
    destruct (game_over_checks_verdict w) as [Hvi _]. unfold verdict_inputs in Hvi.
    assert (Tank.cpu (tanks (set_pendingActions None None (game_over_checks w)) t)
            = Tank.cpu (tanks w t)) as ->.
    { destruct t; cbn [tanks set_pendingActions tanks_P1 tanks_P2]; congruence. }
    assert (pendingActions (begin_turn s) t = pendingActions s t) as Hp by (by destruct t).
    rewrite Hp in H. rewrite Hg in H.
    assert (Hc : Tank.cpu (tanks (updateBullets (begin_turn s)) t) = Tank.cpu (tanks s t))
      by (by destruct (Hb t) as [h ->]).
    assert (Hf : Tank.facing (tanks (updateBullets (begin_turn s)) t)
                 = Tank.facing (tanks s t)) by (by destruct (Hb t) as [h ->]).
    rewrite Hc, Hf in H. exact H.
Qed.

(** ** The Step button *)

Lemma stepCPU_cpu_loaded t s u :
  is_Some (Tank.cpu (tanks s u)) → is_Some (Tank.cpu (tanks (stepCPU t s).1 u)).
Proof.
  intros Hu. unfold stepCPU.
  destruct (Tank.cpu (tanks s t)) as [c|] eqn:Hc; [|done].
  destruct (_ <=? _); [done|].
  destruct (step _) as [r c'].
  destruct (decide (u = t)) as [->|Hne].
  - by destruct r as [[]|], t; eexists.
  - assert (t = enemyOf u) as -> by by destruct t, u.
    by destruct r as [[]|], u.
Qed.

Lemma resolveTurn_cpu_loaded s s' u :
  resolveTurn s = Some s' →
  is_Some (Tank.cpu (tanks s u)) → is_Some (Tank.cpu (tanks s' u)).
Proof.
  intros E Hc. destruct (resolveTurn_inv s s' E) as (w & Ew & -> & _).
  pose proof (resolve_world_cpu _ _ u Ew) as H. cbn zeta in H.
  destruct (game_over_checks_verdict w) as [Hvi _]. unfold verdict_inputs in Hvi.
  assert (Tank.cpu (tanks (set_pendingActions None None (game_over_checks w)) u)
          = Tank.cpu (tanks w u)) as ->.
  { destruct u; cbn [tanks set_pendingActions tanks_P1 tanks_P2]; congruence. }
  destruct (updateBullets_tanks (begin_turn s) u) as [h Hb].
  assert (Hcb : Tank.cpu (tanks (updateBullets (begin_turn s)) u) = Tank.cpu (tanks s u)).
  { rewrite Hb. by destruct u. }
  destruct (pendingActions (begin_turn s) u) as [[]|]; try (rewrite H, Hcb; exact Hc).
  - destruct H as (d & c & _ & _ & ->). by eexists.
  - destruct H as (c & _ & ->). by eexists.
Qed.

Lemma host_step_cpu_loaded s s' u :
  host_step s = Some s' →
  is_Some (Tank.cpu (tanks s u)) → is_Some (Tank.cpu (tanks s' u)).
Proof.
  unfold host_step. intros E Hu.
  set (s1 := if turn_ready s P1 then s else (stepCPU P1 s).1) in *.
  assert (H1 : is_Some (Tank.cpu (tanks s1 u))).
  { unfold s1. destruct (turn_ready s P1); [done|by apply stepCPU_cpu_loaded]. }
  set (s2 := if turn_ready s1 P2 then s1 else (stepCPU P2 s1).1) in *.
  assert (H2 : is_Some (Tank.cpu (tanks s2 u))).
  { unfold s2. destruct (turn_ready s1 P2); [done|by apply stepCPU_cpu_loaded]. }
  destruct (_ && _); [by apply (resolveTurn_cpu_loaded s2)|by injection E as <-].
Qed.

(** With P1's program loaded the Step handler is the round of
    [host_step]. *)
Lemma btnStep_loaded sources s :
  is_Some (Tank.cpu (tanks s P1)) → btnStep sources s = host_step s.
Proof. intros [c Hc]. unfold btnStep. by rewrite Hc. Qed.

(** X6. While a game is played the log and the event list only grow: a
    turn only appends to them and never lowers the event counter, and so
    does any number of presses of the Step button on an engine on which
    P1's program is loaded, whatever the editors hold; P1's program stays
    loaded.  (With no program loaded the handler first calls [loadCode],
    which replaces the log and the events when it succeeds, as
    [resetTurnState] does.) *)
Theorem play_only_appends :
  (∀ s s', resolveTurn s = Some s' →
     log s `prefix_of` log s' ∧ events s `prefix_of` events s'
     ∧ eventIdCounter s ≤ eventIdCounter s')
  ∧ (∀ presses s s',
       is_Some (Tank.cpu (tanks s P1)) → btnSteps presses s = Some s' →
       log s `prefix_of` log s' ∧ events s `prefix_of` events s'
       ∧ eventIdCounter s ≤ eventIdCounter s'
       ∧ is_Some (Tank.cpu (tanks s' P1))).
Proof.
  split.
  - intros s s' E. by apply (writes_append true), resolveTurn_writes.
  - induction presses as [|sources rest IH]; intros s s' Hc E.
    { injection E as <-. by repeat split. }
    cbn [btnSteps] in E. rewrite (btnStep_loaded _ _ Hc) in E.
    destruct (host_step s) as [s1|] eqn:E1; [|done]. cbn [mbind option_bind] in E.
    destruct (writes_append true _ _ (host_step_writes _ _ E1)) as (H1 & H2 & H3).
    destruct (IH s1 s' (host_step_cpu_loaded _ _ P1 E1 Hc) E) as (I1 & I2 & I3 & I4).
    split; [by etrans|]. split; [by etrans|]. split; [lia|done].
Qed.

(** ** Reset *)

Lemma game_over_checks_MAX_OPS s : MAX_OPS (game_over_checks s) = MAX_OPS s.
Proof.
  unfold game_over_checks, turn_limit_check, stalemate_check, destroyed_check.
  repeat (destruct (_ : bool); cbn [MAX_OPS log_push set_log set_outcome _logTick]);
    reflexivity.
Qed.

(** The engine keeps the grid dimensions and the op budget it was built
    with. *)
Lemma reachable_built s :
  reachable s →
  width (grid s) = GRID_WIDTH ∧ height (grid s) = GRID_HEIGHT
  ∧ MAX_OPS s = MAX_OPS_PER_TURN.
Proof.
  induction 1 as [|level s _ IH|a b s _ IH|s _ IH|t s _ IH|s s' _ IH E].
  - done.
  - destruct (setupArena_dims level s) as [-> ->]. exact IH.
  - unfold loadCode.
    destruct (compile "P1" a) as [p1|m]; [|done].
    destruct (compile "P2" b) as [p2|m]; cbn [fst]; [exact IH|exact IH].
  - exact IH.
  - destruct (writes_still _ _ (stepCPU_writes false t s)) as [-> _].
    assert (MAX_OPS (stepCPU t s).1 = MAX_OPS s) as ->; [|exact IH].
    unfold stepCPU. destruct (Tank.cpu _) as [c|]; [|done].
    destruct (_ <=? _); [done|].
    destruct (step _) as [[r|] c']; [destruct r|]; by destruct t.
  - destruct (resolveTurn_inv s s' E) as (w & Ew & -> & Hc).
    destruct (writes_still _ _ (game_over_checks_writes false w)) as [Hg _].
    cbn [grid MAX_OPS set_pendingActions]. rewrite Hg, game_over_checks_MAX_OPS.
    unfold control in Hc. cbn in Hc.
    assert (grid w = grid s) as -> by congruence.
    assert (MAX_OPS w = MAX_OPS s) as -> by congruence. exact IH.
Qed.

(** X19. Reset starts the game afresh, whatever was played before: with
    two sources that compile, the engine the Reset button leaves is the
    engine of a page that was just loaded, had the level set up and the
    same programs loaded, except for what no reset touches, the event
    counter and the display fields of the tanks (last action, last
    feedback, debug PC, debug IR, debug registers and the tank's own
    [turnOps]). *)
Theorem reset_is_a_fresh_start (level : Z) (p1 p2 : string) (h : Host) :
  reachable (battleManager h) →
  (∃ q1 q2, (loadCode p1 p2 constructor).2 = LoadOk q1 q2) →
  battleManager (btnReset level (Some (p1, p2)) h)
  = with_leftovers (battleManager h) (loadCode p1 p2 (setupArena level constructor)).1.
Proof.
  intros Hr (q1 & q2 & Hok).
  destruct (reachable_built _ Hr) as (Hw & Hh & Hm).
  unfold btnReset. cbn [battleManager]. revert Hok. unfold loadCode.
  destruct (compile "P1" p1) as [r1|m]; [|done].
  destruct (compile "P2" p2) as [r2|m]; [|done]. intros _. cbn [fst].
  unfold with_leftovers, resetTurnState, install, log_push, set_log, setupArena, set_grid.
  destruct (battleManager h) as [g t1 t2 bs lg es go wi pa1 pa2 to1 to2 tc mo ec].
  cbn in Hw, Hh, Hm. subst. destruct g as [w0 h0 ws]. cbn in *. subst.
  destruct t1, t2. reflexivity.
Qed.

End Properties.

(** ** getState and the objects it shares *)

Section SnapshotProperties.
Context {vm : Vm}.

(** At the time of the call the snapshot shows the engine's state. *)
Lemma getState_reads_engine (e : Engine) :
  seen_bullets (objects e) (getState e) = bullets (contents e)
  ∧ seen_events (objects e) (getState e) = events (contents e)
  ∧ state_tanks_P1 (getState e) = tanks_P1 (contents e)
  ∧ state_tanks_P2 (getState e) = tanks_P2 (contents e)
  ∧ state_log (getState e) = log (contents e)
  ∧ gameOver (getState e) = isGameOver (contents e)
  ∧ state_winner (getState e) = winner (contents e)
  ∧ state_turnCount (getState e) = turnCount (contents e).
Proof. done. Qed.

(** Writes to the snapshot's own fields, arrays and tank copies do not
    reach the engine. *)
Lemma shallow_write_is_private (w : ClientWrite) (g : GameState) (e : Engine) :
  shallow w = true → contents (after_client_write w g e) = contents e.
Proof. destruct w as [[] ?| | | | | | | |]; by intros Hw. Qed.

Lemma deref_alter_ne {A} (f : A → A) (m : gmap nat A) (refs : list nat) i r b :
  refs !! i = Some r → m !! r = Some b → f b ≠ b →
  deref (alter f r m) refs ≠ deref m refs.
Proof.
  intros Hi Hr Hf. revert i Hi.
  induction refs as [|r0 refs IH]; intros i Hi; [done|].
  unfold deref in *. cbn [omap list_omap].
  rewrite lookup_alter.
  destruct i as [|i]; cbn in Hi.
  - injection Hi as ->. rewrite decide_True by done. rewrite Hr. cbn.
    intros E. injection E as E _. done.
  - destruct (decide (r = r0)) as [->|Hne].
    + rewrite Hr. cbn. intros E. injection E as E _. done.
    + destruct (m !! r0); cbn.
      * intros E. injection E as E. by apply (IH i).
      * by apply (IH i).
Qed.

(** A write to a bullet object reached through the snapshot changes the
    engine's own bullet. *)
Lemma deep_write_reaches_engine (e : Engine) i r b (f : Bullet.t → Bullet.t) :
  this_bullets e !! i = Some r →
  bullet_objects (objects e) !! r = Some b →
  f b ≠ b →
  bullets (contents (after_client_write (write_bullet_object i f) (getState e) e))
  ≠ bullets (contents e).
Proof.
  intros Hi Hr Hf.
  cbn [contents after_client_write client_write objects this_bullets this_events
       this_fields bullets set_events set_bullets bullet_objects fst getState state_bullets].
  unfold write_through. rewrite Hi. by apply (deref_alter_ne f _ _ i r b).
Qed.

End SnapshotProperties.

(** * The properties on example games *)

Section ArenaFacts.
#[local] Existing Instance arena_constants.
#[local] Existing Instance toy_vm.
#[local] Existing Instance toy_raycast.

(** ** Movement *)

(** In round 18 of the edge game the movement rules give P1 the outcome
    wall and P2 the outcome blocked. *)
Lemma applyMovements_ordered_filter_witness :
  ∃ s', applyMovements edge_intents edge_game = Some s'
    ∧ Tank.lastFeedback (tanks s' P1) = Some "WALL"
    ∧ Tank.lastFeedback (tanks s' P2) = Some "BLOCKED"
    ∧ position (tanks s' P1) = (0, 4) ∧ position (tanks s' P2) = (1, 4)
    ∧ bullets s' = bullets edge_game.
Proof.
  destruct (applyMovements_ordered_filter edge_intents edge_game)
    as (s' & E & Ht & _ & Hb & _).
  exists s'. split; [exact E|].
  destruct (Ht P1) as [H1 _]. destruct (Ht P2) as [H2 _].
  vm_compute in H1. vm_compute in H2.
  destruct H1 as [Hp1 Hf1]. destruct H2 as [Hp2 Hf2].
  repeat split; assumption.
Defined.

(** C1, as stated, fails: for the pair of intents of round 18 of the edge
    game (P1 backs into the west edge, P2 moves onto P1's cell) both WALL
    and BLOCKED are given, so it is not the case that exactly one of wall,
    collision, blocked, both-succeed applies to the pair. *)
Lemma movement_wall_and_blocked_together :
  reachable edge_game
  ∧ ((λ s, (Tank.lastFeedback (tanks s P1), Tank.lastFeedback (tanks s P2)))
       <$> host_step edge_game) = Some (Some "WALL", Some "BLOCKED")
  ∧ ∃ s', applyMovements edge_intents edge_game = Some s'
      ∧ feedback_given s' "WALL" ∧ feedback_given s' "BLOCKED"
      ∧ ¬ pair_outcome_exclusive edge_intents s'.
Proof.
  split; [apply reachable_after_rounds|]. split; [by vm_compute|].
  exists (default edge_game (applyMovements edge_intents edge_game)).
  split; [by vm_compute|].
  assert (Hw : feedback_given
                 (default edge_game (applyMovements edge_intents edge_game)) "WALL")
    by (left; by vm_compute).
  assert (Hb : feedback_given
                 (default edge_game (applyMovements edge_intents edge_game)) "BLOCKED")
    by (right; by vm_compute).
  split; [exact Hw|]. split; [exact Hb|].
  intros [(_ & _ & Hnb & _)|[(Hnw & _)|[(Hnw & _)|(Hnw & _)]]]; auto.
Qed.

(** ** Bullets *)


Lemma at_most_one_bullet_per_owner_witness :
  (owner_count P1 (bullets shot_game) ≤ 1)%nat
  ∧ hasActiveBullet shot_game P1 = true
  ∧ ∃ s', resolveAction P1 (Some FIRE) (shot_game, no_intents) = Some (s', no_intents)
          ∧ bullets s' = bullets shot_game.
Proof.
  destruct at_most_one_bullet_per_owner as [Hinv Hfire].
  assert (Hact : hasActiveBullet shot_game P1 = true) by by vm_compute.
  split; [apply Hinv, reachable_after_rounds|]. split; [exact Hact|].
  destruct (Hfire shot_game P1 no_intents Hact) as (s' & E & Hb & _).
  exists s'. by split.
Defined.

(** ** FIRE *)

Lemma fire_resolution_witness :
  hasActiveBullet duel_game P1 = false
  ∧ DIRS (Tank.facing (tanks duel_game P1)) = Some (1, 0)
  ∧ alive_at (tanks duel_game P2) 1 4 = true
  ∧ ∃ s', resolveAction P1 (Some FIRE) (duel_game, no_intents) = Some (s', no_intents)
          ∧ Tank.hp (tanks s' P2) = 2.
Proof.
  assert (Hact : hasActiveBullet duel_game P1 = false) by by vm_compute.
  assert (Hdir : DIRS (Tank.facing (tanks duel_game P1)) = Some (1, 0)) by by vm_compute.
  assert (Hal : alive_at (tanks duel_game P2) 1 4 = true) by by vm_compute.
  split; [exact Hact|]. split; [exact Hdir|]. split; [exact Hal|].
  destruct (fire_resolution P1 duel_game no_intents) as [_ H].
  destruct (H (1, 0) Hact Hdir) as (_ & Hhit & _).
  destruct Hhit as (s' & E & Hhp & _); [by vm_compute|by vm_compute|].
  exists s'. split; [exact E|]. cbn [enemyOf] in Hhp. rewrite Hhp. by vm_compute.
Defined.

(** C3, as stated, fails: at the end of the wreck game P2 stands in the
    cell in front of P1 with HP 0; a FIRE of P1 does not damage it and
    emits no EXPLOSION, it spawns a bullet in P2's cell. *)
Lemma fire_at_destroyed_enemy_spawns_bullet :
  reachable wreck_game
  ∧ position (tanks wreck_game P1) = (0, 4) ∧ Tank.facing (tanks wreck_game P1) = 0
  ∧ position (tanks wreck_game P2) = (1, 4) ∧ Tank.hp (tanks wreck_game P2) = 0
  ∧ hasActiveBullet wreck_game P1 = false
  ∧ ∃ s', resolveAction P1 (Some FIRE) (wreck_game, no_intents) = Some (s', no_intents)
      ∧ Tank.hp (tanks s' P2) = Tank.hp (tanks wreck_game P2)
      ∧ events s' = events wreck_game
      ∧ bullets s' = [Bullet.mk 3 1 4 1 0 P1 0].
Proof.
  split; [apply reachable_after_rounds|].
  do 5 (split; [by vm_compute|]).
  exists (default wreck_game (fst <$> resolveAction P1 (Some FIRE) (wreck_game, no_intents))).
  split; [by vm_compute|]. by vm_compute.
Qed.

(** ** Game over *)

Lemma game_over_evaluation_order_witness :
  ∃ s', resolveTurn (stepCPU P2 (stepCPU P1 (game "HALT" "HALT")).1).1 = Some s'
        ∧ isGameOver s' = true ∧ winner s' = Some "DRAW (STALEMATE)"
        ∧ turnCount s' = 1.
Proof.
  destruct game_over_evaluation_order as (_ & H & _).
  apply (H "HALT" "HALT" constructor (game "HALT" "HALT") [HALT] [HALT]).
  - by vm_compute.
  - by vm_compute.
  - intros [] c x y f h am Hc; vm_compute in Hc; injection Hc as <-; by right.
Defined.

(** C4, as stated, fails: the long game is over by turn limit after round
    100; in round 101 both programs have run off their end, both pending
    actions are HALT, both tanks are alive, and the turn leaves the winner
    at DRAW (TURN LIMIT) instead of the stalemate draw. *)
Lemma turn_limit_verdict_kept_when_both_halt :
  let s := (stepCPU P2 (stepCPU P1 long_game).1).1 in
  reachable s
  ∧ isGameOver s = true
  ∧ pendingActions s P1 = Some HALT ∧ pendingActions s P2 = Some HALT
  ∧ ∃ s', resolveTurn s = Some s'
      ∧ 0 < Tank.hp (tanks s' P1) ∧ 0 < Tank.hp (tanks s' P2)
      ∧ isGameOver s' = true
      ∧ winner s' = Some "DRAW (TURN LIMIT)"
      ∧ winner s' ≠ Some "DRAW (STALEMATE)".
Proof.
  cbn zeta. split; [do 2 apply reach_stepCPU; apply reachable_after_rounds|].
  do 3 (split; [by vm_compute|]).
  exists (default long_game (resolveTurn (stepCPU P2 (stepCPU P1 long_game).1).1)).
  split; [by vm_compute|]. by vm_compute.
Qed.

Lemma winner_iff_isGameOver_witness :
  reachable wreck_game
  ∧ (winner wreck_game ≠ None ↔ isGameOver wreck_game = true)
  ∧ winner wreck_game = Some "P1".
Proof.
  split; [apply reachable_after_rounds|].
  split; [|by vm_compute].
  destruct winner_iff_isGameOver as (_ & _ & _ & _ & _ & _ & H).
  apply H, reachable_after_rounds.
Defined.

(** ** setupArena *)

Lemma setupArena_only_walls_witness :
  walls (grid (setupArena 2 shot_game)) = {[ (7, 4); (7, 5); (8, 4); (8, 5) ]}
  ∧ tanks_P1 (setupArena 2 shot_game) = tanks_P1 shot_game
  ∧ bullets (setupArena 2 shot_game) = bullets shot_game.
Proof.
  destruct (setupArena_only_walls 2 shot_game) as (Hw & _ & _ & Ht & _ & Hb & _).
  split; [exact Hw|]. by split.
Defined.

(** ** loadCode *)

(** C6 fails on the code: reloading mid-game with a second program that
    does not parse reports a failure, yet P1 already runs the new program
    while the turn count, the bullet in flight and P2's CPU are those of
    the game in progress. *)
Lemma loadCode_second_failure_replaces_first_cpu :
  let r := loadCode "HALT" "BOGUS" shot_game in
  reachable shot_game
  ∧ r.2 = LoadFail "P2 Error: Unknown opcode BOGUS"
  ∧ r.1 ≠ shot_game
  ∧ Tank.cpu (tanks r.1 P1) = Some (new_CPU [HALT] tt)
  ∧ Tank.cpu (tanks r.1 P1) ≠ Tank.cpu (tanks shot_game P1)
  ∧ Tank.cpu (tanks r.1 P2) = Tank.cpu (tanks shot_game P2)
  ∧ turnCount r.1 = 1
  ∧ bullets r.1 = bullets shot_game ∧ bullets r.1 ≠ [].
Proof.
  cbn zeta. split; [apply reachable_after_rounds|].
  split; [by vm_compute|].
  split; [intros E; apply (f_equal (λ s, Tank.cpu (tanks s P1))) in E;
          vm_compute in E; discriminate|].
  split; [by vm_compute|].
  split; [intros E; vm_compute in E; discriminate|].
  split; [by vm_compute|]. split; [by vm_compute|].
  split; [by vm_compute|]. intros E; vm_compute in E; discriminate.
Qed.

(** ** stepCPU *)

Lemma stepCPU_sensor_update_witness :
  ∃ c, Tank.cpu (tanks shot_game P1) = Some c
       ∧ 0 < Tank.hp (tanks shot_game P1)
       ∧ (stepCPU P1 shot_game).2 = (step (updateTankState 0 4 0 3 0 c)).1
       ∧ Tank.cpu (tanks (stepCPU P1 shot_game).1 P1)
         = Some (step (updateTankState 0 4 0 3 0 c)).2.
Proof.
  eexists. split; [by vm_compute|]. split; [by vm_compute|].
  destruct (stepCPU_sensor_update P1 shot_game) as [H _].
  destruct (H _ ltac:(by vm_compute) ltac:(by vm_compute)) as (Hr & Hc & _).
  split; [exact Hr|exact Hc].
Defined.

(** C8, as stated, fails: P1's bullet is live in [shot_game], and the
    micro-step of P1 passes [ammoAvailable] = 0 to [updateTankState] (the
    last of the five recorded sensor values), not 1. *)
Lemma stepCPU_ammo_zero_while_bullet_live :
  reachable shot_game
  ∧ hasActiveBullet shot_game P1 = true
  ∧ owner_count P1 (bullets shot_game) = 1%nat
  ∧ toy_sensors <$> Tank.cpu (tanks (stepCPU P1 shot_game).1 P1)
    = Some (Some (0, 4, 0, 3, 0)).
Proof.
  split; [apply reachable_after_rounds|]. by vm_compute.
Qed.

(** ** getState *)

(** C7 fails on the code: a caller that assigns [x] on the bullet object it
    finds in the snapshot changes the bullet the engine itself holds. *)
Lemma getState_shares_bullet_objects :
  let g := getState shot_engine in
  contents shot_engine = shot_game
  ∧ seen_bullets (objects shot_engine) g = [shot_bullet]
  ∧ bullets (contents shot_engine) = [shot_bullet]
  ∧ bullets (contents (after_client_write (write_bullet_object 0 set_x_99) g shot_engine))
    = [set_x_99 shot_bullet]
  ∧ contents (after_client_write (write_bullet_object 0 set_x_99) g shot_engine)
    ≠ contents shot_engine.
Proof.
  cbn zeta. do 4 (split; [by vm_compute|]).
  intros E. apply (f_equal bullets) in E. vm_compute in E. discriminate.
Qed.

(** ** Reachable states *)

Lemma arena_start_on_board : start_on_board.
Proof. intros []; cbn; lia. Defined.

Lemma arena_valid_start : valid_start.
Proof. intros []; cbn; lia. Defined.

Lemma tank_fields_in_range_witness :
  reachable wreck_game
  ∧ ∀ t, 0 ≤ Tank.x (tanks wreck_game t) < 16 ∧ 0 ≤ Tank.y (tanks wreck_game t) < 10
         ∧ 0 ≤ Tank.facing (tanks wreck_game t) < 4 ∧ 0 ≤ Tank.hp (tanks wreck_game t) ≤ 3.
Proof.
  split; [apply reachable_after_rounds|].
  apply (tank_fields_in_range wreck_game arena_start_on_board arena_valid_start).
  - cbn; lia.
  - apply reachable_after_rounds.
Defined.

Lemma tanks_never_share_a_cell_witness :
  start_apart ∧ position (tanks edge_game P1) ≠ position (tanks edge_game P2).
Proof.
  assert (Ha : start_apart) by (intros E; vm_compute in E; discriminate).
  split; [exact Ha|].
  apply (tanks_never_share_a_cell edge_game arena_start_on_board Ha).
  apply reachable_after_rounds.
Defined.

Lemma turn_moves_one_cell_witness :
  ∃ s', resolveTurn opening_ready = Some s'
    ∧ ∀ t, position (tanks s' t) = position (tanks opening_ready t)
           ∨ (Z.abs (Tank.x (tanks s' t) - Tank.x (tanks opening_ready t))
              + Z.abs (Tank.y (tanks s' t) - Tank.y (tanks opening_ready t)) = 1
              ∧ isValid (grid opening_ready) (Tank.x (tanks s' t)) (Tank.y (tanks s' t)) = true
              ∧ position (tanks s' t) ≠ position (tanks opening_ready (enemyOf t))
              ∧ ∃ dir, pendingActions opening_ready t = Some (MOVE dir)).
Proof.
  exists (default opening_ready (resolveTurn opening_ready)).
  assert (E : resolveTurn opening_ready
              = Some (default opening_ready (resolveTurn opening_ready))) by (by vm_compute).
  split; [exact E|].
  apply (turn_moves_one_cell opening_ready _ arena_start_on_board); [|exact E].
  do 2 apply reach_stepCPU. apply reach_loadCode, reach_constructor.
Defined.

Lemma ids_unique_below_counter_witness :
  reachable wreck_game
  ∧ NoDup ((event_id <$> events wreck_game) ++ (Bullet.id <$> bullets wreck_game))
  ∧ eventIdCounter wreck_game = 3.
Proof.
  split; [apply reachable_after_rounds|]. split; [|by vm_compute].
  apply (ids_unique_below_counter wreck_game), reachable_after_rounds.
Defined.

Lemma live_bullets_in_range_witness :
  shot_bullet ∈ bullets shot_game
  ∧ inBounds (grid shot_game) (Bullet.x shot_bullet) (Bullet.y shot_bullet) = true
  ∧ 0 ≤ Bullet.dist shot_bullet ≤ 40.
Proof.
  assert (Hin : shot_bullet ∈ bullets shot_game) by (vm_compute; left).
  split; [exact Hin|].
  destruct (live_bullets_in_range shot_game) with (b := shot_bullet) as (H1 & H2 & _).
  - cbn; lia.
  - apply reachable_after_rounds.
  - exact Hin.
  - split; [exact H1|exact H2].
Defined.

Lemma play_only_appends_witness :
  is_Some (Tank.cpu (tanks standoff_game P1))
  ∧ ∃ s', btnSteps [None; Some ("FIRE", "FIRE")] standoff_game = Some s'
    ∧ log standoff_game `prefix_of` log s'
    ∧ events standoff_game `prefix_of` events s'
    ∧ length (events standoff_game) = 0%nat ∧ length (events s') = 2%nat.
Proof.
  assert (Hc : is_Some (Tank.cpu (tanks standoff_game P1)))
    by (apply is_Some_alt; vm_compute; exact I).
  assert (E : btnSteps [None; Some ("FIRE", "FIRE")] standoff_game
              = Some (default standoff_game
                        (btnSteps [None; Some ("FIRE", "FIRE")] standoff_game)))
    by (vm_compute; reflexivity).
  assert (L0 : length (events standoff_game) = 0%nat) by (vm_compute; reflexivity).
  assert (L2 : length (events (default standoff_game
                        (btnSteps [None; Some ("FIRE", "FIRE")] standoff_game))) = 2%nat)
    by (vm_compute; reflexivity).
  split; [exact Hc|]. eexists. split; [exact E|].
  destruct play_only_appends as [_ H]. destruct (H _ _ _ Hc E) as (H1 & H2 & _).
  split; [exact H1|]. split; [exact H2|]. split; [exact L0|exact L2].
Defined.

Lemma turn_damage_bound_witness :
  ∃ s', resolveTurn standoff_ready = Some s'
    ∧ threat standoff_ready P2 = 1
    ∧ 3 - 1 ≤ Tank.hp (tanks s' P2) ≤ 3.
Proof.
  exists (default standoff_ready (resolveTurn standoff_ready)).
  assert (E : resolveTurn standoff_ready
              = Some (default standoff_ready (resolveTurn standoff_ready))) by (by vm_compute).
  split; [exact E|]. split; [by vm_compute|].
  destruct turn_damage_bound as [H _]. pose proof (H _ _ P2 E) as Hb.
  change (threat standoff_ready P2) with 1 in Hb.
  change (Tank.hp (tanks standoff_ready P2)) with 3 in Hb. exact Hb.
Defined.

Lemma unfinished_game_invariant_witness :
  reachable duel_game ∧ isGameOver duel_game = false
  ∧ 0 < Tank.hp (tanks duel_game P1) ∧ 0 < Tank.hp (tanks duel_game P2)
  ∧ turnCount duel_game < 100.
Proof.
  assert (Hr : reachable duel_game) by apply reachable_after_rounds.
  assert (Ho : isGameOver duel_game = false) by (by vm_compute).
  split; [exact Hr|]. split; [exact Ho|].
  destruct (unfinished_game_invariant duel_game) as (_ & H & _).
  - cbn; lia.
  - cbn; lia.
  - exact Hr.
  - exact (H Ho).
Defined.

Lemma game_over_persists_witness :
  isGameOver long_game = true
  ∧ isGameOver (stepCPU P1 long_game).1 = true
  ∧ isGameOver (setupArena 3 long_game) = true.
Proof.
  assert (Ho : isGameOver long_game = true) by (by vm_compute).
  destruct game_over_persists as (H1 & H2 & _).
  split; [exact Ho|]. split; [exact (H1 P1 long_game Ho)|exact (H2 3 long_game Ho)].
Defined.

Lemma rotate_left_right_inverse_witness :
  0 ≤ Tank.facing (tanks constructor P1) < 4
  ∧ ∃ s1 s2,
      resolveAction P1 (Some (ROTATE "LEFT")) (constructor, no_intents) = Some (s1, no_intents)
      ∧ resolveAction P1 (Some (ROTATE "RIGHT")) (s1, no_intents) = Some (s2, no_intents)
      ∧ Tank.facing (tanks s1 P1) = 3
      ∧ tanks s2 P1 = tanks constructor P1.
Proof.
  assert (Hf : 0 ≤ Tank.facing (tanks constructor P1) < 4) by (cbn; lia).
  split; [exact Hf|].
  destruct (rotate_left_right_inverse P1 constructor no_intents Hf) as [H _].
  destruct (H "LEFT" "RIGHT") as (s1 & s2 & E1 & E2 & F1 & E3); [by left|].
  exists s1, s2. split; [exact E1|]. split; [exact E2|]. split; [|by rewrite E3].
  rewrite F1. reflexivity.
Defined.


Lemma game_over_texts_witness :
  reachable wreck_game ∧ isGameOver wreck_game = true
  ∧ (winner wreck_game, banner (winner wreck_game))
    ∈ [ (Some "DRAW", "DRAW!"); (Some "P1", "P1 WINS!"); (Some "P2", "P2 WINS!");
        (Some "DRAW (STALEMATE)", "DRAW (STALEMATE) WINS!");
        (Some "DRAW (TURN LIMIT)", "DRAW (TURN LIMIT) WINS!") ].
Proof.
  assert (Hr : reachable wreck_game) by apply reachable_after_rounds.
  assert (Ho : isGameOver wreck_game = true) by (by vm_compute).
  split; [exact Hr|]. split; [exact Ho|]. exact (game_over_texts wreck_game Hr Ho).
Defined.

Lemma turn_changes_facing_by_rotate_witness :
  ∃ s', resolveTurn opening_ready = Some s'
    ∧ pendingActions opening_ready P1 = Some (ROTATE "LEFT")
    ∧ Tank.facing (tanks s' P1) = 3
    ∧ Tank.facing (tanks s' P2) = Tank.facing (tanks opening_ready P2).
Proof.
  exists (default opening_ready (resolveTurn opening_ready)).
  assert (E : resolveTurn opening_ready
              = Some (default opening_ready (resolveTurn opening_ready))) by (by vm_compute).
  assert (E1 : pendingActions opening_ready P1 = Some (ROTATE "LEFT")) by (by vm_compute).
  assert (E2 : pendingActions opening_ready P2 = Some (MOVE "FORWARD")) by (by vm_compute).
  assert (F1 : Tank.facing (tanks opening_ready P1) = 0) by (by vm_compute).
  split; [exact E|]. split; [exact E1|].
  pose proof (turn_changes_facing_by_rotate opening_ready _ P1 E) as H1.
  pose proof (turn_changes_facing_by_rotate opening_ready _ P2 E) as H2.
  rewrite E1, F1 in H1. rewrite E2 in H2.
  split; [exact H1|exact H2].
Defined.

Lemma sensors_read_after_bullets_witness :
  ∃ s', resolveTurn sensing_ready = Some s'
    ∧ toy_registers <$> Tank.cpu (tanks s' P1) = Some [("R1", 5); ("R0", 15)].
Proof.
  exists (default sensing_ready (resolveTurn sensing_ready)).
  assert (E : resolveTurn sensing_ready
              = Some (default sensing_ready (resolveTurn sensing_ready))) by (by vm_compute).
  split; [exact E|].
  destruct (sensors_read_after_bullets sensing_ready _ P1 E) as [_ H].
  change (pendingActions sensing_ready P1) with (Some (PING "R0" "R1")) in H.
  destruct H as (c & Hc & ->). vm_compute in Hc. injection Hc as <-. by vm_compute.
Defined.

Lemma reset_is_a_fresh_start_witness :
  battleManager (btnReset 2 (Some ("FIRE", "WAIT")) played_page)
  = with_leftovers (battleManager played_page)
      (loadCode "FIRE" "WAIT" (setupArena 2 constructor)).1.
Proof.
  apply (reset_is_a_fresh_start 2 "FIRE" "WAIT" played_page).
  - unfold played_page; cbn [battleManager]. apply reachable_after_rounds.
  - eexists _, _. by vm_compute.
Defined.

Lemma scene_follows_engine_witness :
  ∃ h1 h', btnRun "LEFT FIRE WAIT WAIT" "LEFT FIRE WAIT WAIT" page = Some h1
    ∧ timer 6 h1 = Some h'
    ∧ triggered (scene h') = triggered (scene page) ++ events (battleManager h')
    ∧ length (events (battleManager h')) = 2%nat
    ∧ size (bulletSprites (scene h')) = length (bullets (battleManager h')).
Proof.
  set (r1 := btnRun "LEFT FIRE WAIT WAIT" "LEFT FIRE WAIT WAIT" page).
  exists (default page r1), (default page (r1 ≫= timer 6)).
  assert (E1 : r1 = Some (default page r1)) by (by vm_compute).
  assert (E2 : timer 6 (default page r1) = Some (default page (r1 ≫= timer 6)))
    by (by vm_compute).
  assert (E3 : length (events (battleManager (default page (r1 ≫= timer 6)))) = 2%nat)
    by (by vm_compute).
  split; [exact E1|]. split; [exact E2|].
  pose proof (scene_follows_engine "LEFT FIRE WAIT WAIT" "LEFT FIRE WAIT WAIT" page
              (default page r1) (default page (r1 ≫= timer 6)) 6) as H.
  destruct H as (H1 & _ & _ & H4 & _).
  - apply reach_constructor.
  - cbn; lia.
  - reflexivity.
  - eexists _, _. by vm_compute.
  - exact E1.
  - exact E2.
  - split; [exact H1|]. split; [exact E3|exact H4].
Defined.

Lemma run_loop_turn_limit_witness :
  simulationRunning fast_page = true
  ∧ ∃ h1 h', btnRun "LEFT FIRE WAIT WAIT" "LEFT FIRE WAIT WAIT" fast_page = Some h1
    ∧ timer 6 h1 = Some h'
    ∧ 0 ≤ turnCount (battleManager h') ≤ 100.
Proof.
  set (r1 := btnRun "LEFT FIRE WAIT WAIT" "LEFT FIRE WAIT WAIT" fast_page).
  assert (E1 : r1 = Some (default fast_page r1)) by (vm_compute; reflexivity).
  assert (E2 : timer 6 (default fast_page r1) = Some (default fast_page (r1 ≫= timer 6)))
    by (vm_compute; reflexivity).
  assert (Hok : ∃ q1 q2, (loadCode "LEFT FIRE WAIT WAIT" "LEFT FIRE WAIT WAIT"
                            (battleManager fast_page)).2 = LoadOk q1 q2)
    by (eexists _, _; vm_compute; reflexivity).
  split; [reflexivity|].
  exists (default fast_page r1), (default fast_page (r1 ≫= timer 6)).
  split; [exact E1|]. split; [exact E2|].
  pose proof (run_loop_turn_limit "LEFT FIRE WAIT WAIT" "LEFT FIRE WAIT WAIT" fast_page
                (default fast_page r1) (default fast_page (r1 ≫= timer 6)) 6) as H.
  destruct H as [H _].
  - cbn; lia.
  - reflexivity.
  - exact Hok.
  - exact E1.
  - exact E2.
  - exact H.
Defined.

End ArenaFacts.
